(** * OpenIn: the platform registry, the resolver and the redirect guard

    A shallow embedding of [platforms.js] (the platform table, the three
    regular expressions, [parseRepoInput], [parseSearchQuery],
    [findPlatformByKeyword], [findPlatformByDomain], [buildRepoUrl]) and of
    the redirect ledger and bypass list of [background.js]
    ([shouldBypass], [isRecentJump], [recordJump]).

    A JavaScript string is modelled by its sequence of code units,
    [list ascii]; the development covers the strings whose code units are
    below 256.  On those, [toLowerCase], [trim], [split] and the regular
    expressions of the program stay within the range. *)

From Stdlib Require Import Ascii String ZArith Lia Bool.
From stdpp Require Import gmap strings list.

Local Open Scope string_scope.
Local Open Scope list_scope.
Local Open Scope stdpp_scope.
Local Open Scope nat_scope.

(** String literals stand for their code units. *)
Coercion list_ascii_of_string : string >-> list.

Abbreviation jsstring := (list ascii).

(** ** Code units and the built-in string methods *)

Module Js.

Definition code (c : ascii) : nat := nat_of_ascii c.

Definition in_range (lo hi c : ascii) : bool :=
  (code lo <=? code c) && (code c <=? code hi).

(** [WhiteSpace] and [LineTerminator] code units below 256: TAB, LF, VT, FF,
    CR, SP and NBSP.  This is the set that [trim] strips and [\s] matches. *)
Definition isWhiteSpace (c : ascii) : bool :=
  let n := code c in
  ((9 <=? n) && (n <=? 13)) || (n =? 32) || (n =? 160).

(** [LineTerminator] code units below 256, which [.] does not match. *)
Definition isLineTerminator (c : ascii) : bool :=
  let n := code c in (n =? 10) || (n =? 13).

(** [\w] *)
Definition isWordChar (c : ascii) : bool :=
  in_range "a" "z" c || in_range "A" "Z" c || in_range "0" "9" c
  || (code c =? code "_").

(** [String.prototype.toLowerCase], one code unit at a time: A-Z and the
    Latin-1 capitals (all of 0xC0-0xDE but the multiplication sign). *)
Definition lowerChar (c : ascii) : ascii :=
  let n := code c in
  if ((65 <=? n) && (n <=? 90))
     || ((192 <=? n) && (n <=? 222) && negb (n =? 215))
  then ascii_of_nat (n + 32) else c.

Definition toLowerCase (s : jsstring) : jsstring := map lowerChar s.

Fixpoint trimStart (s : jsstring) : jsstring :=
  match s with
  | c :: s' => if isWhiteSpace c then trimStart s' else s
  | [] => []
  end.

Definition trimEnd (s : jsstring) : jsstring := rev (trimStart (rev s)).

(** [String.prototype.trim] *)
Definition trim (s : jsstring) : jsstring := trimEnd (trimStart s).

Definition eqb (s t : jsstring) : bool := bool_decide (s = t).

Fixpoint startsWith (s p : jsstring) {struct p} : bool :=
  match p, s with
  | [], _ => true
  | a :: p', b :: s' => bool_decide (a = b) && startsWith s' p'
  | _ :: _, [] => false
  end.

(** [String.prototype.includes]: [p] occurs in [s]. *)
Fixpoint includes (s p : jsstring) : bool :=
  startsWith s p ||
  match s with
  | [] => false
  | _ :: s' => includes s' p
  end.

(** [Array.prototype.includes] on an array of strings. *)
Definition arrayIncludes (l : list jsstring) (x : jsstring) : bool :=
  existsb (eqb x) l.

(** [s.split(/\s+/)]: the pieces between the maximal runs of white space.
    [sep] tells that the previous code unit belonged to a separator, [acc]
    is the current piece, reversed. *)
Fixpoint split_ws_from (sep : bool) (acc : jsstring) (s : jsstring)
  : list jsstring :=
  match s with
  | [] => [rev acc]
  | c :: s' =>
      if isWhiteSpace c
      then if sep then split_ws_from true acc s'
           else rev acc :: split_ws_from true [] s'
      else split_ws_from false (c :: acc) s'
  end.

Definition split_ws (s : jsstring) : list jsstring := split_ws_from false [] s.

(** [Array.prototype.join] *)
Fixpoint join (sep : jsstring) (l : list jsstring) : jsstring :=
  match l with
  | [] => []
  | [x] => x
  | x :: l' => x ++ sep ++ join sep l'
  end.

(** [parts.slice(0, -1)] *)
Definition slice_init (l : list jsstring) : list jsstring :=
  take (length l - 1) l.

(** [GetSubstitution] for a string pattern (no captures): in the
    replacement, [$$] is a dollar, [$&] the matched text, [$`] the text
    before the match and [$'] the text after it; anything else is literal. *)
Fixpoint getSubstitution (matched before after template : jsstring)
  : jsstring :=
  match template with
  | [] => []
  | "$"%char :: t1 =>
      match t1 with
      | "$"%char :: t2 =>
          "$"%char :: getSubstitution matched before after t2
      | "&"%char :: t2 =>
          matched ++ getSubstitution matched before after t2
      | "`"%char :: t2 =>
          before ++ getSubstitution matched before after t2
      | "'"%char :: t2 =>
          after ++ getSubstitution matched before after t2
      | _ => "$"%char :: getSubstitution matched before after t1
      end
  | c :: t1 => c :: getSubstitution matched before after t1
  end.

(** [s.replace(pat, repl)] with a string pattern: the first occurrence only.
    [before] is the text already passed, reversed. *)
Fixpoint replace_from (before : jsstring) (s pat repl : jsstring) : jsstring :=
  if startsWith s pat
  then getSubstitution pat (rev before) (drop (length pat) s) repl
       ++ drop (length pat) s
  else match s with
       | [] => []
       | c :: s' => c :: replace_from (c :: before) s' pat repl
       end.

Definition replace (s pat repl : jsstring) : jsstring :=
  replace_from [] s pat repl.

End Js.

(** ** Regular expressions

    The three patterns of the program use literal characters, [.],
    character classes, sequencing, capturing and non-capturing groups, the
    greedy quantifiers [?] on groups and [{m,n}], [+], [*] on single
    characters, and the anchors [^] and [$].  The matcher is the
    backtracking matcher of the language: a quantifier first takes as much
    as it can and gives back one repetition at a time. *)

Module Regex.

Inductive class_item :=
| Range (lo hi : ascii)          (* a-z *)
| Single (c : ascii)             (* a literal member *)
| WordClass                      (* \w *)
| SpaceClass.                    (* \s *)

Inductive atom :=
| Lit (c : ascii)
| Dot
| Class (items : list class_item).

Inductive regex :=
| Atom (a : atom)
| Seq (r1 r2 : regex)
| Group (i : nat) (r : regex)               (* the i-th capturing group *)
| Opt (r : regex)                           (* r? *)
| Repeat (lo : nat) (hi : option nat) (a : atom)
                                            (* a{lo,hi}, a+, a*: no [hi] *)
| Bol                                       (* ^ *)
| Eol.                                      (* $ *)

Definition item_ok (it : class_item) (c : ascii) : bool :=
  match it with
  | Range lo hi => Js.in_range lo hi c
  | Single d => bool_decide (d = c)
  | WordClass => Js.isWordChar c
  | SpaceClass => Js.isWhiteSpace c
  end.

Definition atom_ok (a : atom) (c : ascii) : bool :=
  match a with
  | Lit d => bool_decide (d = c)
  | Dot => negb (Js.isLineTerminator c)
  | Class items => existsb (fun it => item_ok it c) items
  end.

(** Capture [i] of a match, [None] for a group that did not take part. *)
Abbreviation captures := (list (option jsstring)).

(** A continuation receives the position reached, the rest of the input and
    the captures so far. *)
Abbreviation cont := (nat -> jsstring -> captures -> option captures).

Definition below (hi : option nat) (n : nat) : bool :=
  match hi with
  | Some h => n <? h
  | None => true
  end.

(** Greedy repetition of one atom: [n] repetitions are already taken. *)
Fixpoint repeat_from (a : atom) (lo : nat) (hi : option nat) (n : nat)
    (pos : nat) (s : jsstring) (cs : captures) (k : cont) : option captures :=
  let stop := if lo <=? n then k pos s cs else None in
  match s with
  | c :: s' =>
      if atom_ok a c && below hi n
      then match repeat_from a lo hi (S n) (S pos) s' cs k with
           | Some res => Some res
           | None => stop
           end
      else stop
  | [] => stop
  end.

Fixpoint run (r : regex) (pos : nat) (s : jsstring) (cs : captures) (k : cont)
  : option captures :=
  match r with
  | Atom a =>
      match s with
      | c :: s' => if atom_ok a c then k (S pos) s' cs else None
      | [] => None
      end
  | Seq r1 r2 =>
      run r1 pos s cs (fun pos1 s1 cs1 => run r2 pos1 s1 cs1 k)
  | Group i r1 =>
      run r1 pos s cs
        (fun pos1 s1 cs1 => k pos1 s1 (<[i := Some (take (pos1 - pos) s)]> cs1))
  | Opt r1 =>
      (* An iteration that consumes nothing is refused.  The groups inside
         need no reset: none of them can be set before this one attempt. *)
      match run r1 pos s cs
              (fun pos1 s1 cs1 => if pos1 =? pos then None else k pos1 s1 cs1)
      with
      | Some res => Some res
      | None => k pos s cs
      end
  | Repeat lo hi a => repeat_from a lo hi 0 pos s cs k
  | Bol => if pos =? 0 then k pos s cs else None
  | Eol => match s with [] => k pos s cs | _ :: _ => None end
  end.

(** One attempt at the start index [pos]; slot 0 receives the whole match. *)
Definition match_at (groups : nat) (r : regex) (pos : nat) (s : jsstring)
  : option captures :=
  run r pos s (replicate (S groups) None)
    (fun pos1 _ cs1 => Some (<[0 := Some (take (pos1 - pos) s)]> cs1)).

(** [RegExp.prototype.exec] without the global flag: the start indices are
    tried from left to right. *)
Fixpoint exec_from (groups : nat) (r : regex) (pos : nat) (s : jsstring)
  : option captures :=
  match match_at groups r pos s with
  | Some res => Some res
  | None =>
      match s with
      | [] => None
      | _ :: s' => exec_from groups r (S pos) s'
      end
  end.

(** [s.match(r)] for a pattern with [groups] capturing groups. *)
Definition exec (groups : nat) (r : regex) (s : jsstring) : option captures :=
  exec_from groups r 0 s.

(** Capture [i] of a result, [None] when it is [undefined]. *)
Definition capture (res : captures) (i : nat) : option jsstring :=
  default None (res !! i).

Declare Scope regex_scope.
Delimit Scope regex_scope with re.
Bind Scope regex_scope with regex.
Infix ">+" := Seq (at level 60, right associativity) : regex_scope.

(** A literal character, and a literal run of characters [c d ...]. *)
Definition chr (c : ascii) : regex := Atom (Lit c).

Fixpoint lits (c : ascii) (rest : jsstring) : regex :=
  match rest with
  | [] => chr c
  | d :: rest' => Seq (chr c) (lits d rest')
  end.

End Regex.

(** ** platforms.js *)

Module Platforms.
Import Regex.

Record PlatformConfig := {
  name : jsstring;
  keywords : list jsstring;
  urlPattern : jsstring;
  domain : jsstring;
  color : jsstring;
  singleName : bool;     (* absent in the table reads as false *)
  allowAt : bool         (* absent in the table reads as false *)
}.

(** The table, in the order of the object literal, which is the order of
    [Object.entries].  The [icon] fields (emoji) are presentation only and
    are read by none of the functions below. *)
Definition PLATFORMS : list (jsstring * PlatformConfig) := [
  ("github" : jsstring,
   {| name := "GitHub"; keywords := ["github" : jsstring; "gh" : jsstring];
      urlPattern := "https://github.com/{owner}/{repo}{path}";
      domain := "github.com"; color := "#24292e";
      singleName := false; allowAt := false |});
  ("gitlab" : jsstring,
   {| name := "GitLab"; keywords := ["gitlab" : jsstring; "gl" : jsstring];
      urlPattern := "https://gitlab.com/{owner}/{repo}{path}";
      domain := "gitlab.com"; color := "#fc6d26";
      singleName := false; allowAt := false |});
  ("bitbucket" : jsstring,
   {| name := "Bitbucket";
      keywords := ["bitbucket" : jsstring; "bb" : jsstring];
      urlPattern := "https://bitbucket.org/{owner}/{repo}{path}";
      domain := "bitbucket.org"; color := "#0052cc";
      singleName := false; allowAt := false |});
  ("gitee" : jsstring,
   {| name := "Gitee"; keywords := ["gitee" : jsstring; "ge" : jsstring];
      urlPattern := "https://gitee.com/{owner}/{repo}{path}";
      domain := "gitee.com"; color := "#c71d23";
      singleName := false; allowAt := false |});
  ("npm" : jsstring,
   {| name := "npm"; keywords := ["npm" : jsstring; "npmjs" : jsstring];
      urlPattern := "https://www.npmjs.com/package/{owner}{path}";
      domain := "npmjs.com"; color := "#cb3837";
      singleName := true; allowAt := true |});
  ("docker" : jsstring,
   {| name := "Docker Hub";
      keywords := ["docker" : jsstring; "dockerhub" : jsstring];
      urlPattern := "https://hub.docker.com/r/{owner}/{repo}{path}";
      domain := "hub.docker.com"; color := "#2496ed";
      singleName := false; allowAt := false |});
  ("pypi" : jsstring,
   {| name := "PyPI";
      keywords := ["pypi" : jsstring; "pip" : jsstring; "python" : jsstring];
      urlPattern := "https://pypi.org/project/{owner}{path}";
      domain := "pypi.org"; color := "#3775a9";
      singleName := true; allowAt := true |});
  ("rubygems" : jsstring,
   {| name := "RubyGems";
      keywords := ["gem" : jsstring; "rubygems" : jsstring; "ruby" : jsstring];
      urlPattern := "https://rubygems.org/gems/{owner}{path}";
      domain := "rubygems.org"; color := "#cc342d";
      singleName := true; allowAt := false |});
  ("packagist" : jsstring,
   {| name := "Packagist";
      keywords := ["packagist" : jsstring; "composer" : jsstring;
                   "php" : jsstring];
      urlPattern := "https://packagist.org/packages/{owner}/{repo}{path}";
      domain := "packagist.org"; color := "#f28d1a";
      singleName := false; allowAt := false |});
  ("crates" : jsstring,
   {| name := "crates.io";
      keywords := ["crates" : jsstring; "cargo" : jsstring; "rust" : jsstring];
      urlPattern := "https://crates.io/crates/{owner}{path}";
      domain := "crates.io"; color := "#f74b00";
      singleName := true; allowAt := false |});
  ("nuget" : jsstring,
   {| name := "NuGet";
      keywords := ["nuget" : jsstring; "dotnet" : jsstring;
                   "csharp" : jsstring];
      urlPattern := "https://www.nuget.org/packages/{owner}{path}";
      domain := "nuget.org"; color := "#004880";
      singleName := true; allowAt := false |});
  ("maven" : jsstring,
   {| name := "Maven Central";
      keywords := ["maven" : jsstring; "mvn" : jsstring; "java" : jsstring];
      urlPattern := "https://search.maven.org/artifact/{owner}/{repo}{path}";
      domain := "search.maven.org"; color := "#c71a36";
      singleName := false; allowAt := false |});
  ("zerocat" : jsstring,
   {| name := "ZeroCat"; keywords := ["zerocat" : jsstring; "zc" : jsstring];
      urlPattern := "https://zerocat.dev/{owner}/{repo}{path}";
      domain := "zerocat.dev"; color := "#ff6600";
      singleName := false; allowAt := false |})
].

(** *** The patterns *)

Definition alnum : atom :=
  Class [Range "a" "z"; Range "A" "Z"; Range "0" "9"].
Definition alnum_dash : atom :=
  Class [Range "a" "z"; Range "A" "Z"; Range "0" "9"; Single "-"].
Definition repo_char : atom :=
  Class [WordClass; Single "."; Single "-"].
Definition host_char : atom :=
  Class [Range "a" "z"; Range "A" "Z"; Range "0" "9"; Single "."; Single "-"].

(** [[a-zA-Z0-9](?:[a-zA-Z0-9-]{0,37}[a-zA-Z0-9])?] *)
Definition OWNER : regex :=
  (Atom alnum >+ Opt (Repeat 0 (Some 37) alnum_dash >+ Atom alnum))%re.

(** The optional path, group [i]: a slash, then [.] any number of times. *)
Definition PATH (i : nat) : regex :=
  Opt (Group i (chr "/" >+ Repeat 0 None Dot))%re.

(** [^(OWNER)\/([\w.-]{1,100})$] *)
Definition REPO_PATTERN : regex :=
  (Bol >+ Group 1 OWNER >+ chr "/" >+
   Group 2 (Repeat 1 (Some 100) repo_char) >+ Eol)%re.

(** [^(OWNER)\/([\w.-]+)PATH$] *)
Definition REPO_WITH_PATH_PATTERN : regex :=
  (Bol >+ Group 1 OWNER >+ chr "/" >+
   Group 2 (Repeat 1 None repo_char) >+ PATH 3 >+ Eol)%re.

(** [^(?:https?:\/\/)?(?:www\.)?([a-zA-Z0-9.-]+)\/(OWNER)\/([\w.-]+)PATH$] *)
Definition FULL_URL_PATTERN : regex :=
  (Bol >+
   Opt (lits "h" "ttp" >+ Repeat 0 (Some 1) (Lit "s") >+ lits ":" "//") >+
   Opt (lits "w" "ww.") >+
   Group 1 (Repeat 1 None host_char) >+ chr "/" >+
   Group 2 OWNER >+ chr "/" >+
   Group 3 (Repeat 1 None repo_char) >+ PATH 4 >+ Eol)%re.

(** *** Results *)

Record ResolvedTarget := {
  platform : jsstring;
  owner : jsstring;
  repo : jsstring;
  path : jsstring
}.

(** A call either returns or throws. *)
Inductive completion (A : Type) :=
| Return (a : A)
| Throw.
Arguments Return {A} a.
Arguments Throw {A}.

(** Element [i] of a match array, for a group that took part in the match;
    the groups before the path always did ([group_defined] below). *)
Definition group (m : captures) (i : nat) : jsstring :=
  default [] (capture m i).

(** [!s] for a string [s] *)
Definition isEmpty (s : jsstring) : bool :=
  match s with [] => true | _ :: _ => false end.

(** *** Lookups *)

(** [findPlatformByKeyword] *)
Definition findPlatformByKeyword (keyword : jsstring) : option jsstring :=
  let lowerKeyword := Js.toLowerCase keyword in
  fst <$> List.find
    (fun entry => Js.arrayIncludes (keywords (snd entry)) lowerKeyword)
    PLATFORMS.

(** The test of the loop of [findPlatformByDomain]. *)
Definition domain_matches (lowerDomain : jsstring) (config : PlatformConfig)
  : bool :=
  Js.includes lowerDomain (domain config)
  || Js.includes (domain config) lowerDomain.

(** [findPlatformByDomain] *)
Definition findPlatformByDomain (domain : jsstring) : option jsstring :=
  let lowerDomain := Js.toLowerCase domain in
  fst <$> List.find (fun entry => domain_matches lowerDomain (snd entry))
    PLATFORMS.

(** What [PLATFORMS[key]] evaluates to.  [PLATFORMS] is an object literal:
    a key that is not its own is looked up on [Object.prototype], whose
    properties are functions or objects, hence truthy, and have no
    [urlPattern]. *)
Inductive property :=
| Own (config : PlatformConfig)
| Inherited
| Undefined.

Definition Object_prototype : list jsstring := [
  "constructor" : jsstring; "hasOwnProperty" : jsstring;
  "isPrototypeOf" : jsstring; "propertyIsEnumerable" : jsstring;
  "toLocaleString" : jsstring; "toString" : jsstring; "valueOf" : jsstring;
  "__defineGetter__" : jsstring; "__defineSetter__" : jsstring;
  "__lookupGetter__" : jsstring; "__lookupSetter__" : jsstring;
  "__proto__" : jsstring ].

Definition registered (key : jsstring) : option PlatformConfig :=
  snd <$> List.find (fun entry => Js.eqb (fst entry) key) PLATFORMS.

Definition PLATFORMS_get (key : jsstring) : property :=
  match registered key with
  | Some config => Own config
  | None => if Js.arrayIncludes Object_prototype key then Inherited
            else Undefined
  end.

(** [buildRepoUrl]: [None] is [null].  Reading [urlPattern] of an inherited
    property gives [undefined], and calling [replace] on it throws. *)
Definition buildRepoUrl (platform owner repo path : jsstring)
  : completion (option jsstring) :=
  match PLATFORMS_get platform with
  | Undefined => Return None
  | Inherited => Throw
  | Own config =>
      Return (Some
        (Js.replace
           (Js.replace (Js.replace (urlPattern config) "{owner}" owner)
              "{repo}" repo)
           "{path}" (if isEmpty path then [] else path)))
  end.

(** *** The resolver

    [DEFAULT_PLATFORM] is the global of background.js, [None] where that
    global does not exist. *)
Section Resolver.

Variable DEFAULT_PLATFORM : option jsstring.

Definition defaultPlatform : jsstring :=
  default ("github" : jsstring) DEFAULT_PLATFORM.

(** Step 1 of [parseRepoInput]: the full URL, when its host is known. *)
Definition parseFullUrl (trimmed : jsstring) : option ResolvedTarget :=
  match exec 4 FULL_URL_PATTERN trimmed with
  | Some m =>
      match findPlatformByDomain (group m 1) with
      | Some platform =>
          Some {| platform := platform; owner := group m 2;
                  repo := group m 3; path := default [] (capture m 4) |}
      | None => None
      end
  | None => None
  end.

(** [parseRepoInput] on a string; [None] is [null]. *)
Definition parseRepoInput (input : jsstring) : option ResolvedTarget :=
  if isEmpty input then None else
  let trimmed := Js.trim input in
  if isEmpty trimmed then None else
  match parseFullUrl trimmed with
  | Some target => Some target
  | None =>
      match exec 3 REPO_WITH_PATH_PATTERN trimmed with
      | Some m =>
          Some {| platform := defaultPlatform; owner := group m 1;
                  repo := group m 2; path := default [] (capture m 3) |}
      | None =>
          match exec 2 REPO_PATTERN trimmed with
          | Some m =>
              Some {| platform := defaultPlatform; owner := group m 1;
                      repo := group m 2; path := [] |}
          | None => None
          end
      end
  end.

(** The platform and the clean query that [parseSearchQuery] derives from
    the trimmed query. *)
Definition detectPlatform (trimmed : jsstring) : jsstring * jsstring :=
  let parts := Js.split_ws trimmed in
  if 2 <=? length parts then
    let firstPlatform := findPlatformByKeyword (default [] (head parts)) in
    let lastPlatform := findPlatformByKeyword (default [] (last parts)) in
    match firstPlatform, lastPlatform with
    | Some p, _ => (p, Js.join " " (drop 1 parts))
    | None, Some p => (p, Js.join " " (Js.slice_init parts))
    | None, None => (defaultPlatform, trimmed)
    end
  else (defaultPlatform, trimmed).

(** [parseSearchQuery] on a string; [None] is [null]. *)
Definition parseSearchQuery (query : jsstring) : option ResolvedTarget :=
  if isEmpty query then None else
  let trimmed := Js.trim query in
  if isEmpty trimmed then None else
  let '(detectedPlatform, cleanQuery) := detectPlatform trimmed in
  match parseRepoInput cleanQuery with
  | Some result =>
      Some {| platform := detectedPlatform; owner := owner result;
              repo := repo result; path := path result |}
  | None => None
  end.

End Resolver.

End Platforms.

(** ** background.js *)

Module Background.
Import Platforms.

Local Open Scope Z_scope.

Definition DEFAULT_BYPASS_PATTERNS : list jsstring := [ "localhost" : jsstring ].

(** [getBypassPatterns]; [customBypassPatterns] is the stored setting. *)
Definition getBypassPatterns (customBypassPatterns : list jsstring)
  : list jsstring :=
  DEFAULT_BYPASS_PATTERNS ++ customBypassPatterns.

(** [shouldBypass] *)
Definition shouldBypass (url : jsstring) (bypassPatterns : list jsstring)
  : bool :=
  let urlLower := Js.toLowerCase url in
  existsb (fun pattern => Js.includes urlLower (Js.toLowerCase pattern))
    bypassPatterns.

(** *** The ledger of recent jumps

    [recentJumps] is the [Map] from keys to the time of the last jump, in
    milliseconds; [timers] are the pending [setTimeout] callbacks, each with
    its key and the time from which it may run. *)
Record ledger := {
  recentJumps : gmap jsstring Z;
  timers : list (jsstring * Z)
}.

Definition jumpKey (platform owner repo : jsstring) : jsstring :=
  platform ++ ":" ++ owner ++ "/" ++ repo.

(** [isRecentJump] when [Date.now()] is [now]: the answer and the ledger
    after the call.  A stored time of 0 is falsy, as in [!lastJump]. *)
Definition isRecentJump (now : Z) (platform owner repo : jsstring)
    (st : ledger) : bool * ledger :=
  let key := jumpKey platform owner repo in
  match recentJumps st !! key with
  | None => (false, st)
  | Some lastJump =>
      if lastJump =? 0 then (false, st)
      else
        let timeDiff := now - lastJump in
        if timeDiff <? 5000 then (true, st)
        else (false, {| recentJumps := delete key (recentJumps st);
                        timers := timers st |})
  end.

(** [recordJump] when [Date.now()] is [now]. *)
Definition recordJump (now : Z) (platform owner repo : jsstring)
    (st : ledger) : ledger :=
  let key := jumpKey platform owner repo in
  {| recentJumps := <[key := now]> (recentJumps st);
     timers := timers st ++ [(key, now + 10000)] |}.

(** The callback that [recordJump] hands to [setTimeout], run when
    [Date.now()] is [now]. *)
Definition purge (now : Z) (key : jsstring) (jumps : gmap jsstring Z)
  : gmap jsstring Z :=
  match jumps !! key with
  | Some timestamp =>
      if negb (timestamp =? 0) && (10000 <=? now - timestamp)
      then delete key jumps else jumps
  | None => jumps
  end.

(** What can happen to the ledger: the two calls, and a pending timer that
    runs (not before it is due; a timer that is not pending does nothing). *)
Inductive event :=
| IsRecent (platform owner repo : jsstring)
| Record_ (platform owner repo : jsstring)
| Timeout (key : jsstring) (due : Z).

Fixpoint remove_timer (t : jsstring * Z) (l : list (jsstring * Z))
  : list (jsstring * Z) :=
  match l with
  | [] => []
  | u :: l' => if bool_decide (u = t) then l' else u :: remove_timer t l'
  end.

Definition step (now : Z) (ev : event) (st : ledger) : ledger :=
  match ev with
  | IsRecent p o r => snd (isRecentJump now p o r st)
  | Record_ p o r => recordJump now p o r st
  | Timeout key due =>
      if bool_decide ((key, due) ∈ timers st) && (due <=? now)
      then {| recentJumps := purge now key (recentJumps st);
              timers := remove_timer (key, due) (timers st) |}
      else st
  end.

(** A run: the events, each with the time at which it happens. *)
Fixpoint run (evs : list (Z * event)) (st : ledger) : ledger :=
  match evs with
  | [] => st
  | (now, ev) :: evs' => run evs' (step now ev st)
  end.

Definition records (key : jsstring) (ev : event) : Prop :=
  match ev with
  | Record_ p o r => jumpKey p o r = key
  | _ => False
  end.

(** *** The listener for failed name lookups

    [details] is what the listener receives for a main-frame navigation
    that failed with [net::ERR_NAME_NOT_RESOLVED]: [url] is [details.url],
    [hostname] and [pathname] are those of [new URL(details.url)]. *)
Record details := {
  url : jsstring;
  hostname : jsstring;
  pathname : jsstring
}.

(** [s.replace(/^\//, '')] *)
Definition dropLeadingSlash (s : jsstring) : jsstring :=
  match s with
  | "/"%char :: s' => s'
  | _ => s
  end.

(** [s.replace(/\/$/, '')] *)
Definition dropTrailingSlash (s : jsstring) : jsstring :=
  rev (dropLeadingSlash (rev s)).

(** [openRepoUnified]: the URL that the tab is sent to, if any.  An
    exception of [buildRepoUrl] ends in the [catch] of the listener. *)
Definition openRepoUnified (target : ResolvedTarget) : option jsstring :=
  if isEmpty (platform target) || isEmpty (owner target) then None
  else match buildRepoUrl (platform target) (owner target) (repo target)
               (path target) with
       | Return (Some repoUrl) => if isEmpty repoUrl then None else Some repoUrl
       | Return None => None
       | Throw => None
       end.

(** The listener of [webNavigation.onErrorOccurred]: the URL it redirects
    to, if any, and the ledger afterwards.  [now] and [now'] are the two
    readings of the clock, in [isRecentJump] and in [recordJump]. *)
Definition onErrorOccurred (DEFAULT_PLATFORM : option jsstring)
    (featureDnsIntercept : bool) (customBypassPatterns : list jsstring)
    (now now' : Z) (d : details) (st : ledger) : option jsstring * ledger :=
  if negb featureDnsIntercept then (None, st) else
  match findPlatformByDomain (hostname d) with
  | Some _ => (None, st)
  | None =>
      if shouldBypass (url d) (getBypassPatterns customBypassPatterns)
      then (None, st)
      else
        let fullPath :=
          dropTrailingSlash (dropLeadingSlash (hostname d ++ pathname d)) in
        match parseRepoInput DEFAULT_PLATFORM fullPath with
        | None => (None, st)
        | Some parsed =>
            let '(recent, st1) :=
              isRecentJump now (platform parsed) (owner parsed) (repo parsed)
                st in
            if recent then (None, st1)
            else
              (openRepoUnified parsed,
               recordJump now' (platform parsed) (owner parsed) (repo parsed)
                 st1)
        end
  end.

End Background.

(** * What is proved of the program

    The notions in which the properties are stated: occurrence of one
    string in another, a declarative reading of the patterns, the syntax of
    the fields of a target, and what is left of a record in the ledger. *)

Module Spec.
Import Js Regex Platforms Background.

(** [p] occurs in [s]. *)
Definition occurs_in (p s : jsstring) : Prop :=
  exists pre post, s = pre ++ p ++ post.

(** [p] occurs in [s] up to case: some part of [s] equals [p] once both are
    put in lower case. *)
Definition occurs_in_nocase (p s : jsstring) : Prop :=
  exists u, occurs_in u s /\ toLowerCase u = toLowerCase p.

Definition within (hi : option nat) (n : nat) : Prop :=
  match hi with
  | Some h => n <= h
  | None => True
  end.

(** [sem r pos w rest cs cs']: at position [pos], with [rest] after it, the
    word [w] is one way for [r] to match, turning the captures [cs] into
    [cs']. *)
Fixpoint sem (r : regex) (pos : nat) (w rest : jsstring) (cs cs' : captures)
  : Prop :=
  match r with
  | Atom a => (exists c, w = [c] /\ atom_ok a c = true) /\ cs' = cs
  | Seq r1 r2 =>
      exists w1 w2 cs1, w = w1 ++ w2 /\
        sem r1 pos w1 (w2 ++ rest) cs cs1 /\
        sem r2 (pos + length w1) w2 rest cs1 cs'
  | Group i r1 =>
      exists cs1, sem r1 pos w rest cs cs1 /\ cs' = <[i := Some w]> cs1
  | Opt r1 =>
      (w = [] /\ cs' = cs) \/ (w <> [] /\ sem r1 pos w rest cs cs')
  | Repeat lo hi a =>
      (Forall (fun c => atom_ok a c = true) w /\
       lo <= length w /\ within hi (length w)) /\ cs' = cs
  | Bol => pos = 0 /\ w = [] /\ cs' = cs
  | Eol => rest = [] /\ w = [] /\ cs' = cs
  end.

Definition is_alnum (c : ascii) : Prop := atom_ok alnum c = true.
Definition is_alnum_dash (c : ascii) : Prop := atom_ok alnum_dash c = true.
Definition is_repo_char (c : ascii) : Prop := atom_ok repo_char c = true.
Definition is_host_char (c : ascii) : Prop := atom_ok host_char c = true.
Definition is_dot_char (c : ascii) : Prop := atom_ok Dot c = true.

(** The words of [OWNER]. *)
Definition owner_word (o : jsstring) : Prop :=
  (exists c, o = [c] /\ is_alnum c) \/
  (exists c mid d, o = c :: mid ++ [d] /\ is_alnum c /\
     Forall is_alnum_dash mid /\ length mid <= 37 /\ is_alnum d).

(** The words of [[\w.-]+]. *)
Definition repo_word (r : jsstring) : Prop :=
  1 <= length r /\ Forall is_repo_char r.

(** The optional path: absent, or a slash followed by anything on the line. *)
Definition path_capture (p : option jsstring) : Prop :=
  match p with
  | None => True
  | Some w => exists q, w = "/"%char :: q /\ Forall is_dot_char q
  end.

Definition slashes (s : jsstring) : nat := count_occ ascii_dec s "/"%char.

(** *** The syntax of the fields of a target *)

Definition alphanumeric (c : ascii) : bool :=
  in_range "a" "z" c || in_range "A" "Z" c || in_range "0" "9" c.

(** One to 39 alphanumerics and hyphens, no hyphen first or last. *)
Definition owner_syntax (o : jsstring) : Prop :=
  1 <= length o <= 39 /\
  Forall (fun c => alphanumeric c = true \/ c = "-"%char) o /\
  head o <> Some "-"%char /\ last o <> Some "-"%char.

(** The characters of a repository name, at least one of them. *)
Definition repo_syntax (r : jsstring) : Prop :=
  1 <= length r /\
  Forall (fun c => alphanumeric c = true \/
                   c = "."%char \/ c = "-"%char \/ c = "_"%char) r.

(** A path is empty or begins with a slash. *)
Definition path_syntax (p : jsstring) : Prop :=
  p = [] \/ head p = Some "/"%char.

(** The test of [findPlatformByDomain]: either string occurs in the other,
    up to the case of the candidate. *)
Definition mutual_substring (s : jsstring) (config : PlatformConfig) : Prop :=
  occurs_in_nocase (domain config) s \/ occurs_in_nocase s (domain config).

(** What an event leaves of the record of [key] made at [T]. *)
Definition kept (key : jsstring) (T : Z) (st : ledger) : Prop :=
  recentJumps st !! key = Some T.

Definition kept_or_gone (key : jsstring) (T : Z) (st : ledger) : Prop :=
  recentJumps st !! key = Some T \/ recentJumps st !! key = None.

(** The default platform of the scenarios. *)
Definition github : option jsstring := Some ("github" : jsstring).

End Spec.

(** * The handlers of the extension

    The rest of [background.js] (the dispatcher [openRepoUnified], the
    listeners for searches, for requests and for the address bar, the
    messages and the default platform), the list of rules of the options
    page and the content scripts that show the hints. *)

(** ** background.js: the dispatcher and the other listeners *)

Module Handlers.
Import Js Regex Platforms Background.

(** What a handler asks of the browser. *)
Inductive effect :=
| TabsUpdate (tabId : option Z) (url : jsstring)
    (* chrome.tabs.update(tabId, {url}); without [tabId]: the active tab *)
| TabsCreate (url : jsstring) (active : bool)
    (* chrome.tabs.create({url, active}) *)
| StoreRepoSource (tabId : Z) (url platformName : jsstring) (timestamp : Z)
    (* storage.local.set of repo_source_<tabId> *)
| StoreSearchJump (tabId : Z) (target : ResolvedTarget) (timestamp : Z).
    (* storage.local.set of search_jump_<tabId> *)

(** Truthiness of an optional string and of an optional number, and strict
    equality of an optional string with a literal. *)
Definition truthyString (s : option jsstring) : bool :=
  match s with
  | Some (_ :: _) => true
  | _ => false
  end.

Definition truthyNumber (n : option Z) : bool :=
  match n with
  | Some n => negb (n =? 0)%Z
  | None => false
  end.

Definition equals (s : option jsstring) (literal : jsstring) : bool :=
  match s with
  | Some x => eqb x literal
  | None => false
  end.

(** The argument of [openRepoUnified]; [None] is a field that is absent. *)
Record params := {
  target : ResolvedTarget;
  tabId : option Z;
  sourceUrl : option jsstring;
  disposition : option jsstring;
  searchRedirectMode : option jsstring
}.

(** [openRepoUnified] when [Date.now()] is [now]: what it returns ([None] is
    [null]) and what it asks of the browser, in order. *)
Definition openRepoUnified_full (now : Z) (p : params)
  : completion (option jsstring * list effect) :=
  let t := target p in
  if isEmpty (platform t) || isEmpty (owner t) then Return (None, [])
  else
    match buildRepoUrl (platform t) (owner t) (repo t) (path t) with
    | Throw => Throw
    | Return None => Return (None, [])
    | Return (Some repoUrl) =>
        if isEmpty repoUrl then Return (None, [])
        else
          match PLATFORMS_get (platform t) with
          | Own platformInfo =>
              let finalDisposition :=
                if truthyString (disposition p) then disposition p
                else if equals (searchRedirectMode p) "newTab"
                     then Some ("newForegroundTab" : jsstring)
                     else Some ("currentTab" : jsstring) in
              if equals finalDisposition "currentTab" && truthyNumber (tabId p)
              then
                Return (Some repoUrl,
                  (if truthyString (sourceUrl p)
                      && equals (searchRedirectMode p) "autoJump"
                   then [StoreRepoSource (default 0%Z (tabId p))
                           (default [] (sourceUrl p)) (name platformInfo) now]
                   else [])
                  ++ [TabsUpdate (tabId p) repoUrl])
              else if equals finalDisposition "newBackgroundTab"
              then Return (Some repoUrl, [TabsCreate repoUrl false])
              else Return (Some repoUrl, [TabsCreate repoUrl true])
          | Inherited | Undefined => Throw
              (* not reached: [buildRepoUrl] has returned a URL *)
          end
    end.

(** *** The listener for searches

    [location] is what [new URL(details.url)] gives: the host name and the
    query parameters in order, each with its value. *)
Record location := {
  loc_hostname : jsstring;
  loc_searchParams : list (jsstring * jsstring)
}.

(** A navigation; [nav_location] is [None] when [new URL] throws. *)
Record navigation := {
  nav_url : jsstring;
  nav_frameId : Z;
  nav_tabId : Z;
  nav_location : option location
}.

(** [searchParams.get(name)]: the value of the first parameter of that
    name. *)
Definition searchParams_get (ps : list (jsstring * jsstring)) (name : jsstring)
  : option jsstring :=
  snd <$> List.find (fun e => eqb (fst e) name) ps.

(** [searchParams.has(name)] *)
Definition searchParams_has (ps : list (jsstring * jsstring)) (name : jsstring)
  : bool :=
  existsb (fun e => eqb (fst e) name) ps.

(** The parameter names of [extractSearchQuery], in its order. *)
Definition searchParams : list jsstring := [
  "q" : jsstring; "query" : jsstring; "search" : jsstring; "wd" : jsstring;
  "word" : jsstring; "text" : jsstring; "s" : jsstring;
  "search_query" : jsstring; "k" : jsstring; "keywords" : jsstring;
  "qt" : jsstring; "p" : jsstring ].

(** The loop of [extractSearchQuery] over the names that are left. *)
Fixpoint first_query (ps : list (jsstring * jsstring)) (names : list jsstring)
  : option jsstring :=
  match names with
  | [] => None
  | param :: names' =>
      match searchParams_get ps param with
      | Some value =>
          if negb (isEmpty value) && negb (isEmpty (trim value))
          then Some value
          else first_query ps names'
      | None => first_query ps names'
      end
  end.

(** [extractSearchQuery]; [None] is [null]. *)
Definition extractSearchQuery (loc : option location) : option jsstring :=
  match loc with
  | Some urlObj => first_query (loc_searchParams urlObj) searchParams
  | None => None
  end.

Definition excludePatterns : list jsstring := [
  "github.com" : jsstring; "gitlab.com" : jsstring; "bitbucket.org" : jsstring;
  "gitee.com" : jsstring; "localhost" : jsstring; "127.0.0.1" : jsstring;
  "192.168." : jsstring; "10.0." : jsstring; "172.16." : jsstring ].

(** The parameter names of [isPossibleSearchEngine]. *)
Definition searchParams' : list jsstring := [
  "q" : jsstring; "query" : jsstring; "search" : jsstring; "wd" : jsstring;
  "word" : jsstring; "text" : jsstring; "s" : jsstring;
  "search_query" : jsstring; "k" : jsstring; "keywords" : jsstring;
  "qt" : jsstring; "p" : jsstring ].

(** [isPossibleSearchEngine] *)
Definition isPossibleSearchEngine (loc : option location) : bool :=
  match loc with
  | Some urlObj =>
      if existsb (fun pattern => includes (loc_hostname urlObj) pattern)
           excludePatterns
      then false
      else existsb (fun param => searchParams_has (loc_searchParams urlObj) param)
             searchParams'
  | None => false
  end.

(** The listener of [webNavigation.onBeforeNavigate]: what it asks of the
    browser and the ledger afterwards.  [now] is the clock in
    [isRecentJump], [now'] the clock when the jump is stored or recorded,
    [now''] the clock in [openRepoUnified]. *)
Definition onBeforeNavigate (DEFAULT_PLATFORM : option jsstring)
    (featureSearchRedirect : bool) (mode : jsstring) (now now' now'' : Z)
    (nav : navigation) (st : ledger) : list effect * ledger :=
  if negb (nav_frameId nav =? 0)%Z then ([], st) else
  if negb featureSearchRedirect then ([], st) else
  if negb (isPossibleSearchEngine (nav_location nav)) then ([], st) else
  match extractSearchQuery (nav_location nav) with
  | None => ([], st)
  | Some searchQuery =>
      if isEmpty searchQuery then ([], st) else
      match parseSearchQuery DEFAULT_PLATFORM searchQuery with
      | None => ([], st)
      | Some parsed =>
          let '(recent, st1) :=
            isRecentJump now (platform parsed) (owner parsed) (repo parsed)
              st in
          if recent then ([], st1)
          else if eqb mode "tabJump"
          then ([StoreSearchJump (nav_tabId nav) parsed now'], st1)
          else
            let st2 :=
              recordJump now' (platform parsed) (owner parsed) (repo parsed)
                st1 in
            match openRepoUnified_full now''
                    {| target := parsed; tabId := Some (nav_tabId nav);
                       sourceUrl := Some (nav_url nav); disposition := None;
                       searchRedirectMode := Some mode |} with
            | Return (_, effects) => (effects, st2)
            | Throw => ([], st2)      (* the catch of the listener *)
            end
      end
  end.

(** The [executeSearchJump] message of the hint on the search page. *)
Definition executeSearchJump (now now' : Z) (data : ResolvedTarget)
    (senderTabId : option Z) (st : ledger) : list effect * ledger :=
  let st1 := recordJump now (platform data) (owner data) (repo data) st in
  match openRepoUnified_full now'
          {| target := data; tabId := senderTabId; sourceUrl := None;
             disposition := None; searchRedirectMode := None |} with
  | Return (_, effects) => (effects, st1)
  | Throw => ([], st1)
  end.

(** *** The default platform

    [loadDefaultPlatform] and the listener of [storage.onChanged] assign the
    stored value when [PLATFORMS[value]] is truthy. *)
Definition updateDefaultPlatform (DEFAULT_PLATFORM value : jsstring)
  : jsstring :=
  match PLATFORMS_get value with
  | Undefined => DEFAULT_PLATFORM
  | Own _ | Inherited => value
  end.

End Handlers.

(** ** background.js: the address-bar keyword *)

Module Omnibox.
Import Js Regex Platforms Background Handlers.

(** [openUrl] *)
Definition openUrl (url disposition : jsstring) : effect :=
  if eqb disposition "currentTab" then TabsUpdate None url
  else if eqb disposition "newForegroundTab" then TabsCreate url true
  else TabsCreate url false.

(** [cfg.domain] and [cfg.singleName] for [cfg = PLATFORMS[key]]: the
    fields of a platform, [undefined] on an inherited property, an exception
    on [undefined]. *)
Definition domain_of (cfg : property) : completion jsstring :=
  match cfg with
  | Own config => Return (domain config)
  | Inherited => Return ("undefined" : jsstring)
  | Undefined => Throw
  end.

Definition singleName_of (cfg : property) : completion bool :=
  match cfg with
  | Own config => Return (singleName config)
  | Inherited => Return false
  | Undefined => Throw
  end.

(** The comparison of the [sort] call: the default platform first. *)
Definition defaultFirst (DEFAULT_PLATFORM aKey bKey : jsstring) : Z :=
  if eqb aKey DEFAULT_PLATFORM then (-1)%Z
  else if eqb bKey DEFAULT_PLATFORM then 1%Z
  else 0%Z.

(** [Array.prototype.sort], which is stable: each element in turn moves to
    the left past the elements that compare greater. *)
Fixpoint insert_sorted {A} (cmp : A -> A -> Z) (x : A) (sorted_rev : list A)
  : list A :=
  match sorted_rev with
  | [] => [x]
  | y :: rest =>
      if (0 <? cmp y x)%Z then y :: insert_sorted cmp x rest
      else x :: sorted_rev
  end.

Definition sort {A} (cmp : A -> A -> Z) (l : list A) : list A :=
  rev (fold_left (fun sorted_rev x => insert_sorted cmp x sorted_rev) l []).

(** The platforms one of whose keywords begins with [lower]. *)
Definition matchedPlatforms (lower : jsstring)
  : list (jsstring * PlatformConfig) :=
  List.filter
    (fun entry => existsb (fun kw => startsWith kw lower) (keywords (snd entry)))
    PLATFORMS.

(** The last step of [onInputEntered]: build the URL and open it. *)
Definition openRepo (platform owner repo path disposition : jsstring)
  : completion (list effect) :=
  match buildRepoUrl platform owner repo path with
  | Throw => Throw
  | Return None => Return []
  | Return (Some repoUrl) =>
      if isEmpty repoUrl then Return []
      else Return [openUrl repoUrl disposition]
  end.

(** [https://${cfg.domain}/${rest}] opened, for [cfg = PLATFORMS[key]]. *)
Definition openOnDomain (key rest disposition : jsstring)
  : completion (list effect) :=
  match domain_of (PLATFORMS_get key) with
  | Throw => Throw
  | Return d =>
      Return [openUrl (("https://" : jsstring) ++ d ++ "/"%char :: rest)
                disposition]
  end.

(** Steps 3 to 5 of [onInputEntered]: a keyword first or last, then a
    package name, a repository or a user page. *)
Definition openByKeyword (DEFAULT_PLATFORM trimmedText disposition : jsstring)
  : completion (list effect) :=
  let parts := split_ws trimmedText in
  let '(platform, inputName) :=
    if 2 <=? length parts then
      match findPlatformByKeyword (default [] (head parts)),
            findPlatformByKeyword (default [] (last parts)) with
      | Some p, _ => (p, join " " (drop 1 parts))
      | None, Some p => (p, join " " (slice_init parts))
      | None, None => (DEFAULT_PLATFORM, trimmedText)
      end
    else (DEFAULT_PLATFORM, trimmedText) in
  match singleName_of (PLATFORMS_get platform) with
  | Throw => Throw
  | Return true => openRepo platform inputName [] [] disposition
  | Return false =>
      if includes inputName "/" then
        let m :=
          match exec 3 REPO_WITH_PATH_PATTERN inputName with
          | Some m => Some m
          | None => exec 2 REPO_PATTERN inputName
          end in
        match m with
        | Some m =>
            openRepo platform (group m 1) (group m 2)
              (default [] (capture m 3)) disposition
        | None => openRepo platform [] [] [] disposition
        end
      else openOnDomain platform inputName disposition
  end.

(** The listener of [omnibox.onInputEntered]. *)
Definition onInputEntered (DEFAULT_PLATFORM : jsstring) (featureOmnibox : bool)
    (text disposition : jsstring) : completion (list effect) :=
  if negb featureOmnibox then Return [] else
  let trimmedText := trim text in
  if isEmpty trimmedText then Return [] else
  match exec 4 FULL_URL_PATTERN trimmedText with
  | Some urlMatch =>
      match findPlatformByDomain (group urlMatch 1) with
      | Some detectedPlatform =>
          openRepo detectedPlatform (group urlMatch 2) (group urlMatch 3)
            (default [] (capture urlMatch 4)) disposition
      | None => openRepo DEFAULT_PLATFORM [] [] [] disposition
      end
  | None =>
      let hasSlash := includes trimmedText "/" in
      let hasSpace := existsb isWhiteSpace trimmedText in
      if negb hasSlash && negb hasSpace then
        let lower := toLowerCase trimmedText in
        match sort (fun a b => defaultFirst DEFAULT_PLATFORM (fst a) (fst b))
                (matchedPlatforms lower) with
        | (firstKey, firstCfg) :: _ =>
            Return [openUrl (("https://" : jsstring) ++ domain firstCfg
                               ++ ["/"%char]) disposition]
        | [] => openOnDomain DEFAULT_PLATFORM trimmedText disposition
        end
      else openByKeyword DEFAULT_PLATFORM trimmedText disposition
  end.

End Omnibox.

(** ** options.js: the list of custom bypass rules *)

Module Options.
Import Js Platforms Background.

Definition AVAILABLE_DEFAULT_PLATFORMS : list jsstring := [
  "github" : jsstring; "gitlab" : jsstring; "bitbucket" : jsstring;
  "gitee" : jsstring ].

(** The value that [loadDefaultPlatform] of the options page selects for the
    stored [defaultPlatform]. *)
Definition selectedDefaultPlatform (value : jsstring) : jsstring :=
  if arrayIncludes AVAILABLE_DEFAULT_PLATFORMS value then value
  else "github".

(** What [addPattern] tells the user. *)
Inductive notice :=
| EnterPatternError      (* nothing but white space was entered *)
| AlreadyExists          (* the rule is in the list *)
| AddedRule.

(** [addPattern] on the text of the input field and the stored list: the
    list that is stored afterwards and the message shown. *)
Definition addPattern (inputValue : jsstring) (patterns : list jsstring)
  : list jsstring * notice :=
  let pattern := trim inputValue in
  if isEmpty pattern then (patterns, EnterPatternError)
  else if arrayIncludes patterns pattern then (patterns, AlreadyExists)
  else (patterns ++ [pattern], AddedRule).

(** [deletePattern]: [patterns.splice(index, 1)] on the stored list, for the
    index of a button of the page. *)
Definition deletePattern (index : nat) (patterns : list jsstring)
  : list jsstring :=
  delete index patterns.

(** What the user does on the page. *)
Inductive action :=
| Add (inputValue : jsstring)
| Delete (index : nat).

Definition perform (patterns : list jsstring) (a : action) : list jsstring :=
  match a with
  | Add inputValue => fst (addPattern inputValue patterns)
  | Delete index => deletePattern index patterns
  end.

End Options.

(** ** The content scripts: the hints on the pages

    [storage.local] holds, for a tab, the search that a jump came from
    under [repo_source_<tab>] and the target that waits for the Tab key
    under [search_jump_<tab>]. *)

Module Content.
Import Js Platforms Background Handlers.

Local Open Scope Z_scope.

Record storage := {
  repo_source : gmap Z (jsstring * jsstring * Z);
  search_jump : gmap Z (ResolvedTarget * Z)
}.

(** What a request of the background page does to [storage.local]. *)
Definition store (s : storage) (e : effect) : storage :=
  match e with
  | StoreRepoSource tabId url platformName timestamp =>
      {| repo_source := <[tabId := (url, platformName, timestamp)]> (repo_source s);
         search_jump := search_jump s |}
  | StoreSearchJump tabId target timestamp =>
      {| repo_source := repo_source s;
         search_jump := <[tabId := (target, timestamp)]> (search_jump s) |}
  | TabsUpdate _ _ | TabsCreate _ _ => s
  end.

Definition remove_repo_source (tabId : Z) (s : storage) : storage :=
  {| repo_source := delete tabId (repo_source s);
     search_jump := search_jump s |}.

Definition remove_search_jump (tabId : Z) (s : storage) : storage :=
  {| repo_source := repo_source s;
     search_jump := delete tabId (search_jump s) |}.

(** The script of the repository pages, when [Date.now()] is [now]: the
    URL and the platform of the hint that it shows, if any, and the storage
    afterwards.  [tabId] is the answer to [getTabId]. *)
Definition backToSearch (searchRedirectMode : jsstring) (tabId : option Z)
    (now : Z) (s : storage) : option (jsstring * jsstring) * storage :=
  if negb (eqb searchRedirectMode "autoJump") then (None, s) else
  match tabId with
  | Some tab =>
      if negb (truthyNumber tabId) then (None, s) else
      match repo_source s !! tab with
      | None => (None, s)
      | Some (url, platform, timestamp) =>
          let timeDiff := now - timestamp in
          if 5000 <? timeDiff then (None, remove_repo_source tab s)
          else (Some (url, platform), remove_repo_source tab s)
      end
  | None => (None, s)
  end.

(** The script of the search pages, when [Date.now()] is [now]: the target
    of the hint that it shows, if any, and the storage afterwards.  With
    the hint the script begins to listen for the Tab key. *)
Definition tabJumpHint (tabId : option Z) (now : Z) (s : storage)
  : option ResolvedTarget * storage :=
  match tabId with
  | Some tab =>
      if negb (truthyNumber tabId) then (None, s) else
      match search_jump s !! tab with
      | None => (None, s)
      | Some (jumpData, timestamp) =>
          let timeDiff := now - timestamp in
          if 3000 <? timeDiff then (None, remove_search_jump tab s)
          else (Some jumpData, s)
      end
  | None => (None, s)
  end.

(** The Tab key on a search page that shows the hint, outside an input
    field: the data of the [executeSearchJump] message that is sent, if
    any, and the storage afterwards. *)
Definition onTabKey (tab : Z) (s : storage)
  : option ResolvedTarget * storage :=
  match search_jump s !! tab with
  | Some (currentJumpData, _) =>
      (Some currentJumpData, remove_search_jump tab s)
  | None => (None, s)
  end.

End Content.

(** ** background.js: the listener of [webRequest.onBeforeRequest] *)

Module WebRequest.
Import Js Regex Platforms Background.

(** The listener: the [redirectUrl] that it returns, if any.  [type] is
    [details.type]; the [details] are as for the listener for failed
    lookups. *)
Definition onBeforeRequest (type : jsstring) (customBypassPatterns : list jsstring)
    (d : details) : option jsstring :=
  if negb (eqb type "main_frame") then None else
  if eqb (hostname d) "github.com" || eqb (hostname d) "www.github.com"
  then None else
  if shouldBypass (url d) (getBypassPatterns customBypassPatterns) then None
  else
    let fullPath :=
      dropTrailingSlash (dropLeadingSlash (hostname d ++ pathname d)) in
    match exec 2 REPO_PATTERN fullPath with
    | Some repoMatch =>
        let owner := group repoMatch 1 in
        let repo := group repoMatch 2 in
        Some (("https://github.com/" : jsstring) ++ owner ++ "/"%char :: repo)
    | None => None
    end.

End WebRequest.

(** ** The notions of the further properties *)

Module MoreSpec.
Import Js Regex Platforms Background Spec.

(** The part of a URL template before its first placeholder. *)
Fixpoint before_brace (s : jsstring) : jsstring :=
  match s with
  | [] => []
  | c :: s' => if bool_decide (c = "{"%char) then [] else c :: before_brace s'
  end.

Definition url_prefix (config : PlatformConfig) : jsstring :=
  before_brace (urlPattern config).

(** A field that [replace] copies as it is and that cannot be taken for a
    placeholder: no dollar sign, no opening brace. *)
Definition plain (s : jsstring) : Prop :=
  ("$"%char ∉ s) /\ ("{"%char ∉ s).

(** The URL of a target when its fields are copied into the template. *)
Definition target_url (config : PlatformConfig) (owner repo path : jsstring)
  : jsstring :=
  url_prefix config ++ owner
    ++ (if singleName config then [] else "/"%char :: repo) ++ path.

(** Neither end of [s] is white space. *)
Definition trimmed (s : jsstring) : Prop :=
  (forall c, head s = Some c -> isWhiteSpace c = false) /\
  (forall c, last s = Some c -> isWhiteSpace c = false).

(** A word: not empty, no white space.  A separator: white space only, not
    empty. *)
Definition word (s : jsstring) : Prop :=
  s <> [] /\ Forall (fun c => isWhiteSpace c = false) s.

Definition separator (s : jsstring) : Prop :=
  s <> [] /\ Forall (fun c => isWhiteSpace c = true) s.

(** The target [t] moved to the platform [p]. *)
Definition on_platform (p : jsstring) (t : ResolvedTarget) : ResolvedTarget :=
  {| platform := p; owner := owner t; repo := repo t; path := path t |}.

(** The default platform is absent or a key of the table. *)
Definition default_registered (d : option jsstring) : Prop :=
  match d with
  | None => True
  | Some key => exists config, (key, config) ∈ PLATFORMS
  end.

(** The template of a hosting platform: the domain, then owner, repository
    and path. *)
Definition hosting_template (config : PlatformConfig) : Prop :=
  urlPattern config
  = ("https://" : jsstring) ++ domain config ++ ("/{owner}/{repo}{path}" : jsstring).

End MoreSpec.

(** ** The notions of the properties of the handlers *)

Module HandlerSpec.
Import Js Platforms Background Handlers Omnibox Options.

(** A request to show [url] in some tab. *)
Definition navigation_to (url : jsstring) (e : effect) : Prop :=
  (exists tab, e = TabsUpdate tab url) \/ (exists active, e = TabsCreate url active).

Definition is_navigation (e : effect) : bool :=
  match e with
  | TabsUpdate _ _ | TabsCreate _ _ => true
  | StoreRepoSource _ _ _ _ | StoreSearchJump _ _ _ => false
  end.

(** The requests to show a page among the effects of a handler. *)
Definition navigations (effects : list effect) : list effect :=
  List.filter is_navigation effects.

(** A value of a query parameter that [extractSearchQuery] passes over. *)
Definition blank (value : jsstring) : Prop := trim value = [].

(** [searchParams.get(name)] is [value]: the first parameter of that name
    has this value. *)
Definition first_value (ps : list (jsstring * jsstring)) (name value : jsstring)
  : Prop :=
  exists before after, ps = before ++ (name, value) :: after /\
    Forall (fun e => fst e <> name) before.

(** The host name holds one of the excluded patterns. *)
Definition excluded_host (hostname : jsstring) : Prop :=
  exists pattern, pattern ∈ excludePatterns /\ Spec.occurs_in pattern hostname.

(** The key of the ledger for a target. *)
Definition guard_key (t : ResolvedTarget) : jsstring :=
  jumpKey (platform t) (owner t) (repo t).

(** The target that the listener for searches resolves a navigation to. *)
Definition search_target (d : option jsstring) (nav : navigation)
    (t : ResolvedTarget) : Prop :=
  exists query, extractSearchQuery (nav_location nav) = Some query /\
    parseSearchQuery d query = Some t.

(** The target that the listener for failed lookups resolves an address
    to. *)
Definition dns_target (d : option jsstring) (a : details) (t : ResolvedTarget)
  : Prop :=
  parseRepoInput d
    (dropTrailingSlash (dropLeadingSlash (hostname a ++ pathname a))) = Some t.

(** No event of the run is later than [t] or records [key] anew. *)
Definition undisturbed (key : jsstring) (t : Z) (evs : list (Z * event))
  : Prop :=
  Forall (fun e => (fst e <= t)%Z /\ ~ records key (snd e)) evs.

(** At time [t] neither listener acts on [target], whatever the navigation
    or the failed address that resolves to it, and the ledger stays as it
    is. *)
Definition quiet_for (d : option jsstring) (target : ResolvedTarget) (t : Z)
    (st : ledger) : Prop :=
  (forall feature mode t' t'' nav,
     search_target d nav target ->
     onBeforeNavigate d feature mode t t' t'' nav st = ([], st)) /\
  (forall feature custom t' a,
     dns_target d a target ->
     onErrorOccurred d feature custom t t' a st = (None, st)).

(** The timer that [recordJump] sets at [T] for [key] is pending, or the
    record of [key] is gone. *)
Definition purge_pending (key : jsstring) (T : Z) (st : ledger) : Prop :=
  recentJumps st !! key = None \/
  (recentJumps st !! key = Some T /\ (key, (T + 10000)%Z) ∈ timers st).

(** The home page of a platform. *)
Definition home (config : PlatformConfig) : jsstring :=
  ("https://" : jsstring) ++ domain config ++ ["/"%char].

(** The page of a user or an organisation on a platform. *)
Definition user_page (config : PlatformConfig) (name : jsstring) : jsstring :=
  ("https://" : jsstring) ++ domain config ++ "/"%char :: name.

(** A keyword of the platform begins with [lower]. *)
Definition keyword_prefix (lower : jsstring) (config : PlatformConfig) : Prop :=
  exists kw rest, kw ∈ keywords config /\ kw = lower ++ rest.

(** [(key, config)] is the first entry of the table a keyword of which
    begins with [lower]. *)
Definition first_match (lower key : jsstring) (config : PlatformConfig)
  : Prop :=
  exists before after, PLATFORMS = before ++ (key, config) :: after /\
    keyword_prefix lower config /\
    Forall (fun e => ~ keyword_prefix lower (snd e)) before.

(** The entry is the one of the default platform. *)
Definition is_default (D : jsstring) (e : jsstring * PlatformConfig) : bool :=
  eqb (fst e) D.

(** The result, if there is one, is at most one page, opened the way
    [disposition] says. *)
Definition one_page (disposition : jsstring) (r : completion (list effect))
  : Prop :=
  forall effects, r = Return effects ->
    effects = [] \/ exists url, effects = [openUrl url disposition].

(** [PLATFORMS[key]] is truthy. *)
Definition truthy (p : property) : bool :=
  match p with
  | Own _ | Inherited => true
  | Undefined => false
  end.

(** A stored rule is what [trim] leaves of an input, and not empty. *)
Definition well_formed_rule (pattern : jsstring) : Prop :=
  pattern <> [] /\ MoreSpec.trimmed pattern.

End HandlerSpec.

(** ** The values of the examples *)

Module Examples.
Import Js Platforms Background Handlers Content.

Definition no_platform : PlatformConfig :=
  {| name := []; keywords := []; urlPattern := []; domain := []; color := [];
     singleName := false; allowAt := false |}.

(** The entry of the table for a key of the table. *)
Definition config_of (key : jsstring) : PlatformConfig :=
  default no_platform (registered key).

(** A search for a repository in tab 7. *)
Definition search_vscode : navigation :=
  {| nav_url := "https://www.bing.com/search?q=microsoft/vscode";
     nav_frameId := 0; nav_tabId := 7;
     nav_location :=
       Some {| loc_hostname := "www.bing.com";
               loc_searchParams :=
                 [("q" : jsstring, "microsoft/vscode" : jsstring)] |} |}.


Definition vscode : ResolvedTarget :=
  {| platform := "github"; owner := "microsoft"; repo := "vscode"; path := [] |}.

(** An address that no name server knows. *)
Definition failed_lookup : details :=
  {| url := "http://microsoft/vscode"; hostname := "microsoft";
     pathname := "/vscode" |}.

Definition no_jumps : ledger := {| recentJumps := ∅; timers := [] |}.

(** The search redirected in the autoJump mode, and the same search met in
    the tabJump mode. *)
Definition redirected : list effect * ledger :=
  onBeforeNavigate (Some ("github" : jsstring)) true "autoJump" 1000 1001 1002
    search_vscode no_jumps.

Definition held_for_tab : list effect * ledger :=
  onBeforeNavigate (Some ("github" : jsstring)) true "tabJump" 1000 1001 1002
    search_vscode no_jumps.

(** The failed lookup redirected. *)
Definition lookup_redirected : option jsstring * ledger :=
  onErrorOccurred (Some ("github" : jsstring)) true [] 1000 1001 failed_lookup
    no_jumps.

End Examples.

(** * Properties *)

(** ** Strings *)

Module JsFacts.
Import Js Spec.

Lemma startsWith_spec (s p : jsstring) :
  startsWith s p = true <-> exists post, s = p ++ post.
Proof.
  revert s. induction p as [|a p IH]; intros s; simpl.
  - split; [intros _; by exists s | done].
  - destruct s as [|b s]; simpl.
    + split; [done | intros [post H]; discriminate].
    + rewrite andb_true_iff, bool_decide_eq_true, IH. split.
      * intros [-> [post ->]]. by exists post.
      * intros [post H]. injection H as -> ->. eauto.
Qed.

Lemma includes_spec (s p : jsstring) :
  includes s p = true <-> exists pre post, s = pre ++ p ++ post.
Proof.
  induction s as [|c s IH].
  - simpl. rewrite orb_false_r, startsWith_spec. split.
    + intros [post H]. by exists [], post.
    + intros (pre & post & H). symmetry in H.
      apply app_eq_nil in H as [-> H]. exists post. done.
  - cbn [includes]. rewrite orb_true_iff, startsWith_spec, IH. split.
    + intros [[post H] | (pre & post & H)].
      * by exists [], post.
      * exists (c :: pre), post. by rewrite H.
    + intros (pre & post & H). destruct pre as [|d pre]; simpl in H.
      * left. by exists post.
      * right. injection H as -> ->. by exists pre, post.
Qed.

Lemma toLowerCase_app (s t : jsstring) :
  toLowerCase (s ++ t) = toLowerCase s ++ toLowerCase t.
Proof. apply map_app. Qed.

Lemma arrayIncludes_spec (l : list jsstring) (x : jsstring) :
  arrayIncludes l x = true <-> x ∈ l.
Proof.
  unfold arrayIncludes, eqb. rewrite existsb_exists. split.
  - intros (y & Hy & E). apply bool_decide_eq_true in E as ->.
    by apply list_elem_of_In.
  - intros H. exists x. split; [by apply list_elem_of_In|].
    by apply bool_decide_eq_true.
Qed.


(** Occurrence up to case is what the program tests: occurrence of the one
    lower-cased string in the other. *)
Lemma occurs_in_nocase_lower (p s : jsstring) :
  occurs_in_nocase p s <-> occurs_in (toLowerCase p) (toLowerCase s).
Proof.
  split.
  - intros (u & (pre & post & ->) & <-).
    exists (toLowerCase pre), (toLowerCase post).
    by rewrite !toLowerCase_app.
  - intros (pre' & post' & E). unfold toLowerCase in E.
    apply map_eq_app in E as (pre & rest & -> & _ & E).
    apply map_eq_app in E as (u & post & -> & Hu & _).
    exists u. split; [by exists pre, post | exact Hu].
Qed.

(** The first element that a loop with an early return stops at. *)
Lemma find_first {A} (f : A -> bool) (l : list A) (x : A) :
  List.find f l = Some x <->
  exists before after, l = before ++ x :: after /\ f x = true /\
    Forall (fun y => f y = false) before.
Proof.
  induction l as [|y l IH]; simpl.
  - split; [done | intros (before & after & E & _)]. by destruct before.
  - destruct (f y) eqn:Ey.
    + split.
      * intros [= ->]. exists [], l. auto.
      * intros ([|z before] & after & E & Hx & HF); simpl in E.
        { by injection E as ->. }
        injection E as -> _. apply Forall_cons in HF as [HF _]. congruence.
    + rewrite IH. split.
      * intros (before & after & -> & Hx & HF). exists (y :: before), after.
        auto.
      * intros ([|z before] & after & E & Hx & HF); simpl in E.
        { injection E as -> _. congruence. }
        injection E as -> ->. apply Forall_cons in HF as [_ HF]. eauto.
Qed.

Lemma find_is_Some {A} (f : A -> bool) (l : list A) (x : A) :
  x ∈ l -> f x = true -> is_Some (List.find f l).
Proof.
  intros Hin Hx. destruct (List.find f l) eqn:E; [eauto|].
  apply list_elem_of_In in Hin. by rewrite (find_none _ _ E _ Hin) in Hx.
Qed.

End JsFacts.

(** ** The matcher against a declarative reading of the patterns *)

Module RegexFacts.
Import Regex Spec.

Lemma repeat_from_sound a lo hi n pos s cs k res :
  within hi n ->
  repeat_from a lo hi n pos s cs k = Some res ->
  exists w rest, s = w ++ rest /\
    Forall (fun c => atom_ok a c = true) w /\
    lo <= n + length w /\ within hi (n + length w) /\
    k (pos + length w) rest cs = Some res.
Proof.
  revert n pos. induction s as [|c s IH]; intros n pos Hn H.
  - simpl in H. destruct (Nat.leb_spec lo n); [|done].
    exists [], []. simpl. rewrite !Nat.add_0_r. eauto 10.
  - assert (Hstop : (if lo <=? n then k pos (c :: s) cs else None) = Some res ->
      exists w rest, c :: s = w ++ rest /\
        Forall (fun c => atom_ok a c = true) w /\
        lo <= n + length w /\ within hi (n + length w) /\
        k (pos + length w) rest cs = Some res).
    { intros E. destruct (Nat.leb_spec lo n); [|done].
      exists [], (c :: s). simpl. rewrite !Nat.add_0_r. eauto 10. }
    cbn [repeat_from] in H.
    destruct (atom_ok a c && below hi n) eqn:E; [|auto].
    apply andb_true_iff in E as [Hc Hb].
    destruct (repeat_from a lo hi (S n) (S pos) s cs k) eqn:E2; [|auto].
    injection H as ->.
    apply IH in E2 as (w & rest & -> & Hw & Hlo & Hhi & Hk).
    + exists (c :: w), rest. simpl.
      rewrite <- !Nat.add_succ_comm. auto 10.
    + destruct hi as [h|]; simpl in *; [|done].
      apply Nat.ltb_lt in Hb. lia.
Qed.

Lemma repeat_from_complete a lo hi n pos w rest cs k res :
  Forall (fun c => atom_ok a c = true) w ->
  lo <= n + length w -> within hi (n + length w) ->
  k (pos + length w) rest cs = Some res ->
  exists res', repeat_from a lo hi n pos (w ++ rest) cs k = Some res'.
Proof.
  revert n pos. induction w as [|c w IH]; intros n pos Hw Hlo Hhi Hk.
  - simpl in *. rewrite Nat.add_0_r in *.
    assert (Hstop : (if lo <=? n then k pos rest cs else None) = Some res).
    { destruct (Nat.leb_spec lo n); [done | lia]. }
    destruct rest as [|c rest]; cbn [repeat_from]; [eauto|].
    destruct (atom_ok a c && below hi n); [|eauto].
    destruct (repeat_from a lo hi (S n) (S pos) rest cs k); eauto.
  - apply Forall_cons in Hw as [Hc Hw]. simpl in *.
    rewrite <- !Nat.add_succ_comm in *.
    destruct (IH (S n) (S pos)) as [res' E]; auto.
    rewrite Hc. replace (below hi n) with true.
    + simpl. rewrite E. eauto.
    + destruct hi as [h|]; simpl in *; [|done].
      symmetry. apply Nat.ltb_lt. lia.
Qed.

(** Whatever the matcher returns comes from a declarative match that its
    continuation accepted. *)
Lemma run_sound r : forall pos s cs k res,
  run r pos s cs k = Some res ->
  exists w rest cs', s = w ++ rest /\ sem r pos w rest cs cs' /\
    k (pos + length w) rest cs' = Some res.
Proof.
  induction r as [a | r1 IH1 r2 IH2 | i r1 IH1 | r1 IH1 | lo hi a | | ];
    intros pos s cs k res H; simpl in H.
  - destruct s as [|c s]; [done|].
    destruct (atom_ok a c) eqn:E; [|done].
    exists [c], s, cs. simpl. rewrite Nat.add_1_r. eauto 10.
  - apply IH1 in H as (w1 & rest1 & cs1 & -> & H1 & H).
    apply IH2 in H as (w2 & rest & cs2 & -> & H2 & H).
    exists (w1 ++ w2), rest, cs2.
    rewrite length_app, Nat.add_assoc, <- app_assoc. simpl. eauto 10.
  - apply IH1 in H as (w & rest & cs1 & -> & H1 & H).
    replace (pos + length w - pos) with (length w) in H by lia.
    rewrite take_app_length in H. simpl. eauto 10.
  - destruct (run r1 pos s cs _) eqn:E.
    + injection H as ->.
      apply IH1 in E as (w & rest & cs1 & -> & H1 & H).
      destruct (Nat.eqb_spec (pos + length w) pos) as [|Hne]; [done|].
      exists w, rest, cs1. simpl. split; [done|]. split; [|done].
      right. split; [|done]. intros ->. simpl in Hne. lia.
    + exists [], s, cs. simpl. rewrite Nat.add_0_r. auto.
  - apply repeat_from_sound in H as (w & rest & -> & Hw & Hlo & Hhi & H).
    + exists w, rest, cs. simpl. auto 10.
    + destruct hi; simpl; [lia | done].
  - destruct (Nat.eqb_spec pos 0) as [->|]; [|done].
    exists [], s, cs. simpl. auto 10.
  - destruct s; [|done]. exists [], [], cs. simpl.
    rewrite Nat.add_0_r. auto 10.
Qed.

(** Whenever some declarative match is accepted by the continuation, the
    matcher finds a match (that one, or one it prefers). *)
Lemma run_complete r : forall pos w rest cs cs' k res,
  sem r pos w rest cs cs' ->
  k (pos + length w) rest cs' = Some res ->
  exists res', run r pos (w ++ rest) cs k = Some res'.
Proof.
  induction r as [a | r1 IH1 r2 IH2 | i r1 IH1 | r1 IH1 | lo hi a | | ];
    intros pos w rest cs cs' k res H Hk; simpl in H.
  - destruct H as [(c & -> & Hc) ->]. simpl in *. rewrite Hc.
    rewrite Nat.add_1_r in Hk. eauto.
  - destruct H as (w1 & w2 & cs1 & -> & H1 & H2).
    rewrite length_app, Nat.add_assoc in Hk.
    destruct (IH2 _ _ _ _ _ _ _ H2 Hk) as [res2 E2].
    rewrite <- app_assoc. simpl.
    eapply IH1; [exact H1|]. simpl. exact E2.
  - destruct H as (cs1 & H1 & ->). simpl.
    eapply IH1; [exact H1|]. simpl.
    replace (pos + length w - pos) with (length w) by lia.
    rewrite take_app_length. exact Hk.
  - simpl. destruct H as [[-> ->] | [Hne H1]].
    + simpl in *. rewrite Nat.add_0_r in Hk.
      destruct (run r1 pos rest cs _); eauto.
    + edestruct (IH1 pos w rest cs cs'
        (fun pos1 s1 cs1 => if pos1 =? pos then None else k pos1 s1 cs1))
        as [res1 E1]; [exact H1 | |].
      * simpl. destruct (Nat.eqb_spec (pos + length w) pos) as [E|]; [|exact Hk].
        destruct w; [done | simpl in E; lia].
      * rewrite E1. eauto.
  - destruct H as [(Hw & Hlo & Hhi) ->]. simpl.
    eapply repeat_from_complete; eauto.
  - destruct H as (-> & -> & ->). simpl in *. eauto.
  - destruct H as (-> & -> & ->). simpl in *. rewrite Nat.add_0_r in Hk. eauto.
Qed.

Lemma match_at_sound groups r pos s res :
  match_at groups r pos s = Some res ->
  exists w rest cs', s = w ++ rest /\
    sem r pos w rest (replicate (S groups) None) cs' /\
    res = <[0 := Some w]> cs'.
Proof.
  intros H. apply run_sound in H as (w & rest & cs' & -> & H & E).
  replace (pos + length w - pos) with (length w) in E by lia.
  rewrite take_app_length in E. injection E as <-. eauto 10.
Qed.

Lemma match_at_complete groups r pos w rest cs' :
  sem r pos w rest (replicate (S groups) None) cs' ->
  exists res, match_at groups r pos (w ++ rest) = Some res.
Proof. intros H. eapply run_complete; [exact H | reflexivity]. Qed.

(** A pattern that begins with [^] only matches from the start. *)
Lemma exec_from_anchored groups r pos s :
  0 < pos -> exec_from groups (Bol >+ r) pos s = None.
Proof.
  revert pos. induction s as [|c s IH]; intros pos Hpos; simpl;
    unfold match_at; simpl;
    (destruct (Nat.eqb_spec pos 0); [lia|]); [done|].
  apply IH. lia.
Qed.

Lemma exec_anchored groups r s :
  exec groups (Bol >+ r) s = match_at groups (Bol >+ r) 0 s.
Proof.
  unfold exec. destruct s as [|c s]; simpl.
  - by destruct (match_at groups (Bol >+ r) 0 []).
  - destruct (match_at groups (Bol >+ r) 0 (c :: s)); [done|].
    apply exec_from_anchored. lia.
Qed.

Lemma exec_sound groups r s res :
  exec groups (Bol >+ r) s = Some res ->
  exists w rest cs', s = w ++ rest /\
    sem (Bol >+ r) 0 w rest (replicate (S groups) None) cs' /\
    res = <[0 := Some w]> cs'.
Proof. rewrite exec_anchored. apply match_at_sound. Qed.

Lemma exec_complete groups r w rest cs' :
  sem (Bol >+ r) 0 w rest (replicate (S groups) None) cs' ->
  exists res, exec groups (Bol >+ r) (w ++ rest) = Some res.
Proof. rewrite exec_anchored. apply match_at_complete. Qed.

End RegexFacts.

(** ** What the three patterns accept *)

Module PatternFacts.
Import Regex Platforms Spec RegexFacts.

Lemma sem_chr c pos w rest cs cs' :
  sem (chr c) pos w rest cs cs' <-> w = [c] /\ cs' = cs.
Proof.
  unfold chr. simpl. split.
  - intros [(d & -> & E) ->]. by apply bool_decide_eq_true in E as ->.
  - intros [-> ->]. split; [|done]. exists c. split; [done|].
    by apply bool_decide_eq_true.
Qed.

Lemma sem_lits rest' : forall c pos w rest cs cs',
  sem (lits c rest') pos w rest cs cs' <-> w = c :: rest' /\ cs' = cs.
Proof.
  induction rest' as [|d rest' IH]; intros c pos w rest cs cs'.
  - apply sem_chr.
  - cbn [lits sem]. split.
    + intros (w1 & w2 & cs1 & -> & H1 & H2).
      apply sem_chr in H1 as [-> ->]. by apply IH in H2 as [-> ->].
    + intros [-> ->]. exists [c], (d :: rest'), cs. split; [done|].
      split; [by apply sem_chr | by apply IH].
Qed.

Lemma sem_OWNER pos w rest cs cs' :
  sem OWNER pos w rest cs cs' <-> owner_word w /\ cs' = cs.
Proof.
  unfold OWNER, owner_word. cbn [sem]. split.
  - intros (w1 & w2 & cs1 & -> & [(c & -> & Hc) ->] & H).
    destruct H as [[-> ->] | [_ H]]; [eauto 10|].
    destruct H as (w3 & w4 & cs2 & -> & [(HF & _ & Hlen) ->] & [(d & -> & Hd) ->]).
    split; [|done]. right. exists c, w3, d. auto.
  - intros [[(c & -> & Hc) | (c & mid & d & -> & Hc & HF & Hlen & Hd)] ->].
    + exists [c], [], cs. eauto 10.
    + exists [c], (mid ++ [d]), cs. split; [done|]. split; [eauto|].
      right. split; [by destruct mid|].
      exists mid, [d], cs. split; [done|]. split; [|eauto].
      split; [|done]. split; [done|]. split; [lia | exact Hlen].
Qed.

Lemma sem_PATH i pos w rest cs cs' :
  sem (PATH i) pos w rest cs cs' <->
  (w = [] /\ cs' = cs) \/
  (exists q, w = "/"%char :: q /\ Forall is_dot_char q /\
     cs' = <[i := Some w]> cs).
Proof.
  unfold PATH. cbn [sem]. split.
  - intros [H | [_ (cs1 & (w1 & w2 & cs2 & -> & H1 & [(HF & _) ->]) & ->)]];
      [by left|].
    apply sem_chr in H1 as [-> ->]. right. eauto.
  - intros [H | (q & -> & HF & ->)]; [by left|]. right. split; [done|].
    exists cs. split; [|done]. exists ["/"%char], q, cs.
    split; [done|]. split; [by apply sem_chr|].
    split; [|done]. split; [done|]. split; [lia | done].
Qed.

Lemma sem_REPO_PATTERN w rest cs' :
  sem REPO_PATTERN 0 w rest (replicate 3 None) cs' <->
  rest = [] /\ exists o r, owner_word o /\ repo_word r /\ length r <= 100 /\
    w = o ++ "/"%char :: r /\ cs' = [None; Some o; Some r].
Proof.
  unfold REPO_PATTERN. split.
  - intros (w0 & w1 & cs0 & -> & (_ & -> & ->) & H).
    destruct H as (o & w2 & cs1 & -> & (cs2 & Ho & ->) & H).
    apply sem_OWNER in Ho as [Ho ->].
    destruct H as (w3 & w4 & cs3 & -> & Hs & H).
    apply sem_chr in Hs as [-> ->].
    destruct H as (r & w5 & cs4 & -> & (cs5 & [(HF & Hlo & Hhi) ->] & ->) & H).
    destruct H as (-> & -> & ->). split; [done|].
    exists o, r. rewrite app_nil_r. unfold repo_word. simpl in Hhi. auto 10.
  - intros (-> & o & r & Ho & [Hlo HF] & Hhi & -> & ->).
    exists [], (o ++ "/"%char :: r), (replicate 3 None).
    split; [done|]. split; [done|].
    exists o, ("/"%char :: r), [None; Some o; None]. split; [done|]. split.
    { exists (replicate 3 None). split; [|done]. by apply sem_OWNER. }
    exists ["/"%char], r, [None; Some o; None]. split; [done|].
    split; [by apply sem_chr|].
    exists r, [], [None; Some o; Some r]. split; [by rewrite app_nil_r|].
    split; [|done]. exists [None; Some o; None]. split; [|done].
    split; [|done]. auto.
Qed.

Lemma sem_REPO_WITH_PATH_PATTERN w rest cs' :
  sem REPO_WITH_PATH_PATTERN 0 w rest (replicate 4 None) cs' <->
  rest = [] /\ exists o r p, owner_word o /\ repo_word r /\ path_capture p /\
    w = o ++ "/"%char :: r ++ default [] p /\
    cs' = [None; Some o; Some r; p].
Proof.
  unfold REPO_WITH_PATH_PATTERN. split.
  - intros (w0 & w1 & cs0 & -> & (_ & -> & ->) & H).
    destruct H as (o & w2 & cs1 & -> & (cs2 & Ho & ->) & H).
    apply sem_OWNER in Ho as [Ho ->].
    destruct H as (w3 & w4 & cs3 & -> & Hs & H).
    apply sem_chr in Hs as [-> ->].
    destruct H as (r & w5 & cs4 & -> & (cs5 & [(HF & Hlo & _) ->] & ->) & H).
    destruct H as (pw & w6 & cs6 & -> & Hp & (-> & -> & ->)).
    split; [done|]. rewrite app_nil_r.
    apply sem_PATH in Hp as [[-> ->] | (q & -> & Hq & ->)].
    + exists o, r, None. unfold repo_word. simpl. auto 10.
    + exists o, r, (Some ("/"%char :: q)). unfold repo_word. simpl.
      split; [done|]. split; [done|]. split; [eauto|]. done.
  - intros (-> & o & r & p & Ho & [Hlo HF] & Hp & -> & ->).
    exists [], (o ++ "/"%char :: r ++ default [] p), (replicate 4 None).
    split; [done|]. split; [done|].
    exists o, ("/"%char :: r ++ default [] p), [None; Some o; None; None].
    split; [done|]. split.
    { exists (replicate 4 None). split; [|done]. by apply sem_OWNER. }
    exists ["/"%char], (r ++ default [] p), [None; Some o; None; None].
    split; [done|]. split; [by apply sem_chr|].
    exists r, (default [] p), [None; Some o; Some r; None]. split; [done|].
    split.
    { exists [None; Some o; None; None]. split; [|done]. split; [|done].
      simpl. auto. }
    exists (default [] p), [], [None; Some o; Some r; p].
    split; [by rewrite app_nil_r|]. split; [|done].
    apply sem_PATH. destruct p as [pw|]; simpl; [|by left].
    destruct Hp as (q & -> & Hq). right. eauto.
Qed.

Lemma sem_FULL_URL_PATTERN w rest cs' :
  sem FULL_URL_PATTERN 0 w rest (replicate 5 None) cs' ->
  rest = [] /\ exists pre h o r p,
    1 <= length h /\ Forall is_host_char h /\
    owner_word o /\ repo_word r /\ path_capture p /\
    w = pre ++ h ++ "/"%char :: o ++ "/"%char :: r ++ default [] p /\
    cs' = [None; Some h; Some o; Some r; p].
Proof.
  unfold FULL_URL_PATTERN.
  intros (w0 & w1 & cs0 & -> & (_ & -> & ->) & H).
  destruct H as (scheme & w2 & cs1 & -> & Hscheme & H).
  assert (cs1 = replicate 5 None) as ->.
  { destruct Hscheme as [[_ ->] | [_ Hs]]; [done|].
    destruct Hs as (a & b & cs2 & _ & Ha & H2).
    apply sem_lits in Ha as [_ ->].
    destruct H2 as (a2 & b2 & cs3 & _ & [_ ->] & Hb).
    by apply sem_lits in Hb as [_ ->]. }
  destruct H as (www & w3 & cs2 & -> & Hwww & H).
  assert (cs2 = replicate 5 None) as ->.
  { destruct Hwww as [[_ ->] | [_ Hs]]; [done|].
    by apply sem_lits in Hs as [_ ->]. }
  destruct H as (h & w4 & cs3 & -> & (cs4 & [(HhF & Hhlo & _) ->] & ->) & H).
  destruct H as (w5 & w6 & cs5 & -> & Hs & H).
  apply sem_chr in Hs as [-> ->].
  destruct H as (o & w7 & cs6 & -> & (cs7 & Ho & ->) & H).
  apply sem_OWNER in Ho as [Ho ->].
  destruct H as (w8 & w9 & cs8 & -> & Hs & H).
  apply sem_chr in Hs as [-> ->].
  destruct H as (r & w10 & cs9 & -> & (cs10 & [(HF & Hlo & _) ->] & ->) & H).
  destruct H as (pw & w11 & cs11 & -> & Hp & (-> & -> & ->)).
  split; [done|]. rewrite app_nil_r.
  assert (Hrepo : repo_word r) by (split; done).
  apply sem_PATH in Hp as [[-> ->] | (q & -> & Hq & ->)].
  - exists (scheme ++ www), h, o, r, None. simpl.
    rewrite <- !app_assoc. simpl. auto 10.
  - exists (scheme ++ www), h, o, r, (Some ("/"%char :: q)). simpl.
    rewrite <- !app_assoc. simpl.
    split; [done|]. split; [done|]. split; [done|]. split; [done|].
    split; [eauto|]. done.
Qed.

(** Neither an owner nor a repository name holds a slash, so the first
    slash of a match is where the owner ends. *)

Lemma alnum_alnum_dash c : is_alnum c -> is_alnum_dash c.
Proof.
  unfold is_alnum, is_alnum_dash. simpl.
  repeat (destruct (Js.in_range _ _ c); simpl; try done).
Qed.

Lemma alnum_dash_not_slash c : is_alnum_dash c -> c <> "/"%char.
Proof. intros H ->. vm_compute in H. discriminate. Qed.

Lemma repo_char_not_slash c : is_repo_char c -> c <> "/"%char.
Proof. intros H ->. vm_compute in H. discriminate. Qed.

Lemma owner_word_chars o : owner_word o -> Forall is_alnum_dash o.
Proof.
  intros [(c & -> & Hc) | (c & mid & d & -> & Hc & HF & _ & Hd)].
  - repeat constructor. by apply alnum_alnum_dash.
  - constructor; [by apply alnum_alnum_dash|].
    apply Forall_app. split; [done|].
    repeat constructor. by apply alnum_alnum_dash.
Qed.

Lemma owner_word_no_slash o : owner_word o -> "/"%char ∉ o.
Proof.
  intros Ho Hin. apply owner_word_chars in Ho.
  rewrite Forall_forall in Ho. by apply Ho, alnum_dash_not_slash in Hin.
Qed.

Lemma repo_word_no_slash r : repo_word r -> "/"%char ∉ r.
Proof.
  intros [_ Hr] Hin.
  rewrite Forall_forall in Hr. by apply Hr, repo_char_not_slash in Hin.
Qed.

Lemma split_unique (c : ascii) (a a' b b' : jsstring) :
  c ∉ a -> c ∉ a' -> a ++ c :: b = a' ++ c :: b' -> a = a' /\ b = b'.
Proof.
  revert a'. induction a as [|x a IH]; intros [|y a'] Ha Ha' E; simpl in E.
  - by injection E as ->.
  - injection E as -> _. exfalso. apply Ha'. by left.
  - injection E as -> _. exfalso. apply Ha. by left.
  - injection E as -> E. apply not_elem_of_cons in Ha as [_ Ha].
    apply not_elem_of_cons in Ha' as [_ Ha'].
    by destruct (IH a' Ha Ha' E) as [-> ->].
Qed.

(** A repository name followed by an optional path splits in one way. *)
Lemma repo_path_unique r r' p p' :
  repo_word r -> repo_word r' -> path_capture p -> path_capture p' ->
  r ++ default [] p = r' ++ default [] p' -> r = r' /\ p = p'.
Proof.
  intros Hr Hr' Hp Hp' E.
  apply repo_word_no_slash in Hr, Hr'.
  destruct p as [pw|], p' as [pw'|]; simpl in *.
  - destruct Hp as (q & -> & _), Hp' as (q' & -> & _).
    by destruct (split_unique _ _ _ _ _ Hr Hr' E) as [-> ->].
  - destruct Hp as (q & -> & _). rewrite app_nil_r in E. subst r'.
    exfalso. apply Hr'. apply elem_of_app. right. by left.
  - destruct Hp' as (q' & -> & _). rewrite app_nil_r in E. subst r.
    exfalso. apply Hr. apply elem_of_app. right. by left.
  - rewrite !app_nil_r in E. by subst.
Qed.

(** The results of [match] on the three patterns. *)

Lemma exec_REPO_PATTERN s m :
  exec 2 REPO_PATTERN s = Some m <->
  exists o r, owner_word o /\ repo_word r /\ length r <= 100 /\
    s = o ++ "/"%char :: r /\ m = [Some s; Some o; Some r].
Proof.
  split.
  - intros H. apply exec_sound in H as (w & rest & cs' & -> & H & ->).
    apply sem_REPO_PATTERN in H as (-> & o & r & Ho & Hr & Hlen & -> & ->).
    exists o, r. by rewrite app_nil_r.
  - intros (o & r & Ho & Hr & Hlen & -> & ->).
    assert (Hsem : sem REPO_PATTERN 0 (o ++ "/"%char :: r) []
                     (replicate 3 None) [None; Some o; Some r]).
    { apply sem_REPO_PATTERN. eauto 10. }
    destruct (exec_complete 2 _ _ _ _ Hsem) as [m E].
    rewrite app_nil_r in E. unfold REPO_PATTERN. rewrite E. f_equal.
    apply exec_sound in E as (w & rest & cs' & E & H & ->).
    apply sem_REPO_PATTERN in H as (-> & o' & r' & Ho' & Hr' & _ & -> & ->).
    rewrite app_nil_r in E. rewrite E.
    apply split_unique in E as [-> ->]; [done | |];
      by apply owner_word_no_slash.
Qed.

Lemma exec_REPO_WITH_PATH_PATTERN s m :
  exec 3 REPO_WITH_PATH_PATTERN s = Some m <->
  exists o r p, owner_word o /\ repo_word r /\ path_capture p /\
    s = o ++ "/"%char :: r ++ default [] p /\
    m = [Some s; Some o; Some r; p].
Proof.
  split.
  - intros H. apply exec_sound in H as (w & rest & cs' & -> & H & ->).
    apply sem_REPO_WITH_PATH_PATTERN in H
      as (-> & o & r & p & Ho & Hr & Hp & -> & ->).
    exists o, r, p. by rewrite app_nil_r.
  - intros (o & r & p & Ho & Hr & Hp & -> & ->).
    assert (Hsem : sem REPO_WITH_PATH_PATTERN 0
                     (o ++ "/"%char :: r ++ default [] p) []
                     (replicate 4 None) [None; Some o; Some r; p]).
    { apply sem_REPO_WITH_PATH_PATTERN. eauto 10. }
    destruct (exec_complete 3 _ _ _ _ Hsem) as [m E].
    rewrite app_nil_r in E. unfold REPO_WITH_PATH_PATTERN. rewrite E. f_equal.
    apply exec_sound in E as (w & rest & cs' & E & H & ->).
    apply sem_REPO_WITH_PATH_PATTERN in H
      as (-> & o' & r' & p' & Ho' & Hr' & Hp' & -> & ->).
    rewrite app_nil_r in E. rewrite E.
    apply split_unique in E as [-> E]; [| by apply owner_word_no_slash ..].
    by apply repo_path_unique in E as [-> ->].
Qed.

Lemma exec_FULL_URL_PATTERN s m :
  exec 4 FULL_URL_PATTERN s = Some m ->
  exists pre h o r p,
    1 <= length h /\ Forall is_host_char h /\
    owner_word o /\ repo_word r /\ path_capture p /\
    s = pre ++ h ++ "/"%char :: o ++ "/"%char :: r ++ default [] p /\
    m = [Some s; Some h; Some o; Some r; p].
Proof.
  intros H. apply exec_sound in H as (w & rest & cs' & -> & H & ->).
  apply sem_FULL_URL_PATTERN in H
    as (-> & pre & h & o & r & p & Hh1 & Hh & Ho & Hr & Hp & -> & ->).
  exists pre, h, o, r, p. by rewrite app_nil_r.
Qed.

(** In a match of any of the patterns every group but the path took part,
    so that [group] reads what the program reads. *)
Lemma group_defined s m :
  (exec 2 REPO_PATTERN s = Some m ->
     capture m 1 = Some (group m 1) /\ capture m 2 = Some (group m 2)) /\
  (exec 3 REPO_WITH_PATH_PATTERN s = Some m ->
     capture m 1 = Some (group m 1) /\ capture m 2 = Some (group m 2)) /\
  (exec 4 FULL_URL_PATTERN s = Some m ->
     capture m 1 = Some (group m 1) /\ capture m 2 = Some (group m 2) /\
     capture m 3 = Some (group m 3)).
Proof.
  split; [|split]; intros H.
  - by apply exec_REPO_PATTERN in H as (o & r & _ & _ & _ & _ & ->).
  - by apply exec_REPO_WITH_PATH_PATTERN in H
      as (o & r & p & _ & _ & _ & _ & ->).
  - by apply exec_FULL_URL_PATTERN in H
      as (pre & h & o & r & p & _ & _ & _ & _ & _ & _ & ->).
Qed.

End PatternFacts.

(** ** The resolver *)

Module ResolverFacts.
Import Regex Platforms Spec RegexFacts PatternFacts.

Lemma trimStart_elem (c : ascii) (s : jsstring) :
  c ∈ Js.trimStart s -> c ∈ s.
Proof.
  induction s as [|d s IH]; simpl; [done|].
  destruct (Js.isWhiteSpace d); [|done]. intros H. right. auto.
Qed.

Lemma elem_of_rev (c : ascii) (s : jsstring) : c ∈ rev s <-> c ∈ s.
Proof. rewrite !list_elem_of_In. symmetry. apply in_rev. Qed.

Lemma trim_elem (c : ascii) (s : jsstring) : c ∈ Js.trim s -> c ∈ s.
Proof.
  unfold Js.trim, Js.trimEnd. rewrite elem_of_rev. intros H.
  apply trimStart_elem in H. rewrite elem_of_rev in H.
  by apply trimStart_elem.
Qed.

(** Every target of [parseRepoInput] is cut out of the trimmed input: an
    owner, a slash, a repository name and an optional path, after a host
    part when the input was a URL. *)
Lemma parseRepoInput_inv d input t :
  parseRepoInput d input = Some t ->
  exists pre,
    Js.trim input = pre ++ owner t ++ "/"%char :: repo t ++ path t /\
    owner_word (owner t) /\ repo_word (repo t) /\
    (path t = [] \/ exists q, path t = "/"%char :: q /\ Forall is_dot_char q).
Proof.
  assert (Hpath : forall p, path_capture p ->
    default [] p = [] \/
    exists q, default [] p = "/"%char :: q /\ Forall is_dot_char q).
  { intros [pw|] Hp; simpl; [right | by left]. exact Hp. }
  unfold parseRepoInput, parseFullUrl.
  destruct (isEmpty input); [done|].
  destruct (isEmpty (Js.trim input)); [done|].
  destruct (exec 4 FULL_URL_PATTERN (Js.trim input)) as [m|] eqn:E4.
  - apply exec_FULL_URL_PATTERN in E4
      as (pre & h & o & r & p & _ & _ & Ho & Hr & Hp & E & ->).
    unfold group, capture. simpl.
    destruct (findPlatformByDomain h) as [pl|].
    { intros [= <-]. simpl. exists (pre ++ h ++ ["/"%char]).
      rewrite <- !app_assoc. simpl. auto. }
    destruct (exec 3 REPO_WITH_PATH_PATTERN (Js.trim input)) as [m|] eqn:E3.
    + apply exec_REPO_WITH_PATH_PATTERN in E3
        as (o' & r' & p' & Ho' & Hr' & Hp' & E' & ->).
      intros [= <-]. simpl. exists []. simpl. auto.
    + destruct (exec 2 REPO_PATTERN (Js.trim input)) as [m|] eqn:E2; [|done].
      apply exec_REPO_PATTERN in E2 as (o' & r' & Ho' & Hr' & _ & E' & ->).
      intros [= <-]. simpl. exists []. rewrite app_nil_r. simpl. auto.
  - destruct (exec 3 REPO_WITH_PATH_PATTERN (Js.trim input)) as [m|] eqn:E3.
    + apply exec_REPO_WITH_PATH_PATTERN in E3
        as (o' & r' & p' & Ho' & Hr' & Hp' & E' & ->).
      intros [= <-]. simpl. exists []. simpl. auto.
    + destruct (exec 2 REPO_PATTERN (Js.trim input)) as [m|] eqn:E2; [|done].
      apply exec_REPO_PATTERN in E2 as (o' & r' & Ho' & Hr' & _ & E' & ->).
      intros [= <-]. simpl. exists []. rewrite app_nil_r. simpl. auto.
Qed.

(** Whatever the bare pattern matches, the pattern with a path has already
    matched: step 3 of [parseRepoInput] is never reached with a match. *)
Lemma REPO_PATTERN_shadowed s :
  exec 3 REPO_WITH_PATH_PATTERN s = None -> exec 2 REPO_PATTERN s = None.
Proof.
  intros H. destruct (exec 2 REPO_PATTERN s) as [m|] eqn:E; [|done].
  apply exec_REPO_PATTERN in E as (o & r & Ho & Hr & _ & -> & ->).
  assert (exec 3 REPO_WITH_PATH_PATTERN (o ++ "/"%char :: r)
          = Some [Some (o ++ "/"%char :: r); Some o; Some r; None]) as E.
  { apply exec_REPO_WITH_PATH_PATTERN. exists o, r, None. simpl.
    by rewrite app_nil_r. }
  congruence.
Qed.

(** A character that is not in a literal string. *)
Ltac absent := rewrite list_elem_of_In; simpl; intuition discriminate.

(** An input without a slash resolves to nothing. *)
Lemma parseRepoInput_no_slash d input :
  "/"%char ∉ input -> parseRepoInput d input = None.
Proof.
  intros Hno. destruct (parseRepoInput d input) as [t|] eqn:E; [|done].
  apply parseRepoInput_inv in E as (pre & E & _).
  exfalso. apply Hno, trim_elem. rewrite E.
  apply elem_of_app. right. apply elem_of_app. right. by left.
Qed.

Lemma slashes_app s t : slashes (s ++ t) = slashes s + slashes t.
Proof. apply count_occ_app. Qed.

Lemma slashes_cons s : slashes ("/"%char :: s) = S (slashes s).
Proof. unfold slashes. by rewrite count_occ_cons_eq. Qed.

Lemma slashes_none s : "/"%char ∉ s -> slashes s = 0.
Proof. rewrite list_elem_of_In. apply count_occ_not_In. Qed.

(** A URL has a slash after the host and one after the owner. *)
Lemma FULL_URL_two_slashes s m :
  exec 4 FULL_URL_PATTERN s = Some m -> 2 <= slashes s.
Proof.
  intros H. apply exec_FULL_URL_PATTERN in H
    as (pre & h & o & r & p & _ & _ & _ & _ & _ & -> & _).
  rewrite !slashes_app, slashes_cons, slashes_app, slashes_cons. lia.
Qed.

Lemma exec_FULL_URL_PATTERN_empty : exec 4 FULL_URL_PATTERN [] = None.
Proof. reflexivity. Qed.

(** An input of the bare form owner/repo goes to the default platform. *)
Lemma bare_binds_default d input m :
  exec 2 REPO_PATTERN (Js.trim input) = Some m ->
  parseRepoInput d input =
    Some {| platform := defaultPlatform d; owner := group m 1;
            repo := group m 2; path := [] |}.
Proof.
  intros H. apply exec_REPO_PATTERN in H as (o & r & Ho & Hr & _ & E & ->).
  assert (Hfull : exec 4 FULL_URL_PATTERN (Js.trim input) = None).
  { destruct (exec 4 FULL_URL_PATTERN (Js.trim input)) eqn:E4; [|done].
    apply FULL_URL_two_slashes in E4.
    rewrite E, slashes_app, slashes_cons in E4.
    rewrite (slashes_none o), (slashes_none r) in E4;
      [lia | by apply repo_word_no_slash | by apply owner_word_no_slash]. }
  assert (Hpath : exec 3 REPO_WITH_PATH_PATTERN (Js.trim input)
                  = Some [Some (Js.trim input); Some o; Some r; None]).
  { apply exec_REPO_WITH_PATH_PATTERN. exists o, r, None. simpl.
    by rewrite app_nil_r. }
  unfold parseRepoInput, parseFullUrl. rewrite Hfull, Hpath.
  destruct input as [|c input]; [by destruct o|]. simpl isEmpty.
  destruct (Js.trim (c :: input)); [by destruct o|]. reflexivity.
Qed.

(** A URL whose host is known is resolved as a URL, whatever the other
    patterns would make of the input. *)
Lemma full_url_first d input m p :
  exec 4 FULL_URL_PATTERN (Js.trim input) = Some m ->
  findPlatformByDomain (group m 1) = Some p ->
  parseRepoInput d input =
    Some {| platform := p; owner := group m 2; repo := group m 3;
            path := default [] (capture m 4) |}.
Proof.
  intros H Hp. unfold parseRepoInput, parseFullUrl. rewrite H, Hp.
  destruct input as [|c input]; [done|].
  simpl isEmpty. by destruct (Js.trim (c :: input)).
Qed.

Lemma alnum_alphanumeric c : is_alnum c <-> alphanumeric c = true.
Proof.
  unfold is_alnum, alphanumeric. simpl.
  by rewrite orb_false_r, orb_assoc.
Qed.

Lemma alnum_dash_cases c :
  is_alnum_dash c -> alphanumeric c = true \/ c = "-"%char.
Proof.
  unfold is_alnum_dash, alphanumeric. simpl.
  rewrite orb_false_r, !orb_true_iff, bool_decide_eq_true. intuition.
Qed.

Lemma underscore_code c : (Js.code c =? Js.code "_") = true -> c = "_"%char.
Proof.
  intros H. apply Nat.eqb_eq in H. unfold Js.code in H.
  rewrite <- (ascii_nat_embedding c), H. reflexivity.
Qed.

Lemma repo_char_cases c :
  is_repo_char c ->
  alphanumeric c = true \/ c = "."%char \/ c = "-"%char \/ c = "_"%char.
Proof.
  unfold is_repo_char, alphanumeric. simpl. unfold Js.isWordChar.
  rewrite orb_false_r, !orb_true_iff, !bool_decide_eq_true.
  intros [[[[H|H]|H]|H]|[H|H]]; auto 10.
  apply underscore_code in H. auto.
Qed.

Lemma owner_word_syntax o : owner_word o -> owner_syntax o.
Proof.
  intros Ho. pose proof (owner_word_chars o Ho) as HF.
  assert (Hnd : ~ is_alnum "-"%char) by (by vm_compute).
  unfold owner_syntax. split; [|split; [|split]].
  - destruct Ho as [(c & -> & _) | (c & mid & d & -> & _ & _ & Hlen & _)];
      simpl; [lia|]. rewrite length_app. simpl. lia.
  - eapply Forall_impl; [exact HF|]. apply alnum_dash_cases.
  - destruct Ho as [(c & -> & Hc) | (c & mid & d & -> & Hc & _)];
      simpl; intros [= ->]; done.
  - destruct Ho as [(c & -> & Hc) | (c & mid & d & -> & _ & _ & _ & Hd)].
    + simpl. intros [= ->]. done.
    + rewrite app_comm_cons, last_snoc. intros [= ->]. done.
Qed.

Lemma repo_word_syntax r : repo_word r -> repo_syntax r.
Proof.
  intros [Hlen HF]. split; [done|].
  eapply Forall_impl; [exact HF|]. apply repo_char_cases.
Qed.

(** The fields of every target of [parseRepoInput]: all that the data model
    asks of them but the upper bound on the repository name. *)
Lemma parseRepoInput_syntax d input t :
  parseRepoInput d input = Some t ->
  owner_syntax (owner t) /\ repo_syntax (repo t) /\ path_syntax (path t).
Proof.
  intros H. apply parseRepoInput_inv in H as (pre & _ & Ho & Hr & Hp).
  split; [by apply owner_word_syntax|]. split; [by apply repo_word_syntax|].
  destruct Hp as [Hp | (q & Hp & _)]; [by left | right]. by rewrite Hp.
Qed.

Lemma parseSearchQuery_inv d query t :
  parseSearchQuery d query = Some t ->
  exists input t0, parseRepoInput d input = Some t0 /\
    owner t = owner t0 /\ repo t = repo t0 /\ path t = path t0.
Proof.
  unfold parseSearchQuery.
  destruct (isEmpty query); [done|].
  destruct (isEmpty (Js.trim query)); [done|].
  destruct (detectPlatform d (Js.trim query)) as [p clean].
  destruct (parseRepoInput d clean) as [t0|] eqn:E; [|done].
  intros [= <-]. exists clean, t0. auto.
Qed.

Lemma parseSearchQuery_syntax d query t :
  parseSearchQuery d query = Some t ->
  owner_syntax (owner t) /\ repo_syntax (repo t) /\ path_syntax (path t).
Proof.
  intros H. apply parseSearchQuery_inv in H as (input & t0 & H & -> & -> & ->).
  by apply parseRepoInput_syntax in H.
Qed.

(** The clean query of [parseSearchQuery] is made of code units of the
    query and of the spaces that [join] puts between the pieces. *)

Lemma split_ws_from_elem (c : ascii) : forall s sep acc x,
  x ∈ Js.split_ws_from sep acc s -> c ∈ x -> c ∈ acc \/ c ∈ s.
Proof.
  induction s as [|d s IH]; intros sep acc x Hx Hc; simpl in Hx.
  - apply list_elem_of_singleton in Hx as ->. left. by apply elem_of_rev.
  - destruct (Js.isWhiteSpace d).
    + destruct sep.
      * destruct (IH _ _ _ Hx Hc); [by left | right; by right].
      * apply elem_of_cons in Hx as [-> | Hx].
        { left. by apply elem_of_rev. }
        destruct (IH _ _ _ Hx Hc) as [H | H]; [by inversion H|].
        right. by right.
    + destruct (IH _ _ _ Hx Hc) as [H | H]; [|right; by right].
      apply elem_of_cons in H as [-> | H]; [right; by left | by left].
Qed.

Lemma join_elem (c : ascii) (sep : jsstring) : forall l,
  c ∈ Js.join sep l -> c ∈ sep \/ exists x, x ∈ l /\ c ∈ x.
Proof.
  induction l as [|x l IH]; intros H; simpl in H; [by inversion H|].
  destruct l as [|y l].
  - right. exists x. split; [by left | done].
  - apply elem_of_app in H as [H | H].
    { right. exists x. split; [by left | done]. }
    apply elem_of_app in H as [H | H]; [by left|].
    destruct (IH H) as [? | (z & Hz & Hcz)]; [by left|].
    right. exists z. split; [by right | done].
Qed.

Lemma detectPlatform_no_slash d trimmed :
  "/"%char ∉ trimmed -> "/"%char ∉ snd (detectPlatform d trimmed).
Proof.
  intros Hno. unfold detectPlatform.
  assert (Hparts : forall l, l `sublist_of` Js.split_ws trimmed ->
                     "/"%char ∉ Js.join " " l).
  { intros l Hl Hin. apply join_elem in Hin as [Hin | (x & Hx & Hin)].
    - vm_compute in Hin. apply list_elem_of_singleton in Hin. discriminate.
    - apply (elem_of_sublist _ _ _ Hx) in Hl.
      destruct (split_ws_from_elem _ _ _ _ _ Hl Hin) as [H | H];
        [by inversion H | done]. }
  destruct (2 <=? length (Js.split_ws trimmed)); [|done].
  destruct (findPlatformByKeyword _).
  { simpl. apply Hparts, sublist_drop. }
  destruct (findPlatformByKeyword _); [|done].
  simpl. apply Hparts, sublist_take.
Qed.

(** A query without a slash resolves to nothing, whatever platform its
    keyword names. *)
Lemma parseSearchQuery_no_slash d query :
  "/"%char ∉ query -> parseSearchQuery d query = None.
Proof.
  intros Hno. unfold parseSearchQuery.
  destruct (isEmpty query); [done|].
  destruct (isEmpty (Js.trim query)); [done|].
  assert (H : "/"%char ∉ snd (detectPlatform d (Js.trim query))).
  { apply detectPlatform_no_slash. intros H. by apply Hno, trim_elem. }
  destruct (detectPlatform d (Js.trim query)) as [p clean]. simpl in H.
  by rewrite parseRepoInput_no_slash.
Qed.

End ResolverFacts.

(** ** The registry *)

Module RegistryFacts.
Import Platforms Spec JsFacts.

(** The domains of the table are in lower case. *)
Lemma domain_lower key config :
  (key, config) ∈ PLATFORMS -> Js.toLowerCase (domain config) = domain config.
Proof.
  unfold PLATFORMS. intros H.
  repeat (apply elem_of_cons in H as [H | H]; [by injection H as -> ->|]).
  by apply not_elem_of_nil in H.
Qed.

Lemma domain_matches_spec (s : jsstring) key config :
  (key, config) ∈ PLATFORMS ->
  domain_matches (Js.toLowerCase s) config = true <-> mutual_substring s config.
Proof.
  intros Hin. unfold domain_matches, mutual_substring.
  rewrite !occurs_in_nocase_lower, (domain_lower _ _ Hin).
  by rewrite orb_true_iff, !includes_spec.
Qed.

End RegistryFacts.

(** ** The ledger of recent jumps *)

Module GuardFacts.
Import Background Spec.

Local Open Scope Z_scope.

Section OneKey.

Variables (key : jsstring) (T : Z).
Hypothesis T_nonzero : T <> 0.

Lemma purge_other (now : Z) (k : jsstring) (jumps : gmap jsstring Z) :
  k <> key -> purge now k jumps !! key = jumps !! key.
Proof.
  intros Hne. unfold purge. destruct (jumps !! k) as [ts|]; [|done].
  destruct (negb (ts =? 0) && (10000 <=? now - ts)); [|done].
  by rewrite lookup_delete_ne.
Qed.

Lemma isRecentJump_other (now : Z) (p o r : jsstring) (st : ledger) :
  jumpKey p o r <> key ->
  recentJumps (snd (isRecentJump now p o r st)) !! key
    = recentJumps st !! key.
Proof.
  intros Hne. unfold isRecentJump.
  destruct (recentJumps st !! jumpKey p o r) as [ts|]; [|done].
  destruct (ts =? 0); [done|].
  destruct (now - ts <? 5000); [done|]. simpl. by rewrite lookup_delete_ne.
Qed.

(** Before [T + 5000] no event but a new record touches the record. *)
Lemma step_kept (now : Z) (ev : event) (st : ledger) :
  now < T + 5000 -> ~ records key ev -> kept key T st -> kept key T (step now ev st).
Proof.
  unfold kept. intros Hnow Hev Hst. destruct ev as [p o r | p o r | k due];
    simpl in *.
  - destruct (decide (jumpKey p o r = key)) as [E | Hne];
      [|by rewrite isRecentJump_other].
    unfold isRecentJump. rewrite E, Hst.
    destruct (Z.eqb_spec T 0); [done|].
    destruct (Z.ltb_spec (now - T) 5000); [done | lia].
  - by rewrite lookup_insert_ne.
  - destruct (bool_decide _ && _); [|done]. simpl.
    destruct (decide (k = key)) as [-> | Hne]; [|by rewrite purge_other].
    unfold purge. rewrite Hst.
    destruct (Z.leb_spec 10000 (now - T)); [lia|].
    by rewrite andb_false_r.
Qed.

(** At any time, an event that is no new record keeps the record or
    deletes it. *)
Lemma step_kept_or_gone (now : Z) (ev : event) (st : ledger) :
  ~ records key ev -> kept_or_gone key T st -> kept_or_gone key T (step now ev st).
Proof.
  unfold kept_or_gone. intros Hev Hst.
  destruct ev as [p o r | p o r | k due]; simpl in *.
  - destruct (decide (jumpKey p o r = key)) as [E | Hne];
      [|by rewrite isRecentJump_other].
    unfold isRecentJump. rewrite E.
    destruct (recentJumps st !! key) as [ts|] eqn:El; [|by right].
    destruct (ts =? 0); [by rewrite <- El in Hst|].
    destruct (now - ts <? 5000); [by rewrite <- El in Hst|]. simpl. right.
    apply lookup_delete_eq.
  - by rewrite lookup_insert_ne.
  - destruct (bool_decide _ && _); [|done]. simpl.
    destruct (decide (k = key)) as [-> | Hne]; [|by rewrite purge_other].
    unfold purge. destruct (recentJumps st !! key) as [ts|] eqn:E; [|by right].
    destruct (negb (ts =? 0) && (10000 <=? now - ts)); [|by rewrite E].
    right. apply lookup_delete_eq.
Qed.

Lemma run_kept (t : Z) (evs : list (Z * event)) : forall st : ledger,
  t < T + 5000 ->
  Forall (fun e => fst e <= t /\ ~ records key (snd e)) evs ->
  kept key T st -> kept key T (run evs st).
Proof.
  induction evs as [|[now ev] evs IH]; intros st Ht Hevs Hst; [done|].
  apply Forall_cons in Hevs as [[Hnow Hev] Hevs]. simpl in *.
  apply IH; [done | done |]. apply step_kept; [lia | done | done].
Qed.

Lemma run_kept_or_gone (evs : list (Z * event)) : forall st : ledger,
  Forall (fun e => ~ records key (snd e)) evs ->
  kept_or_gone key T st -> kept_or_gone key T (run evs st).
Proof.
  induction evs as [|[now ev] evs IH]; intros st Hevs Hst; [done|].
  apply Forall_cons in Hevs as [Hev Hevs]. simpl in *.
  apply IH; [done|]. by apply step_kept_or_gone.
Qed.

End OneKey.

End GuardFacts.

(** * The claims *)

Module Claims.
Import Regex Platforms Background Spec ResolverFacts.

(** C1. The queries npm react and react npm: the keyword is found in
    either position and names npm with react as what remains, but the
    resolver returns nothing for them, where the claim has the target npm,
    react with an empty repository.  From that target [buildRepoUrl] does
    give https://www.npmjs.com/package/react. *)
Theorem C1_keyword_query_resolves_to_nothing :
  (forall d, detectPlatform d "npm react"
     = ("npm" : jsstring, "react" : jsstring)) /\
  (forall d, detectPlatform d "react npm"
     = ("npm" : jsstring, "react" : jsstring)) /\
  (forall d, parseSearchQuery d "npm react" = None) /\
  (forall d, parseSearchQuery d "react npm" = None) /\
  buildRepoUrl "npm" "react" "" ""
    = Return (Some ("https://www.npmjs.com/package/react" : jsstring)).
Proof.
  split; [intros d; by vm_compute|]. split; [intros d; by vm_compute|].
  split; [|split; [|by vm_compute]];
    intros d; apply parseSearchQuery_no_slash; absent.
Qed.

(** C2. A target that the resolver produces for a singleName platform does
    have a repository: the query npm foo/bar resolves to npm with the
    repository bar, and the URL of an npm package resolves to the owner
    package.  The other half of the claim holds: without a slash in the
    input the resolver returns nothing, on every platform. *)
Theorem C2_single_name_target_with_repo :
  (forall d, parseSearchQuery d "npm foo/bar"
     = Some {| platform := "npm"; owner := "foo"; repo := "bar";
               path := "" |}) /\
  (forall d, parseRepoInput d "https://www.npmjs.com/package/react"
     = Some {| platform := "npm"; owner := "package"; repo := "react";
               path := "" |}) /\
  singleName <$> registered "npm" = Some true /\
  (forall d (input : jsstring), "/"%char ∉ input ->
     parseRepoInput d input = None /\ parseSearchQuery d input = None).
Proof.
  split; [intros d; by vm_compute|]. split; [intros d; by vm_compute|].
  split; [by vm_compute|]. intros d input H.
  split; [by apply parseRepoInput_no_slash | by apply parseSearchQuery_no_slash].
Qed.

Lemma C2_witness :
  parseRepoInput github "torvalds" = None /\
  parseSearchQuery github "gitlab torvalds" = None.
Proof.
  split.
  - refine (proj1 (proj2 (proj2 (proj2 C2_single_name_target_with_repo))
                     github "torvalds" _)).
    absent.
  - refine (proj2 (proj2 (proj2 (proj2 C2_single_name_target_with_repo))
                     github "gitlab torvalds" _)).
    absent.
Defined.

(** C3. The owner, the characters of the repository name and the path of
    every target are as the claim says, and the repository name is never
    empty; but its length is not bounded by 100: a name of 101 characters
    after a/ is resolved. *)
Theorem C3_repo_name_longer_than_100 :
  (forall d, parseRepoInput d ("a/" ++ replicate 101 "b"%char)
     = Some {| platform := defaultPlatform d; owner := "a";
               repo := replicate 101 "b"%char; path := "" |}) /\
  length (replicate 101 "b"%char) = 101 /\
  (forall d (input : jsstring) t,
     parseRepoInput d input = Some t \/ parseSearchQuery d input = Some t ->
     owner_syntax (owner t) /\ repo_syntax (repo t) /\ path_syntax (path t)).
Proof.
  split; [intros d; by vm_compute|]. split; [by vm_compute|].
  intros d input t [H | H];
    [by apply parseRepoInput_syntax in H | by apply parseSearchQuery_syntax in H].
Qed.

Lemma C3_witness :
  owner_syntax "rust-lang" /\ repo_syntax "rust" /\ path_syntax "/pulls".
Proof.
  refine (proj2 (proj2 C3_repo_name_longer_than_100) github
            "rust-lang/rust/pulls"
            {| platform := "github"; owner := "rust-lang"; repo := "rust";
               path := "/pulls" |} _).
  left. by vm_compute.
Defined.

(** C4, as stated, fails on npm: its URL for the owner o and the
    repository r is https://www.npmjs.com/package/o, in which there is
    no r. *)
Lemma C4_counterexample :
  (exists config, ("npm" : jsstring, config) ∈ PLATFORMS) /\
  buildRepoUrl "npm" "o" "r" ""
    = Return (Some ("https://www.npmjs.com/package/o" : jsstring)) /\
  Js.includes "https://www.npmjs.com/package/o" "r" = false.
Proof.
  split; [|split; by vm_compute].
  eexists. unfold PLATFORMS. do 4 right. left.
Qed.

(** C4, amended.  For every platform of the table, the lookup of its domain
    returns its key, and the URL built for the owner o and the repository
    r contains o; for the platforms that are not singleName it contains
    /o/r, and for every platform but npm it contains r. *)
Theorem C4_domain_round_trip (key : jsstring) (config : PlatformConfig) :
  (key, config) ∈ PLATFORMS ->
  findPlatformByDomain (domain config) = Some key /\
  exists url, buildRepoUrl key "o" "r" "" = Return (Some url) /\
    Js.includes url "o" = true /\
    (singleName config = false -> Js.includes url "/o/r" = true) /\
    (key <> ("npm" : jsstring) -> Js.includes url "r" = true).
Proof.
  unfold PLATFORMS. intros H.
  repeat (apply elem_of_cons in H as [H | H];
          [injection H as -> ->; split; [by vm_compute|];
           eexists; split; [by vm_compute|];
           split; [by vm_compute|]; split; intros E; by vm_compute|]).
  by apply not_elem_of_nil in H.
Qed.

Lemma C4_witness :
  findPlatformByDomain "search.maven.org" = Some ("maven" : jsstring) /\
  exists url, buildRepoUrl "maven" "o" "r" "" = Return (Some url) /\
    Js.includes url "o" = true /\
    (false = false -> Js.includes url "/o/r" = true) /\
    (("maven" : jsstring) <> ("npm" : jsstring) -> Js.includes url "r" = true).
Proof.
  refine (C4_domain_round_trip "maven"
            {| name := "Maven Central";
               keywords := ["maven" : jsstring; "mvn" : jsstring;
                            "java" : jsstring];
               urlPattern :=
                 "https://search.maven.org/artifact/{owner}/{repo}{path}";
               domain := "search.maven.org"; color := "#c71a36";
               singleName := false; allowAt := false |} _).
  unfold PLATFORMS. do 11 right. left.
Defined.

(** C5. After [recordJump] at time T (a clock reading, which is not 0),
    and whatever happens in between short of a new record of the same key
    (other calls of [isRecentJump], records of other keys, timers that
    run), [isRecentJump] for that key answers true at any time strictly
    between T and T + 5000 and false at any time from T + 5000 on.  A call
    of [isRecentJump] that finds a record of 5000 ms or more deletes it. *)
Theorem C5_guard_suppression (st : ledger) (T : Z) (p o r : jsstring)
    (evs : list (Z * event)) (t : Z) :
  T <> 0%Z ->
  Forall (fun e => (fst e <= t)%Z /\ ~ records (jumpKey p o r) (snd e)) evs ->
  let st' := run evs (recordJump T p o r st) in
  ((T < t < T + 5000)%Z -> isRecentJump t p o r st' = (true, st')) /\
  ((T + 5000 <= t)%Z -> fst (isRecentJump t p o r st') = false) /\
  (forall (now lastJump : Z) (st0 : ledger),
     recentJumps st0 !! jumpKey p o r = Some lastJump -> lastJump <> 0%Z ->
     (5000 <= now - lastJump)%Z ->
     isRecentJump now p o r st0
       = (false, {| recentJumps := delete (jumpKey p o r) (recentJumps st0);
                    timers := timers st0 |})).
Proof.
  intros HT Hevs st'.
  assert (H0 : kept (jumpKey p o r) T (recordJump T p o r st)).
  { unfold kept. simpl. apply lookup_insert_eq. }
  split; [|split].
  - intros [_ Ht].
    assert (Hk : kept (jumpKey p o r) T st')
      by (eapply GuardFacts.run_kept; eauto).
    unfold isRecentJump. rewrite Hk.
    destruct (Z.eqb_spec T 0); [done|].
    destruct (Z.ltb_spec (t - T) 5000); [done | lia].
  - intros Ht.
    assert (Hk : kept_or_gone (jumpKey p o r) T st').
    { apply GuardFacts.run_kept_or_gone; [|by left].
      eapply Forall_impl; [exact Hevs|]. by intros e [_ He]. }
    unfold isRecentJump. destruct Hk as [-> | ->]; [|done].
    destruct (T =? 0)%Z; [done|].
    destruct (Z.ltb_spec (t - T) 5000); [lia | done].
  - intros now lastJump st0 Hl Hnz Hold. unfold isRecentJump. rewrite Hl.
    destruct (Z.eqb_spec lastJump 0); [done|].
    destruct (Z.ltb_spec (now - lastJump) 5000); [lia | done].
Qed.

Lemma C5_witness :
  let st := {| recentJumps := ∅; timers := [] |} in
  let evs := [ (2000%Z, IsRecent "github" "a" "b");
               (3000%Z, Record_ "gitlab" "x" "y");
               (4000%Z, IsRecent "gitlab" "x" "y") ] in
  fst (isRecentJump 4500 "github" "a" "b"
         (run evs (recordJump 1000 "github" "a" "b" st))) = true /\
  fst (isRecentJump 6000 "github" "a" "b"
         (run evs (recordJump 1000 "github" "a" "b" st))) = false.
Proof.
  intros st evs.
  assert (Hevs : forall t : Z, (4000 <= t)%Z ->
    Forall (fun e => (fst e <= t)%Z /\
                     ~ records (jumpKey "github" "a" "b") (snd e)) evs).
  { intros t Ht. repeat constructor; simpl; try lia; try tauto.
    intros H. discriminate H. }
  split.
  - rewrite (proj1 (C5_guard_suppression st 1000 "github" "a" "b" evs 4500
                      ltac:(lia) (Hevs 4500%Z ltac:(lia))) ltac:(lia)).
    reflexivity.
  - apply (proj1 (proj2 (C5_guard_suppression st 1000 "github" "a" "b" evs
                           6000 ltac:(lia) (Hevs 6000%Z ltac:(lia))))).
    lia.
Defined.

(** C6. With github as the default platform, the input microsoft/vscode
    resolves to github, microsoft, vscode and an empty path, and the URL
    built from it is https://github.com/microsoft/vscode.  In general an
    input that matches the bare owner/repo pattern resolves to the owner and
    the repository of that match on the configured default platform. *)
Theorem C6_bare_input_default_platform :
  parseRepoInput github "microsoft/vscode"
    = Some {| platform := "github"; owner := "microsoft"; repo := "vscode";
              path := "" |} /\
  buildRepoUrl "github" "microsoft" "vscode" ""
    = Return (Some ("https://github.com/microsoft/vscode" : jsstring)) /\
  forall (DEFAULT_PLATFORM : option jsstring) (input : jsstring) m,
    exec 2 REPO_PATTERN (Js.trim input) = Some m ->
    parseRepoInput DEFAULT_PLATFORM input =
      Some {| platform := defaultPlatform DEFAULT_PLATFORM;
              owner := group m 1; repo := group m 2; path := "" |}.
Proof.
  split; [by vm_compute|]. split; [by vm_compute|].
  intros d input m H. by apply bare_binds_default.
Qed.

Lemma C6_witness :
  exec 2 REPO_PATTERN (Js.trim " facebook/react ")
    = Some [Some ("facebook/react" : jsstring); Some ("facebook" : jsstring);
            Some ("react" : jsstring)] /\
  parseRepoInput (Some ("gitee" : jsstring)) " facebook/react "
    = Some {| platform := "gitee"; owner := "facebook"; repo := "react";
              path := "" |}.
Proof.
  split; [by vm_compute|].
  refine (proj2 (proj2 C6_bare_input_default_platform)
            (Some ("gitee" : jsstring)) " facebook/react "
            [Some ("facebook/react" : jsstring); Some ("facebook" : jsstring);
             Some ("react" : jsstring)] _).
  by vm_compute.
Defined.

(** C7. The input https://gitlab.com/owner/repo/issues/5 resolves to
    gitlab, owner, repo and the path /issues/5.  The URL pattern is tried
    first: whenever it matches and its host is a known platform, the
    target is the one of that match, also where the owner/repo pattern
    matches the same input (as on gitlab/owner/repo). *)
Theorem C7_full_url_precedence :
  (forall d, parseRepoInput d "https://gitlab.com/owner/repo/issues/5"
     = Some {| platform := "gitlab"; owner := "owner"; repo := "repo";
               path := "/issues/5" |}) /\
  (forall d (input : jsstring) m p,
     exec 4 FULL_URL_PATTERN (Js.trim input) = Some m ->
     findPlatformByDomain (group m 1) = Some p ->
     parseRepoInput d input =
       Some {| platform := p; owner := group m 2; repo := group m 3;
               path := default [] (capture m 4) |}) /\
  (exec 3 REPO_WITH_PATH_PATTERN "gitlab/owner/repo"
     = Some [Some ("gitlab/owner/repo" : jsstring); Some ("gitlab" : jsstring);
             Some ("owner" : jsstring); Some ("/repo" : jsstring)] /\
   forall d, parseRepoInput d "gitlab/owner/repo"
     = Some {| platform := "gitlab"; owner := "owner"; repo := "repo";
               path := "" |}).
Proof.
  split; [intros d; by vm_compute|].
  split; [intros d input m p; apply full_url_first|].
  split; [by vm_compute | intros d; by vm_compute].
Qed.

Lemma C7_witness :
  parseRepoInput github "www.Bitbucket.org/team/tool/src"
    = Some {| platform := "bitbucket"; owner := "team"; repo := "tool";
              path := "/src" |}.
Proof.
  refine (proj1 (proj2 C7_full_url_precedence) github
            "www.Bitbucket.org/team/tool/src"
            [Some ("www.Bitbucket.org/team/tool/src" : jsstring);
             Some ("Bitbucket.org" : jsstring); Some ("team" : jsstring);
             Some ("tool" : jsstring); Some ("/src" : jsstring)]
            "bitbucket" _ _); by vm_compute.
Defined.

(** C8. [buildRepoUrl] throws on a platform key that is no platform but a
    property that every object inherits, such as constructor, where the
    claim has it return null.  On the keys of the table it returns a URL,
    with empty fields too, and on every other key it returns null. *)
Theorem C8_buildRepoUrl_throws_on_inherited_key :
  registered "constructor" = None /\
  buildRepoUrl "constructor" "o" "r" "" = Throw /\
  (forall (p o r path : jsstring), registered p = None ->
     p ∉ Object_prototype -> buildRepoUrl p o r path = Return None) /\
  (forall (p o r path : jsstring) config, registered p = Some config ->
     exists url, buildRepoUrl p o r path = Return (Some url)) /\
  buildRepoUrl "github" "" "" ""
    = Return (Some ("https://github.com//" : jsstring)).
Proof.
  split; [by vm_compute|]. split; [by vm_compute|].
  split; [|split; [|by vm_compute]].
  - intros p o r path Hp Hproto. unfold buildRepoUrl, PLATFORMS_get.
    rewrite Hp.
    destruct (Js.arrayIncludes Object_prototype p) eqn:E; [|done].
    by apply JsFacts.arrayIncludes_spec in E.
  - intros p o r path config Hp. unfold buildRepoUrl, PLATFORMS_get.
    rewrite Hp. eauto.
Qed.

Lemma C8_witness :
  buildRepoUrl "sourcehut" "o" "r" "" = Return None /\
  exists url, buildRepoUrl "gitee" "o" "" "/wiki" = Return (Some url).
Proof.
  split.
  - refine (proj1 (proj2 (proj2 C8_buildRepoUrl_throws_on_inherited_key))
              "sourcehut" "o" "r" "" _ _); [by vm_compute|].
    absent.
  - refine (proj1 (proj2 (proj2 (proj2
              C8_buildRepoUrl_throws_on_inherited_key)))
              "gitee" "o" "" "/wiki" _ _). by vm_compute.
Defined.




(** C10. [findPlatformByDomain] matches by mutual substring: whenever the
    candidate, in lower case, contains the domain of some platform of the
    table or occurs in it, the lookup returns a platform, namely the first of
    the table for which that holds.  So the host o gives github, and so
    does github.com.evil.example. *)
Theorem C10_domain_lookup_by_mutual_substring :
  (forall (s : jsstring) key config,
     (key, config) ∈ PLATFORMS -> mutual_substring s config ->
     exists before key' config' after,
       PLATFORMS = before ++ (key', config') :: after /\
       findPlatformByDomain s = Some key' /\
       mutual_substring s config' /\
       Forall (fun e => ~ mutual_substring s (snd e)) before) /\
  findPlatformByDomain "o" = Some ("github" : jsstring) /\
  findPlatformByDomain "github.com.evil.example" = Some ("github" : jsstring).
Proof.
  split; [|split; by vm_compute].
  intros s key config Hin Hm. unfold findPlatformByDomain.
  destruct (JsFacts.find_is_Some
              (fun e => domain_matches (Js.toLowerCase s) (snd e))
              PLATFORMS (key, config) Hin) as [[key' config'] E].
  { simpl. by apply (RegistryFacts.domain_matches_spec s key config). }
  rewrite E. simpl.
  apply JsFacts.find_first in E as (before & after & E & Hx & HF).
  exists before, key', config', after. split; [done|]. split; [done|].
  assert (Hall : forall e, e ∈ before ++ (key', config') :: after ->
            domain_matches (Js.toLowerCase s) (snd e) = true <->
            mutual_substring s (snd e)).
  { intros [k c] He. rewrite <- E in He.
    by apply (RegistryFacts.domain_matches_spec s k c). }
  split.
  - apply (Hall (key', config')); [|done]. apply elem_of_app. right. by left.
  - apply Forall_forall. intros e He Hme.
    rewrite Forall_forall in HF. specialize (HF e He).
    apply Hall in Hme; [congruence|]. apply elem_of_app. by left.
Qed.

Lemma C10_witness :
  exists before key' config' after,
    PLATFORMS = before ++ (key', config') :: after /\
    findPlatformByDomain "Docs.PyPI.org" = Some key' /\
    mutual_substring "Docs.PyPI.org" config' /\
    Forall (fun e => ~ mutual_substring "Docs.PyPI.org" (snd e))
      before.
Proof.
  refine (proj1 C10_domain_lookup_by_mutual_substring "Docs.PyPI.org" "pypi"
            {| name := "PyPI";
               keywords := ["pypi" : jsstring; "pip" : jsstring;
                            "python" : jsstring];
               urlPattern := "https://pypi.org/project/{owner}{path}";
               domain := "pypi.org"; color := "#3775a9";
               singleName := true; allowAt := true |} _ _).
  - unfold PLATFORMS. do 6 right. left.
  - left. exists ("PyPI.org" : jsstring). split; [|reflexivity].
    exists ("Docs." : jsstring), ([] : jsstring). reflexivity.
Defined.

End Claims.

(** * Properties of the handlers *)

(** ** Template substitution *)

Module SubstFacts.
Import Js Platforms Spec MoreSpec JsFacts.

Lemma startsWith_app (p b : jsstring) : startsWith (p ++ b) p = true.
Proof. apply startsWith_spec. by exists b. Qed.

Lemma startsWith_other (c d : ascii) (s p : jsstring) :
  c <> d -> startsWith (d :: s) (c :: p) = false.
Proof. intros H. simpl. by rewrite bool_decide_eq_false_2. Qed.

Lemma getSubstitution_plain (matched before after repl : jsstring) :
  "$"%char ∉ repl -> getSubstitution matched before after repl = repl.
Proof.
  induction repl as [|c repl IH]; intros H; [done|].
  apply not_elem_of_cons in H as [Hc H].
  cbn [getSubstitution]. rewrite (IH H).
  destruct c as [[] [] [] [] [] [] [] []]; try reflexivity. done.
Qed.

(** [replace] passes over a stretch in which the pattern cannot begin. *)
Lemma replace_from_skip (c : ascii) (pat' a s repl : jsstring) :
  forall before, c ∉ a ->
  replace_from before (a ++ s) (c :: pat') repl
  = a ++ replace_from (rev a ++ before) s (c :: pat') repl.
Proof.
  induction a as [|x a IH]; intros before Ha; [done|].
  apply not_elem_of_cons in Ha as [Hx Ha].
  change ((x :: a) ++ s) with (x :: (a ++ s)).
  cbn [replace_from]. rewrite startsWith_other by done.
  rewrite IH by done. simpl. by rewrite <- app_assoc.
Qed.

(** The first placeholder is replaced by a field without dollar sign. *)
Lemma replace_hole (c : ascii) (pat' a b repl : jsstring) :
  c ∉ a -> "$"%char ∉ repl ->
  replace (a ++ (c :: pat') ++ b) (c :: pat') repl = a ++ repl ++ b.
Proof.
  intros Ha Hr. unfold replace. rewrite replace_from_skip by done.
  f_equal. unfold replace_from at 1.
  destruct ((c :: pat') ++ b) eqn:E; [done|]. rewrite <- E.
  rewrite startsWith_app, drop_app_length.
  by rewrite getSubstitution_plain.
Qed.

(** The pattern of another placeholder is not found in [{path}]. *)
Lemma replace_no_repo (a repl : jsstring) :
  "{"%char ∉ a ->
  replace (a ++ "{path}") "{repo}" repl = a ++ "{path}".
Proof.
  intros Ha. unfold replace.
  change ("{repo}" : jsstring) with ("{"%char :: ("repo}" : jsstring)).
  by rewrite replace_from_skip.
Qed.

Lemma registered_in key config :
  (key, config) ∈ PLATFORMS -> registered key = Some config.
Proof.
  unfold PLATFORMS. intros H.
  repeat (apply elem_of_cons in H as [H | H]; [by injection H as -> ->|]).
  by apply not_elem_of_nil in H.
Qed.

Lemma registered_elem key config :
  registered key = Some config -> (key, config) ∈ PLATFORMS.
Proof.
  unfold registered. destruct (List.find _ PLATFORMS) as [[k c]|] eqn:E; [|done].
  intros [= <-]. pose proof (find_some _ _ E) as [Hin Hk]. simpl in Hk.
  apply bool_decide_eq_true in Hk as <-. by apply list_elem_of_In.
Qed.

(** Every template is its prefix, the owner, then the repository after a
    slash unless the platform is singleName, then the path. *)
Lemma template_shape key config :
  (key, config) ∈ PLATFORMS ->
  ("{"%char ∉ url_prefix config) /\
  urlPattern config
  = url_prefix config ++ "{owner}"
      ++ (if singleName config then "{path}" : jsstring
          else "/{repo}{path}" : jsstring).
Proof.
  unfold PLATFORMS. intros H.
  repeat (apply elem_of_cons in H as [H | H];
          [injection H as -> ->; split; [|reflexivity];
           rewrite list_elem_of_In; vm_compute; intuition discriminate|]).
  by apply not_elem_of_nil in H.
Qed.

(** [buildRepoUrl] on fields that hold no dollar sign and no brace. *)
Lemma buildRepoUrl_plain key config (owner repo path : jsstring) :
  (key, config) ∈ PLATFORMS ->
  plain owner -> (singleName config = false -> plain repo) ->
  "$"%char ∉ path ->
  buildRepoUrl key owner repo path
  = Return (Some (target_url config owner repo path)).
Proof.
  intros Hin [Ho1 Ho2] Hrepo Hp.
  destruct (template_shape _ _ Hin) as [Hpre Ht].
  unfold buildRepoUrl, PLATFORMS_get, target_url.
  rewrite (registered_in _ _ Hin), Ht. do 2 f_equal.
  assert (Hpath : (if isEmpty path then [] else path) = path)
    by (by destruct path).
  rewrite Hpath.
  change ("{owner}" : jsstring) with ("{"%char :: ("owner}" : jsstring)).
  rewrite (replace_hole "{" "owner}") by done.
  assert (Hpo : "{"%char ∉ url_prefix config ++ owner).
  { intros H. apply elem_of_app in H as [H | H]; done. }
  destruct (singleName config).
  - rewrite app_assoc, replace_no_repo by done.
    change ("{path}" : jsstring)
      with (("{"%char :: ("path}" : jsstring)) ++ []).
    rewrite (replace_hole "{" "path}") by done.
    by rewrite app_nil_r, <- app_assoc.
  - destruct (Hrepo eq_refl) as [Hr1 Hr2].
    change ("/{repo}{path}" : jsstring)
      with (["/"%char] ++ ("{"%char :: ("repo}" : jsstring))
              ++ ("{path}" : jsstring)).
    rewrite !app_assoc, <- (app_assoc _ _ ("{path}" : jsstring)).
    rewrite (replace_hole "{" "repo}"); [|  | done].
    + change ("{path}" : jsstring)
        with (("{"%char :: ("path}" : jsstring)) ++ []).
      rewrite app_assoc, (replace_hole "{" "path}"); [| | done].
      * rewrite app_nil_r, <- !app_assoc. reflexivity.
      * intros H. apply elem_of_app in H as [H | H]; [|done].
        apply elem_of_app in H as [H | H]; [done|].
        apply list_elem_of_singleton in H. discriminate.
    + intros H. apply elem_of_app in H as [H | H]; [done|].
      apply list_elem_of_singleton in H. discriminate.
Qed.

(** *** Dollar signs in the path *)

Lemma getSubstitution_app (matched before after pre repl : jsstring) :
  "$"%char ∉ pre ->
  getSubstitution matched before after (pre ++ repl)
  = pre ++ getSubstitution matched before after repl.
Proof.
  induction pre as [|c pre IH]; intros H; [done|].
  apply not_elem_of_cons in H as [Hc H].
  change ((c :: pre) ++ repl) with (c :: (pre ++ repl)).
  cbn [getSubstitution]. rewrite (IH H).
  destruct c as [[] [] [] [] [] [] [] []]; try reflexivity. done.
Qed.

Lemma replace_hole_subst (c : ascii) (pat' a b repl : jsstring) :
  c ∉ a ->
  replace (a ++ (c :: pat') ++ b) (c :: pat') repl
  = a ++ getSubstitution (c :: pat') a b repl ++ b.
Proof.
  intros Ha. unfold replace. rewrite replace_from_skip by done.
  f_equal. unfold replace_from at 1.
  destruct ((c :: pat') ++ b) eqn:E; [done|]. rewrite <- E.
  rewrite startsWith_app, drop_app_length.
  by rewrite app_nil_r, rev_involutive.
Qed.

(** The template after the owner and the repository are filled in. *)
Lemma template_filled key config (owner repo : jsstring) :
  (key, config) ∈ PLATFORMS ->
  plain owner -> (singleName config = false -> plain repo) ->
  ("{"%char ∉ target_url config owner repo []) /\
  replace (replace (urlPattern config) "{owner}" owner) "{repo}" repo
  = target_url config owner repo [] ++ "{path}".
Proof.
  intros Hin [Ho1 Ho2] Hrepo.
  destruct (template_shape _ _ Hin) as [Hpre Ht].
  unfold target_url. rewrite Ht, !app_nil_r.
  change ("{owner}" : jsstring) with ("{"%char :: ("owner}" : jsstring)).
  rewrite (replace_hole "{" "owner}") by done.
  assert (Hpo : "{"%char ∉ url_prefix config ++ owner).
  { intros H. apply elem_of_app in H as [H | H]; done. }
  destruct (singleName config).
  - rewrite app_nil_r, app_assoc, replace_no_repo by done. done.
  - destruct (Hrepo eq_refl) as [Hr1 Hr2].
    change ("/{repo}{path}" : jsstring)
      with (["/"%char] ++ ("{"%char :: ("repo}" : jsstring))
              ++ ("{path}" : jsstring)).
    rewrite !app_assoc, <- (app_assoc _ _ ("{path}" : jsstring)).
    rewrite (replace_hole "{" "repo}"); [|  | done].
    + split; [|by simplify_list_eq].
      intros H. apply elem_of_app in H as [H | H]; [done|].
      apply elem_of_cons in H as [H | H]; [discriminate | done].
    + intros H. apply elem_of_app in H as [H | H]; [done|].
      apply list_elem_of_singleton in H. discriminate.
Qed.

(** [buildRepoUrl] on an owner and a repository that hold no dollar sign
    and no brace, and any path: the path goes through the substitution of
    [replace]. *)
Lemma buildRepoUrl_path key config (owner repo path : jsstring) :
  (key, config) ∈ PLATFORMS ->
  plain owner -> (singleName config = false -> plain repo) ->
  let base := target_url config owner repo [] in
  buildRepoUrl key owner repo path
  = Return (Some (base ++ getSubstitution "{path}" base [] path)).
Proof.
  intros Hin Ho Hrepo base.
  destruct (template_filled key config owner repo Hin Ho Hrepo) as [Hbase Ht].
  unfold buildRepoUrl, PLATFORMS_get. rewrite (registered_in _ _ Hin), Ht.
  do 2 f_equal. fold base.
  change ("{path}" : jsstring) with (("{"%char :: ("path}" : jsstring)) ++ []).
  rewrite (replace_hole_subst "{" "path}") by done.
  rewrite app_nil_r. by destruct path.
Qed.

(** A doubled dollar sign in the path comes out single, and a dollar sign
    with an ampersand comes out as the placeholder of the path. *)
Lemma buildRepoUrl_dollar key config (owner repo pre post : jsstring) :
  (key, config) ∈ PLATFORMS ->
  plain owner -> (singleName config = false -> plain repo) ->
  "$"%char ∉ pre -> "$"%char ∉ post ->
  buildRepoUrl key owner repo (pre ++ "$$" ++ post)
    = Return (Some (target_url config owner repo (pre ++ "$" ++ post))) /\
  buildRepoUrl key owner repo (pre ++ "$&" ++ post)
    = Return (Some (target_url config owner repo (pre ++ "{path}" ++ post))).
Proof.
  intros Hin Ho Hrepo Hpre Hpost.
  assert (Hurl : forall p, target_url config owner repo p
                           = target_url config owner repo [] ++ p).
  { intros p. unfold target_url. by rewrite app_nil_r, <- !app_assoc. }
  split; rewrite (buildRepoUrl_path _ _ _ _ _ Hin Ho Hrepo); cbv zeta;
    rewrite getSubstitution_app by done; do 2 f_equal;
    rewrite (Hurl (pre ++ _)); do 2 f_equal; simpl;
    by rewrite getSubstitution_plain.
Qed.

End SubstFacts.

(** ** White space around the input *)

Module TrimFacts.
Import Js Spec MoreSpec JsFacts.

Lemma trimStart_head (s : jsstring) (c : ascii) :
  head (trimStart s) = Some c -> isWhiteSpace c = false.
Proof.
  induction s as [|d s IH]; simpl; [done|].
  destruct (isWhiteSpace d) eqn:E; [done|]. by intros [= <-].
Qed.

Lemma trimStart_fixed (s : jsstring) :
  (forall c, head s = Some c -> isWhiteSpace c = false) -> trimStart s = s.
Proof. destruct s as [|d s]; simpl; [done|]. intros H. by rewrite H. Qed.

Lemma trimStart_split (s : jsstring) :
  exists ws, s = ws ++ trimStart s /\ Forall (fun c => isWhiteSpace c = true) ws.
Proof.
  induction s as [|d s (ws & E & H)]; simpl; [by exists []|].
  destruct (isWhiteSpace d) eqn:Ed; [|by exists []].
  exists (d :: ws). simpl. rewrite <- E. auto.
Qed.

Lemma last_rev (s : jsstring) : last (rev s) = head s.
Proof. destruct s as [|d s]; simpl; [done|]. apply last_snoc. Qed.

Lemma head_rev (s : jsstring) : head (rev s) = last s.
Proof. by rewrite <- (rev_involutive s) at 2; rewrite last_rev. Qed.

Lemma trimEnd_last (s : jsstring) (c : ascii) :
  last (trimEnd s) = Some c -> isWhiteSpace c = false.
Proof. unfold trimEnd. rewrite last_rev. apply trimStart_head. Qed.

Lemma trimEnd_fixed (s : jsstring) :
  (forall c, last s = Some c -> isWhiteSpace c = false) -> trimEnd s = s.
Proof.
  intros H. unfold trimEnd. rewrite trimStart_fixed, rev_involutive; [done|].
  intros c. rewrite head_rev. apply H.
Qed.

Lemma trimEnd_split (s : jsstring) :
  exists ws, s = trimEnd s ++ ws /\ Forall (fun c => isWhiteSpace c = true) ws.
Proof.
  unfold trimEnd. destruct (trimStart_split (rev s)) as (ws & E & H).
  exists (rev ws). split.
  - rewrite <- rev_app_distr, <- E. by rewrite rev_involutive.
  - apply Forall_forall. intros c Hc. rewrite Forall_forall in H.
    by apply H, ResolverFacts.elem_of_rev.
Qed.

Lemma trimEnd_head (s : jsstring) (c : ascii) :
  head (trimEnd s) = Some c -> head s = Some c.
Proof.
  destruct (trimEnd_split s) as (ws & E & _). intros H.
  rewrite E. destruct (trimEnd s); [done|]. exact H.
Qed.

(** What [trim] returns has no white space at either end. *)
Lemma trim_trimmed (s : jsstring) : trimmed (trim s).
Proof.
  unfold trim. split; [|apply trimEnd_last].
  intros c H. apply trimEnd_head in H. by apply trimStart_head in H.
Qed.

Lemma trim_fixed (s : jsstring) : trimmed s -> trim s = s.
Proof.
  intros [Hh Hl]. unfold trim. rewrite (trimStart_fixed s Hh).
  by apply trimEnd_fixed.
Qed.

Lemma trim_idempotent (s : jsstring) : trim (trim s) = trim s.
Proof. apply trim_fixed, trim_trimmed. Qed.

(** [trim] cuts white space off both ends and nothing else. *)
Lemma trim_split (s : jsstring) :
  exists ws1 ws2, s = ws1 ++ trim s ++ ws2 /\
    Forall (fun c => isWhiteSpace c = true) ws1 /\
    Forall (fun c => isWhiteSpace c = true) ws2.
Proof.
  destruct (trimStart_split s) as (ws1 & E1 & H1).
  destruct (trimEnd_split (trimStart s)) as (ws2 & E2 & H2).
  exists ws1, ws2. unfold trim. by rewrite <- E2.
Qed.

Lemma trimStart_pad (ws s : jsstring) :
  Forall (fun c => isWhiteSpace c = true) ws -> trimStart (ws ++ s) = trimStart s.
Proof. induction 1 as [|c ws Hc _ IH]; [done|]. simpl. by rewrite Hc. Qed.

Lemma trimEnd_pad (s ws : jsstring) :
  Forall (fun c => isWhiteSpace c = true) ws -> trimEnd (s ++ ws) = trimEnd s.
Proof.
  intros H. unfold trimEnd. rewrite rev_app_distr, trimStart_pad; [done|].
  by apply Forall_rev.
Qed.

(** White space around a string does not change what [trim] leaves. *)
Lemma trim_pad (ws1 s ws2 : jsstring) :
  Forall (fun c => isWhiteSpace c = true) ws1 ->
  Forall (fun c => isWhiteSpace c = true) ws2 ->
  trim (ws1 ++ s ++ ws2) = trim s.
Proof.
  intros H1 H2. unfold trim. rewrite trimStart_pad by done.
  destruct (trimStart_split s) as (w & E & Hw).
  rewrite E at 1. rewrite <- app_assoc, trimStart_pad by done.
  destruct (trimStart s) as [|c r] eqn:Es.
  - simpl. rewrite <- (app_nil_r ws2), trimStart_pad by done. done.
  - assert (Hc : isWhiteSpace c = false)
      by (apply (trimStart_head s); by rewrite Es).
    simpl. rewrite Hc. by rewrite app_comm_cons, trimEnd_pad.
Qed.

End TrimFacts.

(** ** More on the resolver *)

Module ResolverMore.
Import Js Regex Platforms Spec MoreSpec JsFacts PatternFacts ResolverFacts.
Import SubstFacts TrimFacts.

(** [parseRepoInput] reads the input up to the white space around it. *)
Lemma parseRepoInput_trim d (input : jsstring) :
  parseRepoInput d (trim input) = parseRepoInput d input.
Proof.
  unfold parseRepoInput. rewrite trim_idempotent.
  destruct input as [|c input]; [done|].
  by destruct (trim (c :: input)).
Qed.

Lemma parseSearchQuery_trim d (query : jsstring) :
  parseSearchQuery d (trim query) = parseSearchQuery d query.
Proof.
  unfold parseSearchQuery. rewrite trim_idempotent.
  destruct query as [|c query]; [done|].
  by destruct (trim (c :: query)).
Qed.

Lemma find_elem {A} (f : A -> bool) (l : list A) (x : A) :
  List.find f l = Some x -> x ∈ l.
Proof. intros H. apply find_some in H as [H _]. by apply list_elem_of_In. Qed.

Lemma findPlatformByDomain_elem (s key : jsstring) :
  findPlatformByDomain s = Some key -> exists config, (key, config) ∈ PLATFORMS.
Proof.
  unfold findPlatformByDomain.
  destruct (List.find _ PLATFORMS) as [[k c]|] eqn:E; [|done].
  intros [= <-]. exists c. by apply find_elem in E.
Qed.

Lemma findPlatformByKeyword_elem (s key : jsstring) :
  findPlatformByKeyword s = Some key ->
  exists config, (key, config) ∈ PLATFORMS.
Proof.
  unfold findPlatformByKeyword.
  destruct (List.find _ PLATFORMS) as [[k c]|] eqn:E; [|done].
  intros [= <-]. exists c. by apply find_elem in E.
Qed.

Lemma defaultPlatform_elem d :
  default_registered d -> exists config, (defaultPlatform d, config) ∈ PLATFORMS.
Proof.
  destruct d as [key|]; simpl; [done|]. intros _.
  eexists. unfold defaultPlatform, PLATFORMS. simpl. left.
Qed.

(** The platform of a target is a key of the table, when the default is. *)
Lemma parseRepoInput_platform d (input : jsstring) t :
  default_registered d -> parseRepoInput d input = Some t ->
  exists config, (platform t, config) ∈ PLATFORMS.
Proof.
  intros Hd. unfold parseRepoInput, parseFullUrl.
  destruct (isEmpty input); [done|].
  destruct (isEmpty (trim input)); [done|].
  destruct (exec 4 FULL_URL_PATTERN (trim input)) as [m|].
  - destruct (findPlatformByDomain (group m 1)) as [p|] eqn:Ep.
    { intros [= <-]. simpl. by apply findPlatformByDomain_elem in Ep. }
    destruct (exec 3 REPO_WITH_PATH_PATTERN (trim input)).
    { intros [= <-]. by apply defaultPlatform_elem. }
    destruct (exec 2 REPO_PATTERN (trim input)); [|done].
    intros [= <-]. by apply defaultPlatform_elem.
  - destruct (exec 3 REPO_WITH_PATH_PATTERN (trim input)).
    { intros [= <-]. by apply defaultPlatform_elem. }
    destruct (exec 2 REPO_PATTERN (trim input)); [|done].
    intros [= <-]. by apply defaultPlatform_elem.
Qed.

Lemma detectPlatform_elem d (q : jsstring) :
  default_registered d ->
  exists config, (fst (detectPlatform d q), config) ∈ PLATFORMS.
Proof.
  intros Hd. unfold detectPlatform.
  destruct (2 <=? length (split_ws q)); [|by apply defaultPlatform_elem].
  destruct (findPlatformByKeyword (default [] (head (split_ws q)))) eqn:E1.
  { simpl. by apply findPlatformByKeyword_elem in E1. }
  destruct (findPlatformByKeyword (default [] (last (split_ws q)))) eqn:E2.
  { simpl. by apply findPlatformByKeyword_elem in E2. }
  by apply defaultPlatform_elem.
Qed.

Lemma parseSearchQuery_platform d (query : jsstring) t :
  default_registered d -> parseSearchQuery d query = Some t ->
  exists config, (platform t, config) ∈ PLATFORMS.
Proof.
  intros Hd. unfold parseSearchQuery.
  destruct (isEmpty query); [done|].
  destruct (isEmpty (trim query)); [done|].
  pose proof (detectPlatform_elem d (trim query) Hd) as H.
  destruct (detectPlatform d (trim query)) as [p clean].
  destruct (parseRepoInput d clean); [|done]. by intros [= <-].
Qed.

Lemma alnum_dash_plain c :
  is_alnum_dash c -> c <> "$"%char /\ c <> "{"%char.
Proof. intros H. split; intros ->; vm_compute in H; discriminate. Qed.

Lemma repo_char_plain c :
  is_repo_char c -> c <> "$"%char /\ c <> "{"%char.
Proof. intros H. split; intros ->; vm_compute in H; discriminate. Qed.

Lemma owner_word_plain o : owner_word o -> plain o.
Proof.
  intros Ho. apply owner_word_chars in Ho. rewrite Forall_forall in Ho.
  split; intros Hin; by destruct (alnum_dash_plain _ (Ho _ Hin)).
Qed.

Lemma repo_word_plain r : repo_word r -> plain r.
Proof.
  intros [_ Hr]. rewrite Forall_forall in Hr.
  split; intros Hin; by destruct (repo_char_plain _ (Hr _ Hin)).
Qed.

(** What the resolver returns can be built into a URL. *)
Lemma resolved_target_builds d (input : jsstring) t :
  default_registered d ->
  parseRepoInput d input = Some t \/ parseSearchQuery d input = Some t ->
  exists config url, (platform t, config) ∈ PLATFORMS /\
    buildRepoUrl (platform t) (owner t) (repo t) (path t) = Return (Some url) /\
    ("$"%char ∉ path t ->
     url = target_url config (owner t) (repo t) (path t)).
Proof.
  intros Hd H.
  assert (Hp : exists config, (platform t, config) ∈ PLATFORMS).
  { destruct H as [H | H];
      [by eapply parseRepoInput_platform | by eapply parseSearchQuery_platform]. }
  assert (Hw : owner_word (owner t) /\ repo_word (repo t)).
  { destruct H as [H | H].
    - by apply parseRepoInput_inv in H as (pre & _ & Ho & Hr & _).
    - apply parseSearchQuery_inv in H as (i & t0 & H & -> & -> & _).
      by apply parseRepoInput_inv in H as (pre & _ & Ho & Hr & _). }
  destruct Hp as [config Hin], Hw as [Ho Hr].
  exists config.
  destruct (decide ("$"%char ∈ path t)) as [Hdollar | Hplain].
  - unfold buildRepoUrl, PLATFORMS_get. rewrite (registered_in _ _ Hin).
    eexists. split; [done|]. split; [done|]. done.
  - exists (target_url config (owner t) (repo t) (path t)).
    split; [done|]. split; [|done].
    apply buildRepoUrl_plain; auto using owner_word_plain, repo_word_plain.
Qed.

(** [findPlatformByKeyword] finds the platform that has the keyword, in any
    case; no keyword belongs to two platforms. *)
Lemma findPlatformByKeyword_spec (k key : jsstring) :
  findPlatformByKeyword k = Some key <->
  exists config, (key, config) ∈ PLATFORMS /\ toLowerCase k ∈ keywords config.
Proof.
  split.
  - unfold findPlatformByKeyword.
    destruct (List.find _ PLATFORMS) as [[key' c]|] eqn:E; [|done].
    intros [= <-]. exists c. apply find_some in E as [Hin Hk].
    split; [by apply list_elem_of_In | by apply arrayIncludes_spec].
  - intros (config & Hin & Hk). unfold findPlatformByKeyword.
    unfold PLATFORMS in Hin.
    repeat (apply elem_of_cons in Hin as [Hin | Hin];
      [injection Hin as -> ->; simpl in Hk;
       repeat (apply elem_of_cons in Hk as [Hk | Hk];
               [by rewrite Hk|]);
       by apply not_elem_of_nil in Hk|]).
    by apply not_elem_of_nil in Hin.
Qed.

Lemma split_ws_from_single (s : jsstring) : forall acc,
  Forall (fun c => isWhiteSpace c = false) s ->
  split_ws_from false acc s = [rev acc ++ s].
Proof.
  induction s as [|c s IH]; intros acc H; simpl.
  - by rewrite app_nil_r.
  - apply Forall_cons in H as [Hc H]. rewrite Hc, IH by done.
    simpl. by rewrite <- app_assoc.
Qed.

Lemma split_ws_from_word (a rest : jsstring) : forall acc,
  Forall (fun c => isWhiteSpace c = false) a ->
  split_ws_from false acc (a ++ rest) = split_ws_from false (rev a ++ acc) rest.
Proof.
  induction a as [|c a IH]; intros acc H; [done|].
  apply Forall_cons in H as [Hc H]. simpl. rewrite Hc, IH by done.
  by rewrite <- app_assoc.
Qed.

Lemma split_ws_from_separator (ws rest acc : jsstring) :
  Forall (fun c => isWhiteSpace c = true) ws ->
  split_ws_from true acc (ws ++ rest) = split_ws_from true acc rest.
Proof.
  induction ws as [|c ws IH]; intros H; [done|].
  apply Forall_cons in H as [Hc H]. simpl. rewrite Hc. by apply IH.
Qed.

(** Two words with white space between them are split into the two. *)
Lemma split_ws_two (a sep b : jsstring) :
  word a -> separator sep -> word b -> split_ws (a ++ sep ++ b) = [a; b].
Proof.
  intros [_ Ha] [Hs1 Hs] [Hb1 Hb]. unfold split_ws.
  rewrite split_ws_from_word by done. rewrite app_nil_r.
  destruct sep as [|c sep]; [done|]. apply Forall_cons in Hs as [Hc Hs].
  simpl. rewrite Hc, rev_involutive, split_ws_from_separator by done.
  destruct b as [|x b]; [done|]. apply Forall_cons in Hb as [Hx Hb].
  simpl. rewrite Hx. by rewrite split_ws_from_single.
Qed.

Lemma word_trimmed (a sep b : jsstring) :
  word a -> word b -> trim (a ++ sep ++ b) = a ++ sep ++ b.
Proof.
  intros [Ha1 Ha] [Hb1 Hb]. apply trim_fixed. split.
  - destruct a as [|x a]; [done|]. apply Forall_cons in Ha as [Hx _].
    by intros c [= <-].
  - intros c Hc. destruct (last b) as [y|] eqn:El.
    + rewrite !last_app, El in Hc. injection Hc as <-.
      rewrite Forall_forall in Hb. apply Hb. by eapply last_Some_elem_of.
    + by apply last_None in El.
Qed.

Lemma parseSearchQuery_two_words d (a sep b : jsstring) :
  word a -> separator sep -> word b ->
  parseSearchQuery d (a ++ sep ++ b)
  = match findPlatformByKeyword a, findPlatformByKeyword b with
    | Some p, _ => on_platform p <$> parseRepoInput d b
    | None, Some p => on_platform p <$> parseRepoInput d a
    | None, None =>
        on_platform (defaultPlatform d) <$> parseRepoInput d (a ++ sep ++ b)
    end.
Proof.
  intros Ha Hs Hb. unfold parseSearchQuery, detectPlatform.
  rewrite word_trimmed, split_ws_two by done. simpl.
  assert (Hne : isEmpty (a ++ sep ++ b) = false).
  { destruct Ha as [Ha _]. by destruct a. }
  rewrite Hne. unfold slice_init. simpl.
  destruct (findPlatformByKeyword a); [by destruct (parseRepoInput d b)|].
  destruct (findPlatformByKeyword b); [by destruct (parseRepoInput d a)|].
  by destruct (parseRepoInput d (a ++ sep ++ b)).
Qed.

(** A query of one word is resolved as [parseRepoInput] resolves it, but
    always on the default platform, whatever host the word names. *)
Lemma parseSearchQuery_one_word d (query : jsstring) :
  Forall (fun c => isWhiteSpace c = false) (trim query) ->
  parseSearchQuery d query
  = on_platform (defaultPlatform d) <$> parseRepoInput d query.
Proof.
  intros H. rewrite <- (parseRepoInput_trim d query).
  unfold parseSearchQuery, detectPlatform, split_ws.
  rewrite split_ws_from_single by done. simpl.
  destruct query as [|c query]; [done|]. simpl isEmpty.
  destruct (trim (c :: query)) eqn:E; [done|]. simpl isEmpty. cbv iota.
  by destruct (parseRepoInput d (a :: l)).
Qed.

End ResolverMore.

(** ** From a target to its URL and back *)

Module RoundTrip.
Import Js Regex Platforms Spec MoreSpec JsFacts RegexFacts PatternFacts.
Import ResolverFacts SubstFacts TrimFacts ResolverMore.

Lemma host_char_not_slash c : is_host_char c -> c <> "/"%char.
Proof. intros H ->. vm_compute in H. discriminate. Qed.

Lemma host_no_slash (h : jsstring) : Forall is_host_char h -> "/"%char ∉ h.
Proof.
  intros Hh Hin. rewrite Forall_forall in Hh.
  by apply Hh, host_char_not_slash in Hin.
Qed.

(** The optional scheme and the optional www of the URL pattern. *)
Lemma sem_scheme pos w rest cs cs' :
  sem (Opt (lits "h" "ttp" >+ Repeat 0 (Some 1) (Lit "s") >+ lits ":" "//"))
    pos w rest cs cs' <->
  (w = [] \/ w = ("http://" : jsstring) \/ w = ("https://" : jsstring))
  /\ cs' = cs.
Proof.
  cbn [sem]. split.
  - intros [[-> ->] | [_ (a & b & cs1 & -> & Ha & c & e & cs2 & -> & Hc & He)]];
      [auto|].
    apply sem_lits in Ha as [-> ->]. apply sem_lits in He as [-> ->].
    destruct Hc as [(HF & _ & Hlen) ->]. split; [|done]. right.
    destruct c as [|x [|y c]]; simpl in Hlen; [by left | | lia].
    apply Forall_cons in HF as [Hx _].
    apply bool_decide_eq_true in Hx as <-. by right.
  - intros [[-> | [-> | ->]] ->]; [by left | right | right]; (split; [done|]).
    + exists ("http" : jsstring), ("://" : jsstring), cs.
      split; [done|]. split; [by apply sem_lits|].
      exists [], ("://" : jsstring), cs. split; [done|].
      split; [|by apply sem_lits]. split; [|done].
      split; [done|]. simpl. lia.
    + exists ("http" : jsstring), ("s://" : jsstring), cs.
      split; [done|]. split; [by apply sem_lits|].
      exists ["s"%char], ("://" : jsstring), cs. split; [done|].
      split; [|by apply sem_lits]. split; [|done].
      split; [by repeat constructor|]. simpl. lia.
Qed.

Lemma sem_www pos w rest cs cs' :
  sem (Opt (lits "w" "ww.")) pos w rest cs cs' <->
  (w = [] \/ w = ("www." : jsstring)) /\ cs' = cs.
Proof.
  cbn [sem]. split.
  - intros [[-> ->] | [_ H]]; [auto|]. apply sem_lits in H as [-> ->]. auto.
  - intros [[-> | ->] ->]; [by left|]. right. split; [done|].
    by apply sem_lits.
Qed.

(** What the URL pattern accepts, part by part. *)
Lemma sem_FULL_URL_parts w rest cs' :
  sem FULL_URL_PATTERN 0 w rest (replicate 5 None) cs' <->
  rest = [] /\ exists scheme www h o r p,
    (scheme = [] \/ scheme = ("http://" : jsstring)
     \/ scheme = ("https://" : jsstring)) /\
    (www = [] \/ www = ("www." : jsstring)) /\
    1 <= length h /\ Forall is_host_char h /\
    owner_word o /\ repo_word r /\ path_capture p /\
    w = scheme ++ www ++ h ++ "/"%char :: o ++ "/"%char :: r ++ default [] p /\
    cs' = [None; Some h; Some o; Some r; p].
Proof.
  unfold FULL_URL_PATTERN. split.
  - intros (w0 & w1 & cs0 & -> & (_ & -> & ->) & H).
    destruct H as (scheme & w2 & cs1 & -> & Hscheme & H).
    apply sem_scheme in Hscheme as [Hscheme ->].
    destruct H as (www & w3 & cs2 & -> & Hwww & H).
    apply sem_www in Hwww as [Hwww ->].
    destruct H as (h & w4 & cs3 & -> & (cs4 & [(HhF & Hhlo & _) ->] & ->) & H).
    destruct H as (w5 & w6 & cs5 & -> & Hs & H).
    apply sem_chr in Hs as [-> ->].
    destruct H as (o & w7 & cs6 & -> & (cs7 & Ho & ->) & H).
    apply sem_OWNER in Ho as [Ho ->].
    destruct H as (w8 & w9 & cs8 & -> & Hs & H).
    apply sem_chr in Hs as [-> ->].
    destruct H as (r & w10 & cs9 & -> & (cs10 & [(HF & Hlo & _) ->] & ->) & H).
    destruct H as (pw & w11 & cs11 & -> & Hp & (-> & -> & ->)).
    split; [done|]. rewrite app_nil_r.
    assert (Hrepo : repo_word r) by (split; done).
    apply sem_PATH in Hp as [[-> ->] | (q & -> & Hq & ->)].
    + exists scheme, www, h, o, r, None. simpl. auto 12.
    + exists scheme, www, h, o, r, (Some ("/"%char :: q)). simpl.
      do 6 (split; [done|]). split; [eauto|]. done.
  - intros (-> & scheme & www & h & o & r & p &
            Hscheme & Hwww & Hh1 & Hh & Ho & [Hr1 Hr] & Hp & -> & ->).
    exists [], (scheme ++ www ++ h ++ "/"%char :: o ++ "/"%char :: r
                  ++ default [] p), (replicate 5 None).
    split; [done|]. split; [done|].
    eexists scheme, _, (replicate 5 None). split; [done|].
    split; [by apply sem_scheme|].
    eexists www, _, (replicate 5 None). split; [done|].
    split; [by apply sem_www|].
    eexists h, _, [None; Some h; None; None; None]. split; [done|]. split.
    { exists (replicate 5 None). split; [|done]. split; [|done]. simpl. auto. }
    eexists ["/"%char], _, [None; Some h; None; None; None].
    split; [done|]. split; [by apply sem_chr|].
    eexists o, _, [None; Some h; Some o; None; None]. split; [done|]. split.
    { exists [None; Some h; None; None; None].
      split; [by apply sem_OWNER|]. done. }
    eexists ["/"%char], _, [None; Some h; Some o; None; None].
    split; [done|]. split; [by apply sem_chr|].
    eexists r, _, [None; Some h; Some o; Some r; None]. split; [done|]. split.
    { exists [None; Some h; Some o; None; None]. split; [|done].
      split; [|done]. simpl. auto. }
    exists (default [] p), [], [None; Some h; Some o; Some r; p].
    split; [by rewrite app_nil_r|]. split; [|done].
    apply sem_PATH. destruct p as [pw|]; simpl; [|by left].
    destruct Hp as (q & -> & Hq). right. eauto.
Qed.

(** The match of an https URL whose host does not begin with www. *)
Lemma exec_https_url (dom o r : jsstring) (p : option jsstring) :
  1 <= length dom -> Forall is_host_char dom ->
  (forall x, dom <> ("www." : jsstring) ++ x) ->
  owner_word o -> repo_word r -> path_capture p ->
  let s := ("https://" : jsstring) ++ dom
             ++ "/"%char :: o ++ "/"%char :: r ++ default [] p in
  exec 4 FULL_URL_PATTERN s = Some [Some s; Some dom; Some o; Some r; p].
Proof.
  intros Hd1 Hd Hwww Ho Hr Hp s.
  assert (Hsem : sem FULL_URL_PATTERN 0 s [] (replicate 5 None)
                   [None; Some dom; Some o; Some r; p]).
  { apply sem_FULL_URL_parts. split; [done|].
    exists ("https://" : jsstring), [], dom, o, r, p. auto 12. }
  destruct (exec_complete 4 _ _ _ _ Hsem) as [m E].
  rewrite app_nil_r in E. unfold FULL_URL_PATTERN. rewrite E. f_equal.
  apply exec_sound in E as (w & rest & cs' & E & H & ->).
  apply sem_FULL_URL_parts in H
    as (-> & scheme & www & h & o' & r' & p' &
        Hscheme & Hw & Hh1 & Hh & Ho' & Hr' & Hp' & -> & ->).
  rewrite app_nil_r in E. rewrite E.
  assert (Hnd : "/"%char ∉ dom) by (by apply host_no_slash).
  assert (Hnh : "/"%char ∉ h) by (by apply host_no_slash).
  assert (Hrest : www ++ h ++ "/"%char :: o' ++ "/"%char :: r' ++ default [] p'
                  = dom ++ "/"%char :: o ++ "/"%char :: r ++ default [] p).
  { unfold s in E. destruct Hscheme as [-> | [-> | ->]].
    - exfalso. destruct Hw as [-> | ->]; [|simpl in E; discriminate].
      assert (Hc : "/"%char ∉ ("https:" : jsstring))
        by (rewrite list_elem_of_In; simpl; intuition discriminate).
      destruct (split_unique "/" ("https:" : jsstring) h
                  ("/"%char :: dom ++ "/"%char :: o ++ "/"%char :: r
                     ++ default [] p)
                  (o' ++ "/"%char :: r' ++ default [] p') Hc Hnh E)
        as [<- _].
      repeat (apply Forall_cons in Hh as [? Hh]). done.
    - exfalso. simpl in E. discriminate.
    - symmetry. by simplify_list_eq. }
  assert (Hhost : h = dom /\
            o' ++ "/"%char :: r' ++ default [] p'
            = o ++ "/"%char :: r ++ default [] p).
  { destruct Hw as [-> | ->].
    - by apply split_unique in Hrest.
    - exfalso. rewrite app_assoc in Hrest.
      apply split_unique in Hrest as [Hrest _]; [by eapply Hwww | | done].
      intros H. apply elem_of_app in H as [H | H]; [|done].
      rewrite list_elem_of_In in H. simpl in H. intuition discriminate. }
  destruct Hhost as [-> Hrest2].
  apply split_unique in Hrest2 as [-> Hrest2];
    [| by apply owner_word_no_slash ..].
  by apply repo_path_unique in Hrest2 as [-> ->].
Qed.

(** The hosting platforms of the table: github, gitlab, bitbucket, gitee
    and zerocat. *)
Lemma hosting_facts key config :
  (key, config) ∈ PLATFORMS -> hosting_template config ->
  singleName config = false /\
  url_prefix config = ("https://" : jsstring) ++ domain config ++ ["/"%char] /\
  1 <= length (domain config) /\ Forall is_host_char (domain config) /\
  (forall x, domain config <> ("www." : jsstring) ++ x) /\
  findPlatformByDomain (domain config) = Some key.
Proof.
  unfold PLATFORMS, hosting_template. intros H Ht.
  repeat (apply elem_of_cons in H as [H | H];
    [injection H as -> ->;
     first
       [ exfalso; pose proof (bool_decide_eq_true_2 _ Ht) as Hb;
         vm_compute in Hb; discriminate Hb
       | split; [reflexivity|]; split; [reflexivity|];
         split; [simpl; lia|]; split; [by repeat constructor|];
         split; [intros x Hx; simpl in Hx; discriminate Hx | reflexivity] ]|]).
  by apply not_elem_of_nil in H.
Qed.

Lemma trimmed_url (body : jsstring) (c : ascii) :
  last body = Some c -> isWhiteSpace c = false ->
  trim (("https://" : jsstring) ++ body) = ("https://" : jsstring) ++ body.
Proof.
  intros Hl Hc. apply trim_fixed. split.
  - intros x [= <-]. reflexivity.
  - intros x Hx. apply last_Some in Hl as [l' ->].
    rewrite app_assoc, last_snoc in Hx. by injection Hx as <-.
Qed.

(** The URL built from a target on a hosting platform resolves to that
    target. *)
Lemma build_then_parse d d' (input : jsstring) t config :
  parseRepoInput d input = Some t ->
  (platform t, config) ∈ PLATFORMS -> hosting_template config ->
  "$"%char ∉ path t ->
  exists url,
    buildRepoUrl (platform t) (owner t) (repo t) (path t) = Return (Some url) /\
    parseRepoInput d' url = Some t.
Proof.
  intros Hparse Hin Ht Hdollar.
  destruct (hosting_facts _ _ Hin Ht) as (Hs & Hpre & Hd1 & Hd & Hwww & Hfind).
  pose proof (trim_trimmed input) as [_ Hlast].
  apply parseRepoInput_inv in Hparse as (pre & E & Ho & Hr & Hp).
  exists (target_url config (owner t) (repo t) (path t)). split.
  { apply buildRepoUrl_plain;
      auto using owner_word_plain, repo_word_plain. }
  destruct t as [p o r pa]. simpl in *.
  assert (Hurl : target_url config o r pa
                 = ("https://" : jsstring)
                     ++ (domain config ++ "/"%char :: o ++ "/"%char :: r ++ pa)).
  { unfold target_url. rewrite Hs, Hpre. by simplify_list_eq. }
  rewrite Hurl. clear Hurl.
  set (pc := if isEmpty pa then None else Some pa).
  assert (Hpa : default [] pc = pa) by (by destruct pa).
  assert (Hpc : path_capture pc).
  { destruct pa as [|x pa]; [done|]. simpl.
    by destruct Hp as [Hp | (q & Hp & Hq)]; [|exists q]. }
  assert (Hl : exists c, last (domain config ++ "/"%char :: o ++ "/"%char :: r
                                 ++ pa) = Some c /\ isWhiteSpace c = false).
  { destruct (last (r ++ pa)) as [c|] eqn:El.
    - exists c. apply last_Some in El as [l' El]. split.
      + rewrite El.
        replace (domain config ++ "/"%char :: o ++ "/"%char :: l' ++ [c])
          with ((domain config ++ "/"%char :: o ++ "/"%char :: l') ++ [c])
          by (by simplify_list_eq).
        apply last_snoc.
      + apply Hlast. rewrite E, El.
        replace (pre ++ o ++ "/"%char :: l' ++ [c])
          with ((pre ++ o ++ "/"%char :: l') ++ [c])
          by (by simplify_list_eq).
        apply last_snoc.
    - apply last_None in El. destruct Hr as [Hr _].
      destruct r; [simpl in Hr; lia | done]. }
  destruct Hl as (c & Hl & Hc).
  pose proof (exec_https_url (domain config) o r pc Hd1 Hd Hwww Ho Hr Hpc)
    as Hexec.
  rewrite Hpa in Hexec. simpl in Hexec.
  unfold parseRepoInput, parseFullUrl.
  change (isEmpty ("h"%char :: ?x)) with false. cbv iota.
  rewrite (trimmed_url _ c Hl Hc). simpl app. cbv iota.
  rewrite Hexec. unfold group, capture. simpl.
  by rewrite Hfind, Hpa.
Qed.

End RoundTrip.

(** ** The dispatcher *)

Module DispatchFacts.
Import Js Platforms Background Spec MoreSpec Handlers HandlerSpec.
Import JsFacts SubstFacts.

(** The URL that [openRepoUnified_full] returns is the one of the shorter
    model used for the listener of failed lookups. *)
Lemma openRepoUnified_full_url (now : Z) (p : params) :
  match openRepoUnified_full now p with
  | Return (url, _) => url
  | Throw => None
  end = openRepoUnified (target p).
Proof.
  unfold openRepoUnified_full, openRepoUnified.
  destruct (isEmpty (platform (target p)) || isEmpty (owner (target p)));
    [done|].
  unfold buildRepoUrl.
  destruct (PLATFORMS_get (platform (target p))) as [config| |]; [|done..].
  match goal with |- context [isEmpty ?u] => destruct (isEmpty u) end;
    [done|].
  destruct (equals _ "currentTab" && truthyNumber (tabId p)); [done|].
  by destruct (equals _ "newBackgroundTab").
Qed.

(** [openRepoUnified] asks for one page, the URL that it returns, and for
    nothing when it returns null.  It stores where the jump came from only
    in the autoJump mode and only when it sends the tab of the search
    there; without a tab id it never updates a tab. *)
Lemma openRepoUnified_effects (now : Z) (p : params) url effects :
  openRepoUnified_full now p = Return (url, effects) ->
  match url with
  | None => effects = []
  | Some repoUrl =>
      buildRepoUrl (platform (target p)) (owner (target p)) (repo (target p))
        (path (target p)) = Return (Some repoUrl) /\
      exists stores nav, effects = stores ++ [nav] /\
        navigation_to repoUrl nav /\
        (truthyNumber (tabId p) = false -> exists active, nav = TabsCreate repoUrl active) /\
        (stores = [] \/
         exists tab source platformName,
           stores = [StoreRepoSource tab source platformName now] /\
           tabId p = Some tab /\ sourceUrl p = Some source /\
           searchRedirectMode p = Some ("autoJump" : jsstring) /\
           nav = TabsUpdate (Some tab) repoUrl)
  end.
Proof.
  unfold openRepoUnified_full.
  destruct (isEmpty (platform (target p)) || isEmpty (owner (target p)));
    [by intros [= <- <-]|].
  destruct (buildRepoUrl _ _ _ _) as [[repoUrl|]|] eqn:Eb;
    [|by intros [= <- <-] | done].
  destruct (isEmpty repoUrl); [by intros [= <- <-]|].
  destruct (PLATFORMS_get (platform (target p))) as [config| |]; [|done..].
  destruct (equals _ "currentTab" && truthyNumber (tabId p)) eqn:Ec.
  - apply andb_true_iff in Ec as [_ Etab].
    destruct (truthyString (sourceUrl p)
              && equals (searchRedirectMode p) "autoJump") eqn:Es;
      intros [= <- <-]; (split; [done|]).
    + apply andb_true_iff in Es as [Hsrc Hmode].
      destruct (tabId p) as [tab|]; [|done].
      destruct (sourceUrl p) as [source|]; [|done].
      destruct (searchRedirectMode p) as [mode|]; [|done].
      apply bool_decide_eq_true in Hmode as ->.
      exists [StoreRepoSource tab source (name config) now],
        (TabsUpdate (Some tab) repoUrl).
      split; [done|]. split; [left; eauto|].
      split; [by rewrite Etab|]. right. eauto 10.
    + exists [], (TabsUpdate (tabId p) repoUrl). split; [done|].
      split; [left; eauto|]. split; [by rewrite Etab | by left].
  - destruct (equals _ "newBackgroundTab"); intros [= <- <-];
      (split; [done|]); eexists [], _; (split; [done|]);
      (split; [right; eauto|]); (split; [eauto | by left]).
Qed.

End DispatchFacts.

(** ** The listener for searches *)

Module SearchFacts.
Import Js Platforms Background Spec MoreSpec Handlers HandlerSpec.
Import JsFacts DispatchFacts.

Lemma searchParams_get_spec ps (name value : jsstring) :
  searchParams_get ps name = Some value <-> first_value ps name value.
Proof.
  unfold searchParams_get, first_value. split.
  - destruct (List.find _ ps) as [[n v]|] eqn:E; [|done]. intros [= <-].
    apply find_first in E as (before & after & -> & Hn & HF).
    apply bool_decide_eq_true in Hn. simpl in Hn. subst n.
    exists before, after. split; [done|].
    eapply Forall_impl; [exact HF|]. intros e He.
    by apply bool_decide_eq_false in He.
  - intros (before & after & -> & HF).
    assert (E : List.find (fun e => eqb (fst e) name)
                  (before ++ (name, value) :: after) = Some (name, value)).
    { apply find_first. exists before, after. split; [done|]. split.
      - by apply bool_decide_eq_true.
      - eapply Forall_impl; [exact HF|]. intros e He.
        by apply bool_decide_eq_false. }
    by rewrite E.
Qed.

Lemma searchParams_has_spec ps (name : jsstring) :
  searchParams_has ps name = true <-> exists value, (name, value) ∈ ps.
Proof.
  unfold searchParams_has. rewrite existsb_exists. split.
  - intros ([n v] & Hin & E). apply bool_decide_eq_true in E. simpl in E.
    subst n. exists v. by apply list_elem_of_In.
  - intros [v Hin]. exists (name, v). split; [by apply list_elem_of_In|].
    by apply bool_decide_eq_true.
Qed.

Lemma first_value_elem ps (name value : jsstring) :
  first_value ps name value -> (name, value) ∈ ps.
Proof. intros (before & after & -> & _). set_solver. Qed.

Lemma usable_spec (value : jsstring) :
  negb (isEmpty value) && negb (isEmpty (trim value)) = true <-> ~ blank value.
Proof.
  unfold blank. destruct value as [|c value]; [by split|].
  cbn [isEmpty negb andb]. by destruct (trim (c :: value)).
Qed.

Lemma first_query_spec ps (names : list jsstring) (value : jsstring) :
  first_query ps names = Some value <->
  exists skipped name rest, names = skipped ++ name :: rest /\
    first_value ps name value /\ ~ blank value /\
    Forall (fun n => forall w, first_value ps n w -> blank w) skipped.
Proof.
  induction names as [|n names IH]; simpl.
  - split; [done | intros (skipped & name & rest & E & _)]. by destruct skipped.
  - destruct (searchParams_get ps n) as [v|] eqn:Ev.
    + destruct (negb (isEmpty v) && negb (isEmpty (trim v))) eqn:Eu.
      * apply usable_spec in Eu. apply searchParams_get_spec in Ev. split.
        -- intros [= <-]. exists [], n, names. auto.
        -- intros ([|n' skipped] & name & rest & E & Hv & Hb & HF);
             simpl in E; injection E as -> ->.
           ++ apply searchParams_get_spec in Ev, Hv. congruence.
           ++ apply Forall_cons in HF as [HF _]. by apply HF in Ev.
      * assert (Hb : blank v).
        { destruct (decide (trim v = [])) as [|Hn]; [done|].
          apply usable_spec in Hn. congruence. }
        rewrite IH. split.
        -- intros (skipped & name & rest & -> & Hv & Hnb & HF).
           exists (n :: skipped), name, rest. split; [done|].
           split; [done|]. split; [done|]. constructor; [|done].
           intros w Hw. apply searchParams_get_spec in Hw. congruence.
        -- intros ([|n' skipped] & name & rest & E & Hv & Hnb & HF);
             simpl in E; injection E as -> ->.
           ++ apply searchParams_get_spec in Hv. congruence.
           ++ apply Forall_cons in HF as [_ HF]. eauto 10.
    + rewrite IH. split.
      * intros (skipped & name & rest & -> & Hv & Hnb & HF).
        exists (n :: skipped), name, rest. split; [done|].
        split; [done|]. split; [done|]. constructor; [|done].
        intros w Hw. apply searchParams_get_spec in Hw. congruence.
      * intros ([|n' skipped] & name & rest & E & Hv & Hnb & HF);
          simpl in E; injection E as -> ->.
        -- apply searchParams_get_spec in Hv. congruence.
        -- apply Forall_cons in HF as [_ HF]. eauto 10.
Qed.

(** [extractSearchQuery] returns the value, as it stands, of the first of
    its parameter names, in the order of its list, whose value in the URL
    is not blank. *)
Lemma extractSearchQuery_spec (urlObj : location) (value : jsstring) :
  extractSearchQuery (Some urlObj) = Some value <->
  exists skipped name rest, searchParams = skipped ++ name :: rest /\
    first_value (loc_searchParams urlObj) name value /\ ~ blank value /\
    Forall (fun n => forall w,
              first_value (loc_searchParams urlObj) n w -> blank w) skipped.
Proof. apply first_query_spec. Qed.

Lemma excluded_host_spec (h : jsstring) :
  existsb (fun pattern => includes h pattern) excludePatterns = true
  <-> excluded_host h.
Proof.
  unfold excluded_host. rewrite existsb_exists. split.
  - intros (p & Hin & Hp). exists p. split; [by apply list_elem_of_In|].
    by apply includes_spec.
  - intros (p & Hin & Hp). exists p. split; [by apply list_elem_of_In|].
    by apply includes_spec.
Qed.

(** [isPossibleSearchEngine] accepts a URL exactly when its host name holds
    none of the excluded patterns and the URL has one of the parameters. *)
Lemma isPossibleSearchEngine_spec (loc : option location) :
  isPossibleSearchEngine loc = true <->
  exists urlObj, loc = Some urlObj /\
    ~ excluded_host (loc_hostname urlObj) /\
    exists name value, name ∈ searchParams' /\
      (name, value) ∈ loc_searchParams urlObj.
Proof.
  destruct loc as [urlObj|]; unfold isPossibleSearchEngine;
    [|split; [done | by intros (? & ? & _)]].
  destruct (existsb (fun pattern => includes (loc_hostname urlObj) pattern)
              excludePatterns) eqn:Ex.
  - apply excluded_host_spec in Ex. split; [done|].
    by intros (? & [= <-] & Hn & _).
  - rewrite existsb_exists. split.
    + intros (n & Hin & Hn). exists urlObj. split; [done|]. split.
      * intros H. apply excluded_host_spec in H. congruence.
      * apply searchParams_has_spec in Hn as [v Hv]. exists n, v.
        split; [by apply list_elem_of_In | done].
    + intros (? & [= <-] & _ & n & v & Hin & Hv). exists n.
      split; [by apply list_elem_of_In|]. apply searchParams_has_spec. eauto.
Qed.

(** A URL from which [extractSearchQuery] gets a query is one that
    [isPossibleSearchEngine] accepts, unless its host is excluded: the two
    lists of parameter names agree. *)
Lemma query_is_search (loc : option location) (value : jsstring) :
  extractSearchQuery loc = Some value ->
  (exists urlObj, loc = Some urlObj /\ ~ excluded_host (loc_hostname urlObj)) ->
  isPossibleSearchEngine loc = true /\ ~ blank value /\ value <> [].
Proof.
  intros Hq (urlObj & -> & Hex).
  apply extractSearchQuery_spec in Hq
    as (skipped & name & rest & E & Hv & Hnb & _).
  split; [|split; [done|]].
  - apply isPossibleSearchEngine_spec. exists urlObj. split; [done|].
    split; [done|]. exists name, value. split.
    + change searchParams' with searchParams. rewrite E. set_solver.
    + by apply first_value_elem.
  - intros ->. by apply Hnb.
Qed.

End SearchFacts.

(** ** The listeners and the ledger *)

Module ListenerFacts.
Import Js Platforms Background Spec MoreSpec Handlers HandlerSpec.
Import JsFacts DispatchFacts SearchFacts.

Local Open Scope Z_scope.

Lemma isRecentJump_recent (t T : Z) p o r st :
  kept (jumpKey p o r) T st -> T <> 0 -> t < T + 5000 ->
  isRecentJump t p o r st = (true, st).
Proof.
  unfold kept, isRecentJump. intros -> HT Ht.
  destruct (Z.eqb_spec T 0); [done|].
  destruct (Z.ltb_spec (t - T) 5000); [done | lia].
Qed.


Lemma isRecentJump_ledger (t : Z) p o r st :
  timers (snd (isRecentJump t p o r st)) = timers st /\
  recentJumps (snd (isRecentJump t p o r st)) ⊆ recentJumps st.
Proof.
  unfold isRecentJump.
  destruct (recentJumps st !! jumpKey p o r) as [T|]; [|done].
  destruct (T =? 0); [done|]. destruct (t - T <? 5000); [done|].
  split; [done|]. apply delete_subseteq.
Qed.

Lemma isRecentJump_ledger_timers (t : Z) p o r st :
  timers (snd (isRecentJump t p o r st)) = timers st.
Proof. apply isRecentJump_ledger. Qed.

(** The listener for searches does nothing, and leaves the ledger as it
    is, in a frame that is not the main one, with the feature switched off,
    for a URL that does not parse and on an excluded host. *)
Lemma onBeforeNavigate_quiet d feature mode (now now' now'' : Z) nav st :
  nav_frameId nav <> 0 \/ feature = false \/ nav_location nav = None \/
  (exists urlObj, nav_location nav = Some urlObj /\
                  excluded_host (loc_hostname urlObj)) ->
  onBeforeNavigate d feature mode now now' now'' nav st = ([], st).
Proof.
  unfold onBeforeNavigate.
  intros [H | [-> | [H | (urlObj & H & Hex)]]].
  - by destruct (Z.eqb_spec (nav_frameId nav) 0).
  - by destruct (negb (nav_frameId nav =? 0)).
  - rewrite H. simpl. by destruct (negb _), (negb feature).
  - assert (E : isPossibleSearchEngine (nav_location nav) = false).
    { destruct (isPossibleSearchEngine (nav_location nav)) eqn:E; [|done].
      apply isPossibleSearchEngine_spec in E as (u & E & Hn & _).
      rewrite H in E. injection E as <-. done. }
    rewrite E. simpl. by destruct (negb _), (negb feature).
Qed.

(** In the tabJump mode the listener for searches opens no page and sets
    no timer, and the ledger gets no record: at most it stores the target
    for the tab, and only for a target that the query resolves to. *)
Lemma onBeforeNavigate_tabJump d feature (now now' now'' : Z) nav st :
  let r := onBeforeNavigate d feature "tabJump" now now' now'' nav st in
  (fst r = [] \/
   exists t, search_target d nav t /\
     fst r = [StoreSearchJump (nav_tabId nav) t now']) /\
  timers (snd r) = timers st /\ recentJumps (snd r) ⊆ recentJumps st.
Proof.
  unfold onBeforeNavigate. cbv zeta.
  destruct (negb (nav_frameId nav =? 0)); [by split; [left|]|].
  destruct (negb feature); [by split; [left|]|].
  destruct (negb (isPossibleSearchEngine _)); [by split; [left|]|].
  destruct (extractSearchQuery _) as [q|] eqn:Eq; [|by split; [left|]].
  destruct (isEmpty q); [by split; [left|]|].
  destruct (parseSearchQuery d q) as [t|] eqn:Et; [|by split; [left|]].
  pose proof (isRecentJump_ledger now (platform t) (owner t) (repo t) st) as H.
  destruct (isRecentJump now _ _ _ st) as [[|] st1]; simpl in *.
  - by split; [left|].
  - split; [|done]. right. exists t. split; [by exists q | done].
Qed.

(** When the listener for searches opens a page, the query resolves to a
    target, the page is the URL built from it, and the ledger holds the
    record of the target with the time of the jump. *)
Lemma onBeforeNavigate_redirect d feature mode (now now' now'' : Z) nav st
    effects st' :
  onBeforeNavigate d feature mode now now' now'' nav st = (effects, st') ->
  navigations effects <> [] ->
  exists t repoUrl nav_effect,
    search_target d nav t /\
    buildRepoUrl (platform t) (owner t) (repo t) (path t)
      = Return (Some repoUrl) /\
    navigations effects = [nav_effect] /\ navigation_to repoUrl nav_effect /\
    kept (guard_key t) now' st'.
Proof.
  unfold onBeforeNavigate.
  destruct (negb (nav_frameId nav =? 0)); [by intros [= <- <-]|].
  destruct (negb feature); [by intros [= <- <-]|].
  destruct (negb (isPossibleSearchEngine _)); [by intros [= <- <-]|].
  destruct (extractSearchQuery _) as [q|] eqn:Eq; [|by intros [= <- <-]].
  destruct (isEmpty q); [by intros [= <- <-]|].
  destruct (parseSearchQuery d q) as [t|] eqn:Et; [|by intros [= <- <-]].
  destruct (isRecentJump now _ _ _ st) as [[|] st1]; [by intros [= <- <-]|].
  destruct (eqb mode "tabJump"); [by intros [= <- <-]|].
  destruct (openRepoUnified_full now'' _) as [[url effs]|] eqn:Eo;
    [|by intros [= <- <-]].
  intros [= <- <-] Hnav.
  apply openRepoUnified_effects in Eo. destruct url as [repoUrl|];
    [|by subst effs].
  destruct Eo as (Hb & stores & e & -> & He & _ & Hs). simpl in Hb.
  exists t, repoUrl, e. split; [by exists q|]. split; [done|].
  split; [|split; [done|]].
  - assert (Hne : is_navigation e = true)
      by (by destruct He as [[? ->] | [? ->]]).
    unfold navigations. rewrite List.filter_app. simpl. rewrite Hne.
    by destruct Hs as [-> | (? & ? & ? & -> & _)].
  - unfold kept, guard_key, recordJump. simpl. apply lookup_insert_eq.
Qed.

(** When the listener for failed lookups redirects, the address resolves
    to a target, the URL is the one built from it, and the ledger holds the
    record of the target with the time of the jump. *)
Lemma onErrorOccurred_redirect d feature custom (now now' : Z) a st
    repoUrl st' :
  onErrorOccurred d feature custom now now' a st = (Some repoUrl, st') ->
  exists t,
    dns_target d a t /\
    buildRepoUrl (platform t) (owner t) (repo t) (path t)
      = Return (Some repoUrl) /\
    kept (guard_key t) now' st'.
Proof.
  unfold onErrorOccurred.
  destruct (negb feature); [done|].
  destruct (findPlatformByDomain _); [done|].
  destruct (shouldBypass _ _); [done|].
  destruct (parseRepoInput d _) as [t|] eqn:Et; [|done].
  destruct (isRecentJump now _ _ _ st) as [[|] st1]; [done|].
  intros [= Ho <-]. exists t. split; [done|]. split.
  - unfold openRepoUnified in Ho.
    destruct (isEmpty (platform t) || isEmpty (owner t)); [done|].
    destruct (buildRepoUrl _ _ _ _) as [[u|]|]; [|done..].
    destruct (isEmpty u); [done|]. by injection Ho as ->.
  - unfold kept, guard_key, recordJump. simpl. apply lookup_insert_eq.
Qed.

(** While the ledger holds a record of less than 5000 ms for the target,
    neither listener acts on it, and the ledger stays as it is. *)
Lemma recorded_target_quiet d (T t : Z) target st :
  kept (guard_key target) T st -> T <> 0 -> t < T + 5000 ->
  quiet_for d target t st.
Proof.
  intros Hk HT Ht. split.
  - intros feature mode t' t'' nav (q & Hq & Hp). unfold onBeforeNavigate.
    destruct (negb (nav_frameId nav =? 0)); [done|].
    destruct (negb feature); [done|].
    destruct (negb (isPossibleSearchEngine _)); [done|].
    rewrite Hq. destruct (isEmpty q); [done|]. rewrite Hp.
    by rewrite (isRecentJump_recent t T _ _ _ st Hk HT Ht).
  - intros feature custom t' a Hp. unfold onErrorOccurred.
    destruct (negb feature); [done|].
    destruct (findPlatformByDomain _); [done|].
    destruct (shouldBypass _ _); [done|].
    unfold dns_target in Hp. rewrite Hp.
    by rewrite (isRecentJump_recent t T _ _ _ st Hk HT Ht).
Qed.

(** The [executeSearchJump] message records the target before it opens the
    page, so that the listeners leave the target alone for 5000 ms. *)
Lemma executeSearchJump_guard d (now now' : Z) data tab st :
  now <> 0 ->
  forall evs t, t < now + 5000 -> undisturbed (guard_key data) t evs ->
    quiet_for d data t (run evs (snd (executeSearchJump now now' data tab st))).
Proof.
  intros Hnow evs t Hlt Hevs.
  apply (recorded_target_quiet d now); [|done..].
  apply (GuardFacts.run_kept _ _ Hnow t); [done..|].
  unfold executeSearchJump.
  assert (Hk : kept (guard_key data) now
                 (recordJump now (platform data) (owner data) (repo data) st)).
  { unfold kept, guard_key, recordJump. simpl. apply lookup_insert_eq. }
  by destruct (openRepoUnified_full now' _) as [[? ?]|].
Qed.


End ListenerFacts.

(** ** The ledger: keys and timers *)

Module LedgerFacts.
Import Js Platforms Background Spec MoreSpec Handlers HandlerSpec.
Import JsFacts PatternFacts ResolverFacts SubstFacts ResolverMore ListenerFacts.

Local Open Scope Z_scope.

Lemma remove_timer_other (x u : jsstring * Z) l :
  x ∈ l -> x <> u -> x ∈ remove_timer u l.
Proof.
  intros Hin Hne. induction l as [|y l IH]; [done|]. simpl.
  apply elem_of_cons in Hin as [-> | Hin].
  - rewrite bool_decide_eq_false_2 by done. by left.
  - destruct (bool_decide (y = u)); [done|]. right. by apply IH.
Qed.

Section OneRecord.

Variables (key : jsstring) (T : Z).
Hypothesis T_nonzero : T <> 0.

Lemma step_purge_pending (now : Z) (ev : event) (st : ledger) :
  ~ records key ev -> purge_pending key T st ->
  purge_pending key T (step now ev st).
Proof.
  unfold purge_pending. intros Hev Hst.
  destruct ev as [p o r | p o r | k due]; simpl in *.
  - destruct (decide (jumpKey p o r = key)) as [E | Hne].
    + unfold isRecentJump. rewrite E.
      destruct Hst as [H | [H Ht]]; rewrite H; [by left|].
      destruct (T =? 0); [by right|].
      destruct (now - T <? 5000); [by right|]. left. simpl.
      apply lookup_delete_eq.
    + rewrite GuardFacts.isRecentJump_other by done.
      by rewrite isRecentJump_ledger_timers.
  - rewrite lookup_insert_ne by done.
    destruct Hst as [? | [? Ht]]; [by left | right]. split; [done|].
    apply elem_of_app. by left.
  - destruct (bool_decide _ && (due <=? now)) eqn:Ef; [|done]. simpl.
    apply andb_true_iff in Ef as [_ Hdue]. apply Z.leb_le in Hdue.
    destruct (decide (k = key)) as [-> | Hne].
    + unfold purge. destruct Hst as [H | [H Ht]]; rewrite H; [by left|].
      destruct (Z.eqb_spec T 0); [done|]. simpl.
      destruct (Z.leb_spec 10000 (now - T)).
      * left. apply lookup_delete_eq.
      * right. split; [done|]. apply remove_timer_other; [done|].
        intros [= E]. lia.
    + rewrite GuardFacts.purge_other by done.
      destruct Hst as [? | [? Ht]]; [by left | right]. split; [done|].
      apply remove_timer_other; [done|]. intros [= E]. done.
Qed.

Lemma run_purge_pending (evs : list (Z * event)) : forall st : ledger,
  Forall (fun e => ~ records key (snd e)) evs ->
  purge_pending key T st -> purge_pending key T (run evs st).
Proof.
  induction evs as [|[now ev] evs IH]; intros st Hevs Hst; [done|].
  apply Forall_cons in Hevs as [Hev Hevs]. simpl in *.
  apply IH; [done|]. by apply step_purge_pending.
Qed.

End OneRecord.

(** The record of a jump does not outlive its timer: once the timer that
    [recordJump] set has run, which is not before 10000 ms have passed, the
    record is gone, whatever happened in between short of a new record of
    the same key. *)
Lemma record_purged (T : Z) p o r st evs (now : Z) :
  T <> 0 ->
  Forall (fun e => ~ records (jumpKey p o r) (snd e)) evs ->
  T + 10000 <= now ->
  let st' := run evs (recordJump T p o r st) in
  recentJumps (step now (Timeout (jumpKey p o r) (T + 10000)) st')
    !! jumpKey p o r = None.
Proof.
  intros HT Hevs Hnow st'.
  assert (H : purge_pending (jumpKey p o r) T st').
  { apply run_purge_pending; [done..|]. right. simpl. split.
    - apply lookup_insert_eq.
    - apply elem_of_app. right. by left. }
  simpl. destruct H as [H | [H Ht]].
  - destruct (bool_decide _ && _); [|done]. simpl. unfold purge. by rewrite H.
  - rewrite bool_decide_eq_true_2 by done.
    destruct (Z.leb_spec (T + 10000) now); [|lia]. simpl.
    unfold purge. rewrite H. destruct (Z.eqb_spec T 0); [done|].
    destruct (Z.leb_spec 10000 (now - T)); [|lia]. simpl.
    apply lookup_delete_eq.
Qed.

(** *** The keys of the ledger *)

Lemma jumpKey_injective (p p' o o' r r' : jsstring) :
  ":"%char ∉ p -> ":"%char ∉ p' -> "/"%char ∉ o -> "/"%char ∉ o' ->
  jumpKey p o r = jumpKey p' o' r' -> p = p' /\ o = o' /\ r = r'.
Proof.
  unfold jumpKey. intros Hp Hp' Ho Ho' E. simpl in E.
  destruct (split_unique ":" p p' _ _ Hp Hp' E) as [-> E'].
  by destruct (split_unique "/" o o' _ _ Ho Ho' E') as [-> ->].
Qed.

Lemma registered_no_colon key config :
  (key, config) ∈ PLATFORMS -> ":"%char ∉ key.
Proof.
  intros H.
  assert (HF : Forall (fun e => bool_decide (":"%char ∉ fst e) = true) PLATFORMS)
    by (by vm_compute; repeat constructor).
  rewrite Forall_forall in HF. apply HF in H.
  by apply bool_decide_eq_true in H.
Qed.

(** Two targets that the resolver gives share a record of the ledger only
    when they agree on platform, owner and repository. *)
Lemma guard_key_injective d d' (query query' : jsstring) t t' :
  default_registered d -> default_registered d' ->
  parseSearchQuery d query = Some t -> parseSearchQuery d' query' = Some t' ->
  guard_key t = guard_key t' ->
  platform t = platform t' /\ owner t = owner t' /\ repo t = repo t'.
Proof.
  intros Hd Hd' Ht Ht' E.
  destruct (parseSearchQuery_platform _ _ _ Hd Ht) as [c Hc].
  destruct (parseSearchQuery_platform _ _ _ Hd' Ht') as [c' Hc'].
  apply parseSearchQuery_inv in Ht as (i & t0 & Hi & Eo & _).
  apply parseSearchQuery_inv in Ht' as (i' & t0' & Hi' & Eo' & _).
  apply parseRepoInput_inv in Hi as (_ & _ & Ho & _).
  apply parseRepoInput_inv in Hi' as (_ & _ & Ho' & _).
  rewrite <- Eo in Ho. rewrite <- Eo' in Ho'.
  apply (jumpKey_injective _ _ _ _ _ _
           (registered_no_colon _ _ Hc) (registered_no_colon _ _ Hc')
           (owner_word_no_slash _ Ho) (owner_word_no_slash _ Ho') E).
Qed.

End LedgerFacts.

(** ** The address-bar keyword *)

Module OmniboxFacts.
Import Js Regex Platforms Background Spec MoreSpec Handlers HandlerSpec Omnibox.
Import JsFacts PatternFacts ResolverFacts SubstFacts TrimFacts ResolverMore.

(** *** The sort of the matching platforms *)

Section Sort.

Variable D : jsstring.

Local Abbreviation cmp :=
  (fun a b : jsstring * PlatformConfig => defaultFirst D (fst a) (fst b)).
Local Abbreviation isD := (is_default D).

Lemma insert_default x (A B : list (jsstring * PlatformConfig)) :
  Forall (fun e => isD e = true) A -> Forall (fun e => isD e = false) B ->
  insert_sorted cmp x (rev B ++ rev A)
  = if isD x then rev B ++ x :: rev A else x :: rev B ++ rev A.
Proof.
  intros HA HB. apply Forall_rev in HB.
  induction (rev B) as [|y l IH]; simpl.
  - apply Forall_rev in HA.
    destruct (rev A) as [|y l]; simpl; [by destruct (isD x)|].
    apply Forall_cons in HA as [Hy _]. unfold defaultFirst.
    unfold is_default in Hy. rewrite Hy. simpl. by destruct (isD x).
  - apply Forall_cons in HB as [Hy HB]. specialize (IH HB).
    unfold defaultFirst at 1. unfold is_default in Hy. rewrite Hy.
    simpl fst. fold (is_default D x).
    destruct (isD x); simpl; [by rewrite <- IH | done].
Qed.

Lemma sort_fold (l : list (jsstring * PlatformConfig)) : forall A B,
  Forall (fun e => isD e = true) A -> Forall (fun e => isD e = false) B ->
  fold_left (fun sorted_rev x => insert_sorted cmp x sorted_rev) l
    (rev B ++ rev A)
  = rev (List.filter (fun e => negb (isD e)) l)
      ++ rev B ++ rev (List.filter isD l) ++ rev A.
Proof.
  induction l as [|x l IH]; intros A B HA HB; simpl; [done|].
  rewrite insert_default by done. destruct (isD x) eqn:Ex; simpl.
  - change (rev B ++ x :: rev A) with (rev B ++ [x] ++ rev A).
    replace ([x] ++ rev A) with (rev (A ++ [x])) by (by rewrite rev_app_distr).
    rewrite IH; [|apply Forall_app; split; [done | by constructor] | done].
    rewrite rev_app_distr. simpl. by rewrite <- !app_assoc.
  - replace (x :: rev B ++ rev A) with (rev (B ++ [x]) ++ rev A)
      by (by rewrite rev_app_distr).
    rewrite IH; [|done | apply Forall_app; split; [done | by constructor]].
    rewrite rev_app_distr. simpl. by rewrite <- !app_assoc.
Qed.

(** The sort puts the entries of the default platform first and keeps the
    order of the others. *)
Lemma sort_defaultFirst (l : list (jsstring * PlatformConfig)) :
  sort cmp l = List.filter isD l ++ List.filter (fun e => negb (isD e)) l.
Proof.
  unfold sort.
  pose proof (sort_fold l [] [] (List.Forall_nil _) (List.Forall_nil _)) as H.
  simpl in H. rewrite H, !app_nil_r, rev_app_distr.
  by rewrite !rev_involutive.
Qed.

End Sort.

(** *** The pages that are opened *)

Lemma replace_head (c b : ascii) (s pat repl : jsstring) :
  c <> b -> head (replace (c :: s) (b :: pat) repl) = Some c.
Proof.
  intros Hne. unfold replace. cbn [replace_from].
  by rewrite startsWith_other by done.
Qed.

Lemma template_head key config :
  (key, config) ∈ PLATFORMS -> exists s, urlPattern config = "h"%char :: s.
Proof.
  unfold PLATFORMS. intros H.
  repeat (apply elem_of_cons in H as [H | H];
          [injection H as -> ->; simpl; eauto|]).
  by apply not_elem_of_nil in H.
Qed.

(** The URL of a registered platform is never empty. *)
Lemma buildRepoUrl_nonempty key config (owner repo path url : jsstring) :
  (key, config) ∈ PLATFORMS ->
  buildRepoUrl key owner repo path = Return (Some url) -> isEmpty url = false.
Proof.
  intros Hin. unfold buildRepoUrl, PLATFORMS_get.
  rewrite (registered_in _ _ Hin). intros [= <-].
  destruct (template_head _ _ Hin) as [s ->].
  assert (H1 : head (replace ("h"%char :: s) "{owner}" owner) = Some "h"%char)
    by (by apply replace_head).
  destruct (replace ("h"%char :: s) "{owner}" owner) as [|c1 s1]; [done|].
  injection H1 as ->.
  assert (H2 : head (replace ("h"%char :: s1) "{repo}" repo) = Some "h"%char)
    by (by apply replace_head).
  destruct (replace ("h"%char :: s1) "{repo}" repo) as [|c2 s2]; [done|].
  injection H2 as ->.
  match goal with |- isEmpty (replace _ _ ?r) = _ =>
    assert (H3 : head (replace ("h"%char :: s2) "{path}" r) = Some "h"%char)
      by (by apply replace_head);
    by destruct (replace ("h"%char :: s2) "{path}" r)
  end.
Qed.

Lemma openRepo_registered key config (owner repo path disposition : jsstring) :
  (key, config) ∈ PLATFORMS ->
  exists url, buildRepoUrl key owner repo path = Return (Some url) /\
    openRepo key owner repo path disposition
    = Return [openUrl url disposition].
Proof.
  intros Hin. unfold openRepo.
  destruct (buildRepoUrl key owner repo path) as [[url|]|] eqn:E.
  - exists url. by rewrite (buildRepoUrl_nonempty _ _ _ _ _ _ Hin E).
  - unfold buildRepoUrl, PLATFORMS_get in E.
    by rewrite (registered_in _ _ Hin) in E.
  - unfold buildRepoUrl, PLATFORMS_get in E.
    by rewrite (registered_in _ _ Hin) in E.
Qed.

Lemma openRepo_plain key config (owner repo path disposition : jsstring) :
  (key, config) ∈ PLATFORMS ->
  plain owner -> (singleName config = false -> plain repo) ->
  "$"%char ∉ path ->
  openRepo key owner repo path disposition
  = Return [openUrl (target_url config owner repo path) disposition].
Proof.
  intros Hin Ho Hr Hp.
  destruct (openRepo_registered key config owner repo path disposition Hin)
    as (url & E & ->).
  rewrite (buildRepoUrl_plain _ _ _ _ _ Hin Ho Hr Hp) in E. by injection E as <-.
Qed.

Lemma PLATFORMS_get_own key config :
  (key, config) ∈ PLATFORMS -> PLATFORMS_get key = Own config.
Proof. intros H. unfold PLATFORMS_get. by rewrite (registered_in _ _ H). Qed.

Lemma openRepo_one_page key owner repo path disposition :
  one_page disposition (openRepo key owner repo path disposition).
Proof.
  unfold one_page, openRepo. intros effects.
  destruct (buildRepoUrl _ _ _ _) as [[url|]|]; [| |done].
  - destruct (isEmpty url); intros [= <-]; eauto.
  - intros [= <-]. by left.
Qed.

Lemma openOnDomain_one_page key rest disposition :
  one_page disposition (openOnDomain key rest disposition).
Proof.
  unfold one_page, openOnDomain. intros effects.
  destruct (domain_of _); [|done]. intros [= <-]. eauto.
Qed.

(** The listener of the address bar opens at most one page, and opens it
    the way the browser asks for. *)
Lemma onInputEntered_one_page D feature (text disposition : jsstring) effects :
  onInputEntered D feature text disposition = Return effects ->
  effects = [] \/ exists url, effects = [openUrl url disposition].
Proof.
  revert effects. change (one_page disposition
    (onInputEntered D feature text disposition)).
  unfold onInputEntered.
  destruct (negb feature); [by left; injection H as <-|].
  destruct (isEmpty (trim text)); [by left; injection H as <-|].
  destruct (exec 4 FULL_URL_PATTERN (trim text)) as [m|].
  - destruct (findPlatformByDomain _); apply openRepo_one_page.
  - destruct (negb _ && negb _).
    + destruct (sort _ _) as [|[k c] l]; [apply openOnDomain_one_page|].
      intros effects [= <-]. eauto.
    + unfold openByKeyword.
      match goal with |- one_page _ (let '(_, _) := ?x in _) =>
        destruct x as [p inputName] end.
      destruct (singleName_of _) as [[|]|]; [| |done].
      * apply openRepo_one_page.
      * destruct (includes inputName "/"); [|apply openOnDomain_one_page].
        match goal with |- one_page _ (match ?x with _ => _ end) =>
          destruct x end; apply openRepo_one_page.
Qed.

(** *** The shape of the text *)

Lemma includes_slash (s : jsstring) :
  includes s ["/"%char] = true <-> "/"%char ∈ s.
Proof.
  rewrite includes_spec. split.
  - intros (pre & post & ->). set_solver.
  - intros H. apply list_elem_of_split in H as (pre & post & ->).
    by exists pre, post.
Qed.

Lemma includes_slash_false (s : jsstring) :
  "/"%char ∉ s -> includes s ["/"%char] = false.
Proof.
  intros H. destruct (includes s ["/"%char]) eqn:E; [|done].
  by apply includes_slash in E.
Qed.

Lemma no_space (s : jsstring) :
  Forall (fun c => isWhiteSpace c = false) s -> existsb isWhiteSpace s = false.
Proof.
  induction 1 as [|c s Hc _ IH]; [done|]. simpl. by rewrite Hc, IH.
Qed.

Lemma has_space (a sep b : jsstring) :
  separator sep -> existsb isWhiteSpace (a ++ sep ++ b) = true.
Proof.
  intros [Hne Hsep]. destruct sep as [|c sep]; [done|].
  apply Forall_cons in Hsep as [Hc _]. apply existsb_exists. exists c.
  split; [|done]. apply list_elem_of_In. set_solver.
Qed.

Lemma few_slashes_no_url (s : jsstring) :
  slashes s < 2 -> exec 4 FULL_URL_PATTERN s = None.
Proof.
  intros H. destruct (exec 4 FULL_URL_PATTERN s) as [m|] eqn:E; [|done].
  apply FULL_URL_two_slashes in E. lia.
Qed.

Lemma word_split (s : jsstring) :
  Forall (fun c => isWhiteSpace c = false) s -> split_ws s = [s].
Proof. intros H. unfold split_ws. by rewrite split_ws_from_single. Qed.

Lemma space_not_slash (s : jsstring) :
  Forall (fun c => isWhiteSpace c = true) s -> "/"%char ∉ s.
Proof.
  intros H Hin. rewrite Forall_forall in H. by apply H in Hin.
Qed.

Lemma lowerChar_slash (c : ascii) : lowerChar c = "/"%char -> c = "/"%char.
Proof.
  destruct c as [[] [] [] [] [] [] [] []]; vm_compute; congruence.
Qed.

Lemma toLowerCase_slash (s : jsstring) :
  "/"%char ∈ s <-> "/"%char ∈ toLowerCase s.
Proof.
  unfold toLowerCase. induction s as [|c s IH]; simpl; [done|].
  rewrite !elem_of_cons, IH. split.
  - intros [<- | H]; [by left | by right].
  - intros [E | H]; [left | by right]. symmetry. by apply lowerChar_slash.
Qed.

Lemma keyword_no_slash (k key : jsstring) :
  findPlatformByKeyword k = Some key -> "/"%char ∉ k.
Proof.
  intros H. apply findPlatformByKeyword_spec in H as (config & Hin & Hk).
  rewrite toLowerCase_slash. intros Hs.
  assert (HF : Forall (fun e => Forall (fun kw => bool_decide ("/"%char ∉ kw) = true)
                                  (keywords (snd e))) PLATFORMS)
    by (vm_compute; repeat constructor).
  rewrite Forall_forall in HF. apply HF in Hin. simpl in Hin.
  rewrite Forall_forall in Hin. apply Hin in Hk.
  by apply bool_decide_eq_true in Hk.
Qed.

(** *** A repository or a URL *)

(** For a text without white space that the resolver understands, and
    that is no URL of an unknown host, the address bar opens the URL built
    from the target of the resolver, when the default platform is one with
    repositories. *)
Lemma onInputEntered_resolved D config (text disposition : jsstring) t :
  (D, config) ∈ PLATFORMS -> singleName config = false ->
  Forall (fun c => isWhiteSpace c = false) (trim text) ->
  (forall m, exec 4 FULL_URL_PATTERN (trim text) = Some m ->
             is_Some (findPlatformByDomain (group m 1))) ->
  parseRepoInput (Some D) text = Some t ->
  exists url,
    buildRepoUrl (platform t) (owner t) (repo t) (path t) = Return (Some url) /\
    onInputEntered D true text disposition = Return [openUrl url disposition].
Proof.
  intros HD Hsingle Hword Hknown Ht.
  destruct (parseRepoInput_platform (Some D) text t) as [c Hc];
    [by exists config | done |].
  destruct (openRepo_registered (platform t) c (owner t) (repo t) (path t)
              disposition Hc) as (url & Hb & Ho).
  exists url. split; [done|]. rewrite <- Ho. clear Hb Ho.
  assert (Hslash : includes (trim text) ["/"%char] = true).
  { apply includes_slash. destruct (decide ("/"%char ∈ trim text)); [done|].
    rewrite <- parseRepoInput_trim in Ht.
    by rewrite parseRepoInput_no_slash in Ht. }
  revert Ht. unfold onInputEntered, parseRepoInput, parseFullUrl. simpl negb.
  destruct (isEmpty text); [done|].
  destruct (isEmpty (trim text)); [done|]. cbv zeta.
  destruct (exec 4 FULL_URL_PATTERN (trim text)) as [m|] eqn:Em.
  - destruct (Hknown m eq_refl) as [p Hp]. rewrite Hp. by intros [= <-].
  - rewrite Hslash. simpl. unfold openByKeyword.
    rewrite word_split by done. simpl.
    unfold defaultPlatform. simpl.
    rewrite (PLATFORMS_get_own _ _ HD). simpl. rewrite Hsingle, Hslash.
    destruct (exec 3 REPO_WITH_PATH_PATTERN (trim text)) as [m|];
      [by intros [= <-]|].
    destruct (exec 2 REPO_PATTERN (trim text)) as [m|] eqn:Em2; [|done].
    intros [= <-]. simpl.
    by apply exec_REPO_PATTERN in Em2 as (o & r & _ & _ & _ & _ & ->).
Qed.

(** *** A keyword and a package name *)

Lemma slashes_lt (a sep b : jsstring) :
  "/"%char ∉ a -> "/"%char ∉ sep -> slashes b < 2 ->
  slashes (a ++ sep ++ b) < 2 /\ slashes (b ++ sep ++ a) < 2.
Proof.
  intros Ha Hs Hb. rewrite !slashes_app.
  rewrite (slashes_none a), (slashes_none sep) by done. lia.
Qed.

Lemma onInputEntered_two_words D (a sep b disposition : jsstring) :
  word a -> separator sep -> word b -> slashes (a ++ sep ++ b) < 2 ->
  onInputEntered D true (a ++ sep ++ b) disposition
  = openByKeyword D (a ++ sep ++ b) disposition.
Proof.
  intros Ha Hsep Hb Hs. unfold onInputEntered. simpl negb. cbv iota.
  rewrite (word_trimmed a sep b Ha Hb).
  rewrite (few_slashes_no_url _ Hs), (has_space a sep b Hsep).
  rewrite andb_false_r.
  destruct Ha as [Ha _]. by destruct a.
Qed.

(** A keyword of a platform with single names and a name, in either order,
    open the page of the package of that name.  When both words are
    keywords, the first one is the platform. *)
Lemma onInputEntered_package D (kw sep name disposition : jsstring) p config :
  findPlatformByKeyword kw = Some p ->
  (p, config) ∈ PLATFORMS -> singleName config = true ->
  word kw -> separator sep -> word name -> plain name -> slashes name < 2 ->
  onInputEntered D true (kw ++ sep ++ name) disposition
    = Return [openUrl (url_prefix config ++ name) disposition] /\
  (findPlatformByKeyword name = None ->
   onInputEntered D true (name ++ sep ++ kw) disposition
     = Return [openUrl (url_prefix config ++ name) disposition]).
Proof.
  intros Hk Hin Hsingle Hkw Hsep Hname Hplain Hs.
  pose proof (keyword_no_slash _ _ Hk) as Hkslash.
  pose proof (space_not_slash _ (proj2 Hsep)) as Hsslash.
  destruct (slashes_lt kw sep name Hkslash Hsslash Hs) as [Hs1 Hs2].
  assert (Hopen : openRepo p name [] [] disposition
                  = Return [openUrl (url_prefix config ++ name) disposition]).
  { rewrite (openRepo_plain p config name [] [] disposition Hin Hplain);
      [| by rewrite Hsingle | apply not_elem_of_nil].
    unfold target_url. by rewrite Hsingle, !app_nil_r. }
  split; [|intros Hnone].
  - rewrite onInputEntered_two_words by done. unfold openByKeyword.
    rewrite split_ws_two by done. simpl. rewrite Hk. simpl.
    by rewrite (PLATFORMS_get_own _ _ Hin); simpl; rewrite Hsingle.
  - rewrite onInputEntered_two_words by done. unfold openByKeyword.
    rewrite split_ws_two by done. simpl. rewrite Hnone, Hk. simpl.
    by rewrite (PLATFORMS_get_own _ _ Hin); simpl; rewrite Hsingle.
Qed.

(** *** A single word *)

Lemma keyword_prefix_spec (lower : jsstring) config :
  existsb (fun kw => startsWith kw lower) (keywords config) = true
  <-> keyword_prefix lower config.
Proof.
  unfold keyword_prefix. rewrite existsb_exists. split.
  - intros (kw & Hin & H). apply startsWith_spec in H as [rest ->].
    exists (lower ++ rest), rest. split; [by apply list_elem_of_In | done].
  - intros (kw & rest & Hin & ->). exists (lower ++ rest).
    split; [by apply list_elem_of_In|]. apply startsWith_spec. eauto.
Qed.

Lemma matchedPlatforms_elem (lower : jsstring) e :
  e ∈ matchedPlatforms lower <-> e ∈ PLATFORMS /\ keyword_prefix lower (snd e).
Proof.
  unfold matchedPlatforms.
  by rewrite list_elem_of_In, filter_In, <- list_elem_of_In, keyword_prefix_spec.
Qed.

Lemma filter_nil_iff {A} (f : A -> bool) (l : list A) :
  Forall (fun x => f x = false) l -> List.filter f l = [].
Proof.
  induction 1 as [|x l Hx _ IH]; [done|]. simpl. by rewrite Hx.
Qed.

Lemma filter_all {A} (f : A -> bool) (l : list A) :
  Forall (fun x => f x = true) l -> List.filter f l = l.
Proof.
  induction 1 as [|x l Hx _ IH]; [done|]. simpl. by rewrite Hx, IH.
Qed.

Lemma onInputEntered_word D (text disposition : jsstring) :
  word (trim text) -> "/"%char ∉ trim text ->
  onInputEntered D true text disposition
  = match List.filter (is_default D) (matchedPlatforms (toLowerCase (trim text)))
            ++ List.filter (fun e => negb (is_default D e))
                 (matchedPlatforms (toLowerCase (trim text))) with
    | (firstKey, firstCfg) :: _ =>
        Return [openUrl (home firstCfg) disposition]
    | [] => openOnDomain D (trim text) disposition
    end.
Proof.
  intros [Hne Hw] Hs. unfold onInputEntered. simpl negb. cbv iota.
  destruct (trim text) as [|c w] eqn:E; [done|]. simpl isEmpty. cbv iota.
  rewrite few_slashes_no_url by (rewrite slashes_none by done; lia).
  rewrite includes_slash_false by done. rewrite no_space by done.
  simpl andb. cbv iota. by rewrite sort_defaultFirst.
Qed.

(** A single word, without slash, opens a home page when it begins a
    keyword: the one of the default platform if it is among the platforms
    with such a keyword, else the one of the first such platform of the
    table.  A word that begins no keyword opens the page of the user of
    that name on the default platform. *)
Lemma onInputEntered_single_word D config (text disposition : jsstring) :
  word (trim text) -> "/"%char ∉ trim text ->
  (D, config) ∈ PLATFORMS ->
  let lower := toLowerCase (trim text) in
  (keyword_prefix lower config ->
   onInputEntered D true text disposition
   = Return [openUrl (home config) disposition]) /\
  (forall key first,
     ~ keyword_prefix lower config -> first_match lower key first ->
     onInputEntered D true text disposition
     = Return [openUrl (home first) disposition]) /\
  ((forall key other, (key, other) ∈ PLATFORMS -> ~ keyword_prefix lower other) ->
   onInputEntered D true text disposition
   = Return [openUrl (user_page config (trim text)) disposition]).
Proof.
  intros Hw Hs HD lower. rewrite onInputEntered_word by done. fold lower.
  assert (Hkey : forall c, (D, c) ∈ PLATFORMS -> c = config).
  { intros c Hc. apply registered_in in Hc, HD. congruence. }
  split; [|split].
  - intros Hp.
    assert (Hin : (D, config) ∈ List.filter (is_default D) (matchedPlatforms lower)).
    { apply list_elem_of_In, filter_In. split.
      - apply list_elem_of_In, matchedPlatforms_elem. by split.
      - by apply bool_decide_eq_true. }
    destruct (List.filter (is_default D) (matchedPlatforms lower))
      as [|[k c] l] eqn:E; [by apply not_elem_of_nil in Hin|].
    assert (H : (k, c) ∈ List.filter (is_default D) (matchedPlatforms lower))
      by (rewrite E; by left).
    apply list_elem_of_In, filter_In in H as [H Hk].
    apply list_elem_of_In, matchedPlatforms_elem in H as [H _].
    apply bool_decide_eq_true in Hk. simpl in Hk. subst k.
    simpl. by rewrite (Hkey c H).
  - intros key first Hn (before & after & Eq & Hp & Hbefore).
    assert (HnotD : Forall (fun e => is_default D e = false)
                      (matchedPlatforms lower)).
    { apply Forall_forall. intros [k c] Hin.
      apply matchedPlatforms_elem in Hin as [Hin Hc]. simpl in Hc.
      apply bool_decide_eq_false. simpl. intros ->.
      by rewrite (Hkey c Hin) in Hc. }
    rewrite (filter_nil_iff _ _ HnotD). simpl.
    rewrite filter_all
      by (eapply Forall_impl; [exact HnotD|]; by intros e ->).
    unfold matchedPlatforms. rewrite Eq, List.filter_app.
    rewrite filter_nil_iff.
    + simpl. by rewrite (proj2 (keyword_prefix_spec lower first) Hp).
    + eapply Forall_impl; [exact Hbefore|]. intros e He.
      destruct (existsb _ (keywords (snd e))) eqn:Ee; [|done].
      by apply keyword_prefix_spec in Ee.
  - intros Hnone.
    assert (E : matchedPlatforms lower = []).
    { destruct (matchedPlatforms lower) as [|[k c] l] eqn:E; [done|].
      assert (H : (k, c) ∈ matchedPlatforms lower) by (rewrite E; by left).
      apply matchedPlatforms_elem in H as [H Hc]. by apply Hnone in H. }
    rewrite E. simpl. unfold openOnDomain.
    by rewrite (PLATFORMS_get_own _ _ HD).
Qed.

(** *** A URL of an unknown host *)

(** A text of the form of a URL whose host belongs to no platform opens
    the template of the default platform with empty fields, also where the
    resolver reads the text as owner, repository and path. *)
Lemma onInputEntered_unknown_host D config (text disposition : jsstring) m :
  (D, config) ∈ PLATFORMS ->
  exec 4 FULL_URL_PATTERN (trim text) = Some m ->
  findPlatformByDomain (group m 1) = None ->
  onInputEntered D true text disposition
  = Return [openUrl (target_url config [] [] []) disposition].
Proof.
  intros HD Hm Hp. unfold onInputEntered. simpl negb. cbv iota.
  rewrite Hm, Hp.
  destruct (trim text) as [|c s]; [by rewrite exec_FULL_URL_PATTERN_empty in Hm|].
  simpl isEmpty. cbv iota.
  apply openRepo_plain; [done | | | apply not_elem_of_nil];
    intros; split; apply not_elem_of_nil.
Qed.

End OmniboxFacts.

(** ** The options page and the settings *)

Module OptionsFacts.
Import Js Platforms Background Spec MoreSpec Handlers HandlerSpec Options.
Import JsFacts SubstFacts TrimFacts.

Lemma shouldBypass_spec (url : jsstring) (patterns : list jsstring) :
  shouldBypass url patterns = true <->
  exists p, p ∈ patterns /\ occurs_in_nocase p url.
Proof.
  unfold shouldBypass. rewrite existsb_exists.
  split; intros (p & Hp & H); exists p.
  - apply includes_spec in H.
    by rewrite list_elem_of_In, occurs_in_nocase_lower.
  - apply occurs_in_nocase_lower, includes_spec in H.
    by rewrite <- list_elem_of_In.
Qed.

Lemma addPattern_elem (inputValue : jsstring) patterns :
  trim inputValue <> [] -> trim inputValue ∈ fst (addPattern inputValue patterns).
Proof.
  intros Hne. unfold addPattern.
  destruct (trim inputValue) as [|c s] eqn:E; [done|]. simpl isEmpty. cbv iota.
  destruct (arrayIncludes patterns (c :: s)) eqn:Ei; simpl.
  - by apply arrayIncludes_spec.
  - apply elem_of_app. right. by left.
Qed.

(** [addPattern] never removes a rule, and never stores a rule twice. *)
Lemma addPattern_keeps (inputValue : jsstring) patterns :
  patterns `prefix_of` fst (addPattern inputValue patterns).
Proof.
  unfold addPattern. destruct (isEmpty _); [done|].
  destruct (arrayIncludes _ _); [done|]. simpl. by apply prefix_app_r.
Qed.

(** Whatever the user does on the page, the list of rules holds no rule
    twice, and every rule is what [trim] leaves of an input and not empty,
    if the list was so before. *)
Lemma rules_invariant (actions : list action) : forall patterns,
  NoDup patterns -> Forall well_formed_rule patterns ->
  NoDup (fold_left perform actions patterns) /\
  Forall well_formed_rule (fold_left perform actions patterns).
Proof.
  induction actions as [|a actions IH]; intros patterns Hnd Hwf; [done|].
  simpl. apply IH; destruct a as [inputValue | index]; simpl.
  - unfold addPattern. destruct (isEmpty (trim inputValue)) eqn:Ee; [done|].
    destruct (arrayIncludes patterns (trim inputValue)) eqn:Ei; [done|].
    simpl. apply NoDup_app. split; [done|]. split; [|apply NoDup_singleton].
    intros x Hx Hx'. apply list_elem_of_singleton in Hx' as ->.
    apply arrayIncludes_spec in Hx. congruence.
  - unfold deletePattern. eapply sublist_NoDup; [done | apply sublist_delete].
  - unfold addPattern. destruct (isEmpty (trim inputValue)) eqn:Ee; [done|].
    destruct (arrayIncludes patterns (trim inputValue)) eqn:Ei; [done|].
    simpl. apply Forall_app. split; [done|]. constructor; [|done].
    split; [by destruct (trim inputValue) | apply trim_trimmed].
  - unfold deletePattern. by apply Forall_delete.
Qed.

(** Once the user has entered a rule, the listener for failed lookups
    leaves alone every address in which the rule, trimmed, occurs up to
    case; so does it for the addresses that a rule of the list covered
    before. *)
Lemma added_rule_bypasses d feature (inputValue : jsstring) patterns
    (now now' : Z) a st :
  (trim inputValue <> [] /\ occurs_in_nocase (trim inputValue) (url a)) \/
  shouldBypass (url a) (getBypassPatterns patterns) = true ->
  onErrorOccurred d feature (fst (addPattern inputValue patterns)) now now' a st
  = (None, st).
Proof.
  intros H.
  assert (Hb : shouldBypass (url a)
                 (getBypassPatterns (fst (addPattern inputValue patterns)))
               = true).
  { apply shouldBypass_spec. unfold getBypassPatterns.
    destruct H as [[Hne Hocc] | H].
    - exists (trim inputValue). split; [|done]. apply elem_of_app. right.
      by apply addPattern_elem.
    - apply shouldBypass_spec in H as (p & Hp & Hocc). exists p.
      split; [|done]. unfold getBypassPatterns in Hp.
      apply elem_of_app in Hp as [Hp | Hp]; apply elem_of_app;
        [by left | right].
      destruct (addPattern_keeps inputValue patterns) as [k ->].
      apply elem_of_app. by left. }
  unfold onErrorOccurred. destruct (negb feature); [done|].
  destruct (findPlatformByDomain _); [done|]. by rewrite Hb.
Qed.

(** *** The default platform *)

Lemma PLATFORMS_get_defined (value : jsstring) :
  truthy (PLATFORMS_get value) = true ->
  forall D, updateDefaultPlatform D value = value.
Proof.
  intros H D. unfold updateDefaultPlatform.
  by destruct (PLATFORMS_get value).
Qed.

Lemma default_last_cons {A} (a b : A) (l : list A) :
  default a (last l) = default b (last (a :: l)).
Proof.
  destruct l as [|x l]; [done|].
  change (last (a :: x :: l)) with (last (x :: l)).
  destruct (last (x :: l)) eqn:E; [done|]. by apply last_None in E.
Qed.

(** The default platform of the background page is [github] or the last
    stored value that names a property of the table; so the table always
    has a property of that name. *)
Lemma default_platform_invariant (values : list jsstring) :
  let D := fold_left updateDefaultPlatform values "github" in
  truthy (PLATFORMS_get D) = true /\
  D = default ("github" : jsstring)
        (last (List.filter (fun v => truthy (PLATFORMS_get v)) values)).
Proof.
  cbv zeta.
  assert (H : forall D0 : jsstring, truthy (PLATFORMS_get D0) = true ->
    truthy (PLATFORMS_get (fold_left updateDefaultPlatform values D0)) = true /\
    fold_left updateDefaultPlatform values D0
    = default D0 (last (List.filter (fun v => truthy (PLATFORMS_get v))
                          values))).
  { induction values as [|v values IH]; intros D0 HD0; [done|]. simpl.
    unfold updateDefaultPlatform at 2 4.
    destruct (PLATFORMS_get v) as [c| |] eqn:Ev; simpl.
    - destruct (IH v) as [H1 H2]; [by rewrite Ev|]. split; [done|].
      rewrite H2. apply default_last_cons.
    - destruct (IH v) as [H1 H2]; [by rewrite Ev|]. split; [done|].
      rewrite H2. apply default_last_cons.
    - by apply IH. }
  apply H. by vm_compute.
Qed.

(** The platform that the options page shows as selected is a platform of
    the table with repositories, whatever is stored, and the background
    page takes it as its default when it is saved. *)
Lemma selected_platform_registered (value D : jsstring) :
  (exists config, (selectedDefaultPlatform value, config) ∈ PLATFORMS /\
                  singleName config = false /\ hosting_template config) /\
  updateDefaultPlatform D (selectedDefaultPlatform value)
  = selectedDefaultPlatform value.
Proof.
  assert (H : exists config,
    (selectedDefaultPlatform value, config) ∈ PLATFORMS /\
    singleName config = false /\ hosting_template config).
  { assert (HF : Forall (fun key =>
               match registered key with
               | Some c => negb (singleName c)
                           && bool_decide (hosting_template c)
               | None => false
               end = true) (("github" : jsstring) :: AVAILABLE_DEFAULT_PLATFORMS))
      by (by vm_compute; repeat constructor).
    rewrite Forall_forall in HF.
    assert (Hin : selectedDefaultPlatform value
                  ∈ ("github" : jsstring) :: AVAILABLE_DEFAULT_PLATFORMS).
    { unfold selectedDefaultPlatform.
      destruct (arrayIncludes _ value) eqn:E; [right | by left].
      by apply arrayIncludes_spec in E. }
    apply HF in Hin.
    destruct (registered (selectedDefaultPlatform value)) as [c|] eqn:Ec;
      [|done].
    apply andb_true_iff in Hin as [Hs Ht]. apply bool_decide_eq_true in Ht.
    exists c. split; [by apply registered_elem|].
    split; [by destruct (singleName c) | done]. }
  split; [done|]. destruct H as (config & Hin & _).
  apply PLATFORMS_get_defined.
  unfold PLATFORMS_get. by rewrite (registered_in _ _ Hin).
Qed.

End OptionsFacts.

(** ** The hints: the background page and the content scripts together *)

Module HintFacts.
Import Js Platforms Background Spec MoreSpec Handlers HandlerSpec Omnibox Content.
Import JsFacts PatternFacts ResolverFacts SubstFacts ResolverMore.
Import DispatchFacts SearchFacts ListenerFacts OmniboxFacts.

Local Open Scope Z_scope.

Lemma registered_nonempty key config :
  (key, config) ∈ PLATFORMS -> isEmpty key = false.
Proof.
  intros H.
  assert (HF : Forall (fun e => isEmpty (fst e) = false) PLATFORMS)
    by (by vm_compute; repeat constructor).
  rewrite Forall_forall in HF. by apply HF in H.
Qed.

Lemma search_target_fields d (query : jsstring) t :
  default_registered d -> parseSearchQuery d query = Some t ->
  exists config url,
    (platform t, config) ∈ PLATFORMS /\
    isEmpty (platform t) = false /\ isEmpty (owner t) = false /\
    buildRepoUrl (platform t) (owner t) (repo t) (path t) = Return (Some url) /\
    isEmpty url = false.
Proof.
  intros Hd Ht.
  destruct (resolved_target_builds d query t Hd (or_intror Ht))
    as (config & url & Hin & Hb & _).
  exists config, url. split; [done|].
  split; [by apply (registered_nonempty _ config)|]. split.
  - apply parseSearchQuery_syntax in Ht as [[Hlen _] _].
    destruct (owner t); [simpl in Hlen; lia | done].
  - split; [done|]. by apply (buildRepoUrl_nonempty _ config _ _ _ _ Hin Hb).
Qed.

(** The [executeSearchJump] message for a target of the resolver takes the
    tab of the sender to the URL built from the target. *)
Lemma executeSearchJump_opens d (query : jsstring) target (tab now now' : Z) st :
  default_registered d -> parseSearchQuery d query = Some target ->
  tab <> 0 ->
  exists url,
    buildRepoUrl (platform target) (owner target) (repo target) (path target)
      = Return (Some url) /\
    fst (executeSearchJump now now' target (Some tab) st)
      = [TabsUpdate (Some tab) url].
Proof.
  intros Hd Ht Htab.
  destruct (search_target_fields d query target Hd Ht)
    as (config & url & Hin & Hp & Ho & Hb & Hu).
  exists url. split; [done|].
  unfold executeSearchJump, openRepoUnified_full. simpl.
  rewrite Hp, Ho, Hb, Hu. simpl. rewrite (PLATFORMS_get_own _ _ Hin).
  unfold equals, eqb. simpl.
  by destruct (Z.eqb_spec tab 0).
Qed.

(** In the tabJump mode, a search that resolves to a target leaves the
    target for the tab; the script of the search page shows it within 3000
    ms; the Tab key then sends the target to the background page, once, and
    the background page takes the tab to the URL built from the target. *)
Lemma tab_jump_round d feature (now now' now'' : Z) nav st effects st' :
  default_registered d -> nav_tabId nav <> 0 ->
  onBeforeNavigate d feature "tabJump" now now' now'' nav st = (effects, st') ->
  effects <> [] ->
  exists target url,
    search_target d nav target /\
    buildRepoUrl (platform target) (owner target) (repo target) (path target)
      = Return (Some url) /\
    forall s t t1 t2,
      let s1 := fold_left store effects s in
      let s2 := remove_search_jump (nav_tabId nav) s1 in
      t <= now' + 3000 ->
      tabJumpHint (Some (nav_tabId nav)) t s1 = (Some target, s1) /\
      onTabKey (nav_tabId nav) s1 = (Some target, s2) /\
      onTabKey (nav_tabId nav) s2 = (None, s2) /\
      fst (executeSearchJump t1 t2 target (Some (nav_tabId nav)) st')
        = [TabsUpdate (Some (nav_tabId nav)) url].
Proof.
  intros Hd Htab H Hne.
  pose proof (onBeforeNavigate_tabJump d feature now now' now'' nav st)
    as [[He | (target & Ht & He)] _]; rewrite H in He; simpl in He; [done|].
  subst effects. destruct Ht as (q & Hq & Hp).
  destruct (executeSearchJump_opens d q target (nav_tabId nav) 0 0 st' Hd Hp Htab)
    as (url & Hb & _).
  exists target, url. split; [by exists q|]. split; [done|].
  intros s t t1 t2 s1 s2 Hlt. subst s1 s2. simpl.
  split; [|split; [|split]].
  - unfold tabJumpHint, truthyNumber.
    destruct (Z.eqb_spec (nav_tabId nav) 0); [done|]. simpl.
    rewrite lookup_insert_eq.
    by destruct (Z.ltb_spec 3000 (t - now')); [lia|].
  - unfold onTabKey. simpl. by rewrite lookup_insert_eq.
  - unfold onTabKey. simpl. by rewrite lookup_delete_eq.
  - destruct (executeSearchJump_opens d q target (nav_tabId nav) t1 t2 st'
                Hd Hp Htab) as (url' & Hb' & ->).
    congruence.
Qed.

(** In the autoJump mode, a search that the listener redirects in its own
    tab leaves the way back for the tab: within 5000 ms the script of the
    repository page shows the URL of the search and the name of the
    platform of the target, and removes the record, so that the hint is
    shown once. *)
Lemma auto_jump_way_back d feature (now now' now'' : Z) nav st effects st' :
  nav_tabId nav <> 0 -> nav_url nav <> [] ->
  onBeforeNavigate d feature "autoJump" now now' now'' nav st = (effects, st') ->
  navigations effects <> [] ->
  exists target config,
    search_target d nav target /\ PLATFORMS_get (platform target) = Own config /\
    forall s t mode t',
      let s1 := fold_left store effects s in
      let s2 := remove_repo_source (nav_tabId nav) s1 in
      t <= now'' + 5000 ->
      backToSearch "autoJump" (Some (nav_tabId nav)) t s1
        = (Some (nav_url nav, name config), s2) /\
      backToSearch mode (Some (nav_tabId nav)) t' s2 = (None, s2).
Proof.
  intros Htab Hurl. unfold onBeforeNavigate.
  destruct (negb (nav_frameId nav =? 0)); [by intros [= <- <-]|].
  destruct (negb feature); [by intros [= <- <-]|].
  destruct (negb (isPossibleSearchEngine _)); [by intros [= <- <-]|].
  destruct (extractSearchQuery _) as [q|] eqn:Eq; [|by intros [= <- <-]].
  destruct (isEmpty q); [by intros [= <- <-]|].
  destruct (parseSearchQuery d q) as [target|] eqn:Et; [|by intros [= <- <-]].
  destruct (isRecentJump now _ _ _ st) as [[|] st1]; [by intros [= <- <-]|].
  change (eqb "autoJump" "tabJump") with false. cbv iota.
  unfold openRepoUnified_full. simpl.
  destruct (isEmpty (platform target) || isEmpty (owner target));
    [by intros [= <- <-]|].
  destruct (buildRepoUrl _ _ _ _) as [[url|]|]; [|by intros [= <- <-]..].
  destruct (isEmpty url); [by intros [= <- <-]|].
  destruct (PLATFORMS_get (platform target)) as [config| |] eqn:Ec;
    [|by intros [= <- <-]..].
  unfold equals, eqb, truthyNumber, truthyString. simpl.
  destruct (Z.eqb_spec (nav_tabId nav) 0); [done|]. simpl.
  destruct (nav_url nav) as [|c u] eqn:Eu; [done|]. simpl.
  intros [= <- <-] _. exists target, config.
  split; [by exists q|]. split; [done|].
  intros s t mode t'. cbv zeta. intros Hlt. simpl. split.
  - unfold backToSearch, truthyNumber. simpl.
    destruct (Z.eqb_spec (nav_tabId nav) 0); [done|]. simpl.
    rewrite lookup_insert_eq.
    by destruct (Z.ltb_spec 5000 (t - now'')); [lia|].
  - unfold backToSearch. destruct (negb (eqb mode "autoJump")); [done|].
    destruct (negb _); [done|]. simpl. by rewrite lookup_delete_eq.
Qed.

End HintFacts.

(** ** The listener of requests against the listener for failed lookups *)

Module WebRequestFacts.
Import Js Regex Platforms Background Spec MoreSpec Handlers HandlerSpec WebRequest.
Import JsFacts PatternFacts ResolverFacts SubstFacts TrimFacts ResolverMore.
Import ListenerFacts OmniboxFacts.

Lemma repo_char_not_space c : is_repo_char c -> isWhiteSpace c = false.
Proof.
  destruct c as [[] [] [] [] [] [] [] []]; vm_compute; congruence.
Qed.

Lemma alnum_not_space c : is_alnum c -> isWhiteSpace c = false.
Proof.
  destruct c as [[] [] [] [] [] [] [] []]; vm_compute; congruence.
Qed.

Lemma bare_trimmed (o r : jsstring) :
  owner_word o -> repo_word r -> trimmed (o ++ "/"%char :: r).
Proof.
  intros Ho [Hlen Hr]. split.
  - intros c Hc. apply alnum_not_space.
    destruct Ho as [(x & -> & Hx) | (x & mid & y & -> & Hx & _)];
      injection Hc as <-; done.
  - intros c Hc. apply repo_char_not_space.
    destruct r as [|x r] using rev_ind; [simpl in Hlen; lia|].
    rewrite app_comm_cons, app_assoc, last_snoc in Hc. injection Hc as <-.
    apply Forall_app in Hr as [_ Hr]. by apply Forall_cons in Hr as [Hr _].
Qed.

(** When the listener of requests redirects, the address is a bare owner
    and repository, the URL is the one of that repository on GitHub, and
    the listener for failed lookups, with GitHub as the default platform,
    sends the same address to the same URL unless it takes the host for one
    of a platform or has just jumped there. *)
Lemma onBeforeRequest_redirect (type : jsstring) custom a repoUrl :
  onBeforeRequest type custom a = Some repoUrl ->
  exists o r,
    owner_word o /\ repo_word r /\
    dns_target github a
      {| platform := "github"; owner := o; repo := r; path := [] |} /\
    repoUrl = ("https://github.com/" : jsstring) ++ o ++ "/"%char :: r /\
    buildRepoUrl "github" o r [] = Return (Some repoUrl) /\
    forall now now' st,
      findPlatformByDomain (hostname a) = None ->
      fst (isRecentJump now "github" o r st) = false ->
      fst (onErrorOccurred github true custom now now' a st) = Some repoUrl.
Proof.
  unfold onBeforeRequest.
  destruct (negb (eqb type "main_frame")); [done|].
  destruct (eqb (hostname a) "github.com" || eqb (hostname a) "www.github.com");
    [done|].
  destruct (shouldBypass _ _) eqn:Eb; [done|]. cbv zeta.
  destruct (exec 2 REPO_PATTERN _) as [m|] eqn:Em; [|done].
  intros [= <-].
  pose proof Em as Em'.
  apply exec_REPO_PATTERN in Em' as (o & r & Ho & Hr & Hlen & E & ->).
  exists o, r. split; [done|]. split; [done|].
  assert (Hparse : dns_target github a
            {| platform := "github"; owner := o; repo := r; path := [] |}).
  { unfold dns_target.
    rewrite (bare_binds_default github _ [Some (o ++ "/"%char :: r); Some o; Some r]).
    - done.
    - rewrite trim_fixed by (rewrite E; by apply bare_trimmed).
      by rewrite Em, E. }
  assert (Hbuild : buildRepoUrl "github" o r []
                   = Return (Some (("https://github.com/" : jsstring)
                                     ++ o ++ "/"%char :: r))).
  { erewrite buildRepoUrl_plain;
      [| unfold PLATFORMS; by left
       | by apply owner_word_plain
       | intros _; by apply repo_word_plain
       | apply not_elem_of_nil].
    unfold target_url. simpl. by rewrite app_nil_r. }
  split; [done|]. split; [done|]. split; [done|].
  intros now now' st Hfind Hrecent. unfold onErrorOccurred. simpl negb.
  cbv iota. rewrite Hfind, Eb. unfold dns_target in Hparse. rewrite Hparse.
  cbn [platform owner repo path].
  destruct (isRecentJump now _ _ _ st) as [recent st1].
  simpl in Hrecent. subst recent. cbn [fst].
  unfold openRepoUnified. cbn [platform owner repo path]. rewrite Hbuild.
  destruct Ho as [(x & -> & _) | (x & mid & y & -> & _)]; done.
Qed.

End WebRequestFacts.

(** * Further properties of the program *)

Module Further.
Import Js Regex Platforms Background Spec MoreSpec.
Import Handlers Omnibox Options Content WebRequest HandlerSpec Examples.

Local Open Scope Z_scope.

(** X1. For a key of the table [buildRepoUrl] returns a URL, which is not
    empty.  When owner and repository hold no dollar sign and no opening
    brace and the path holds no dollar sign, the URL is the template with
    the fields copied in: the part before the first placeholder, the owner,
    a slash and the repository unless the platform has single names, and
    the path. *)
Theorem buildRepoUrl_copies_plain_fields key config (owner repo path : jsstring) :
  (key, config) ∈ PLATFORMS ->
  exists url,
    buildRepoUrl key owner repo path = Return (Some url) /\ url <> [] /\
    (plain owner -> (singleName config = false -> plain repo) ->
     "$"%char ∉ path -> url = target_url config owner repo path).
Proof.
  intros Hin.
  destruct (OmniboxFacts.openRepo_registered key config owner repo path []
              Hin) as (url & Hb & _).
  exists url. split; [done|]. split.
  - pose proof (OmniboxFacts.buildRepoUrl_nonempty _ _ _ _ _ _ Hin Hb) as H.
    by destruct url.
  - intros Ho Hr Hp.
    rewrite (SubstFacts.buildRepoUrl_plain _ _ _ _ _ Hin Ho Hr Hp) in Hb.
    by injection Hb as <-.
Qed.

Lemma buildRepoUrl_copies_plain_fields_witness :
  exists url,
    buildRepoUrl "gitlab" "gnome" "gtk" "/-/issues" = Return (Some url) /\
    url <> [] /\
    url = target_url (config_of "gitlab") "gnome" "gtk" "/-/issues".
Proof.
  destruct (buildRepoUrl_copies_plain_fields "gitlab" (config_of "gitlab")
              "gnome" "gtk" "/-/issues"
              (SubstFacts.registered_elem "gitlab" (config_of "gitlab") eq_refl))
    as (url & Hb & Hne & Hu).
  exists url. split; [exact Hb|]. split; [exact Hne|].
  apply Hu; [split | intros _; split |]; ResolverFacts.absent.
Defined.

(** X2. The substitution of [replace] reads the dollar signs of the path:
    with an owner and a repository without dollar sign and brace, a
    doubled dollar sign in the path comes out as a single one, and a dollar
    sign with an ampersand comes out as the placeholder of the path. *)
Theorem buildRepoUrl_reads_dollar_signs key config
    (owner repo pre post : jsstring) :
  (key, config) ∈ PLATFORMS ->
  plain owner -> (singleName config = false -> plain repo) ->
  "$"%char ∉ pre -> "$"%char ∉ post ->
  buildRepoUrl key owner repo (pre ++ "$$" ++ post)
    = Return (Some (target_url config owner repo (pre ++ "$" ++ post))) /\
  buildRepoUrl key owner repo (pre ++ "$&" ++ post)
    = Return (Some (target_url config owner repo (pre ++ "{path}" ++ post))).
Proof.
  intros Hin Ho Hr Hpre Hpost. by apply SubstFacts.buildRepoUrl_dollar.
Qed.

Lemma buildRepoUrl_reads_dollar_signs_witness :
  buildRepoUrl "github" "a" "b" "/x$$y"
    = Return (Some ("https://github.com/a/b/x$y" : jsstring)) /\
  buildRepoUrl "github" "a" "b" "/x$&y"
    = Return (Some ("https://github.com/a/b/x{path}y" : jsstring)).
Proof.
  apply (buildRepoUrl_reads_dollar_signs "github" (config_of "github")
           "a" "b" "/x" "y"
           (SubstFacts.registered_elem "github" (config_of "github") eq_refl));
    [split | intros _; split | |]; ResolverFacts.absent.
Defined.

(** X3. White space around the input changes nothing: [parseRepoInput]
    and [parseSearchQuery] give for the padded input what they give for the
    input, and for the trimmed input. *)
Theorem resolver_ignores_outer_space d (ws1 input ws2 : jsstring) :
  Forall (fun c => isWhiteSpace c = true) ws1 ->
  Forall (fun c => isWhiteSpace c = true) ws2 ->
  parseRepoInput d (ws1 ++ input ++ ws2) = parseRepoInput d input /\
  parseSearchQuery d (ws1 ++ input ++ ws2) = parseSearchQuery d input /\
  parseRepoInput d (trim input) = parseRepoInput d input /\
  parseSearchQuery d (trim input) = parseSearchQuery d input.
Proof.
  intros H1 H2.
  pose proof (TrimFacts.trim_pad ws1 input ws2 H1 H2) as E.
  split; [|split; [|split]].
  - rewrite <- (ResolverMore.parseRepoInput_trim d (ws1 ++ input ++ ws2)), E.
    apply ResolverMore.parseRepoInput_trim.
  - rewrite <- (ResolverMore.parseSearchQuery_trim d (ws1 ++ input ++ ws2)), E.
    apply ResolverMore.parseSearchQuery_trim.
  - apply ResolverMore.parseRepoInput_trim.
  - apply ResolverMore.parseSearchQuery_trim.
Qed.

Lemma resolver_ignores_outer_space_witness :
  parseRepoInput github ("  " ++ "rust-lang/rust" ++ [" "%char; "009"%char])
    = parseRepoInput github "rust-lang/rust".
Proof.
  apply (resolver_ignores_outer_space github "  " "rust-lang/rust"
           [" "%char; "009"%char]); by repeat constructor.
Defined.

(** X4. With a default platform of the table, every target of the resolver
    is on a platform of the table, and [buildRepoUrl] gives a URL for it,
    never null and never an exception; the URL is the template with the
    fields copied in when the path holds no dollar sign. *)
Theorem resolved_target_has_url d (input : jsstring) t :
  default_registered d ->
  parseRepoInput d input = Some t \/ parseSearchQuery d input = Some t ->
  exists config url,
    (platform t, config) ∈ PLATFORMS /\
    buildRepoUrl (platform t) (owner t) (repo t) (path t) = Return (Some url) /\
    url <> [] /\
    ("$"%char ∉ path t -> url = target_url config (owner t) (repo t) (path t)).
Proof.
  intros Hd Ht.
  destruct (ResolverMore.resolved_target_builds d input t Hd Ht)
    as (config & url & Hin & Hb & Hu).
  exists config, url. split; [done|]. split; [done|]. split; [|done].
  pose proof (OmniboxFacts.buildRepoUrl_nonempty _ _ _ _ _ _ Hin Hb) as H.
  by destruct url.
Qed.

Lemma resolved_target_has_url_witness :
  exists config url,
    (("gitlab" : jsstring), config) ∈ PLATFORMS /\
    buildRepoUrl "gitlab" "gnome" "gtk" "/-/issues" = Return (Some url) /\
    url <> [] /\
    ("$"%char ∉ ("/-/issues" : jsstring) ->
     url = target_url config "gnome" "gtk" "/-/issues").
Proof.
  apply (resolved_target_has_url github "gitlab.com/gnome/gtk/-/issues"
           {| platform := "gitlab"; owner := "gnome"; repo := "gtk";
              path := "/-/issues" |}).
  - exists (config_of "github").
    by apply (SubstFacts.registered_elem "github" (config_of "github")).
  - left. by vm_compute.
Defined.

(** X5. [findPlatformByKeyword] finds a platform exactly when the keyword,
    in lower case, is one of its keywords; so no keyword belongs to two
    platforms of the table. *)
Theorem keyword_lookup (k key : jsstring) :
  findPlatformByKeyword k = Some key <->
  exists config, (key, config) ∈ PLATFORMS /\ toLowerCase k ∈ keywords config.
Proof. apply ResolverMore.findPlatformByKeyword_spec. Qed.

(** X6. A query of two words: when the first is a keyword, the second is
    resolved on that platform; else, when the last is a keyword, the first
    is resolved on that platform; else the whole query is resolved on the
    default platform.  The platform of the keyword replaces the one that
    [parseRepoInput] finds for the other word. *)
Theorem search_query_of_two_words d (a sep b : jsstring) :
  word a -> separator sep -> word b ->
  parseSearchQuery d (a ++ sep ++ b)
  = match findPlatformByKeyword a, findPlatformByKeyword b with
    | Some p, _ => on_platform p <$> parseRepoInput d b
    | None, Some p => on_platform p <$> parseRepoInput d a
    | None, None =>
        on_platform (defaultPlatform d) <$> parseRepoInput d (a ++ sep ++ b)
    end.
Proof. intros Ha Hs Hb. by apply ResolverMore.parseSearchQuery_two_words. Qed.

Lemma search_query_of_two_words_witness :
  parseSearchQuery github ("gnome/gtk" ++ "  " ++ "GL")
  = Some {| platform := "gitlab"; owner := "gnome"; repo := "gtk";
            path := [] |}.
Proof.
  refine (eq_trans (search_query_of_two_words github "gnome/gtk" "  " "GL"
                      _ _ _) _);
    [split; [done | by repeat constructor]..|by vm_compute].
Defined.

(** X7. A query without white space is resolved as [parseRepoInput]
    resolves it, but on the default platform, also when it is the URL of
    another platform. *)
Theorem search_query_of_one_word d (query : jsstring) :
  Forall (fun c => isWhiteSpace c = false) (trim query) ->
  parseSearchQuery d query
  = on_platform (defaultPlatform d) <$> parseRepoInput d query.
Proof. intros H. by apply ResolverMore.parseSearchQuery_one_word. Qed.

Lemma search_query_of_one_word_witness :
  parseRepoInput github "gitlab.com/gnome/gtk"
    = Some {| platform := "gitlab"; owner := "gnome"; repo := "gtk";
              path := [] |} /\
  parseSearchQuery github "gitlab.com/gnome/gtk"
    = Some {| platform := "github"; owner := "gnome"; repo := "gtk";
              path := [] |}.
Proof.
  split; [by vm_compute|].
  refine (eq_trans (search_query_of_one_word github "gitlab.com/gnome/gtk" _) _);
    [by repeat constructor | by vm_compute].
Defined.

(** X8. Building the URL of a target on a platform whose template is the
    domain followed by owner, repository and path, and resolving that URL,
    gives the target back, whatever the default platforms are. *)
Theorem built_url_resolves_back d d' (input : jsstring) t config :
  parseRepoInput d input = Some t ->
  (platform t, config) ∈ PLATFORMS -> hosting_template config ->
  "$"%char ∉ path t ->
  exists url,
    buildRepoUrl (platform t) (owner t) (repo t) (path t) = Return (Some url) /\
    parseRepoInput d' url = Some t.
Proof. intros H Hin Ht Hp. by eapply RoundTrip.build_then_parse. Qed.

Lemma built_url_resolves_back_witness :
  exists url,
    buildRepoUrl "github" "rust-lang" "rust" "/pulls" = Return (Some url) /\
    parseRepoInput (Some ("gitee" : jsstring)) url
      = Some {| platform := "github"; owner := "rust-lang"; repo := "rust";
                path := "/pulls" |}.
Proof.
  apply (built_url_resolves_back github (Some ("gitee" : jsstring))
           " rust-lang/rust/pulls"
           {| platform := "github"; owner := "rust-lang"; repo := "rust";
              path := "/pulls" |} (config_of "github")).
  - by vm_compute.
  - by apply (SubstFacts.registered_elem "github" (config_of "github")).
  - reflexivity.
  - ResolverFacts.absent.
Defined.

(** X9. [openRepoUnified] asks for one page, the URL that it returns,
    which is the URL of [buildRepoUrl], and for nothing when it returns
    null.  It stores where the jump came from only in the autoJump mode and
    only when it sends the tab of the search there; without a tab id it
    opens a new tab. *)
Theorem dispatcher_effects (now : Z) (p : params) url effects :
  openRepoUnified_full now p = Return (url, effects) ->
  url = openRepoUnified (target p) /\
  match url with
  | None => effects = []
  | Some repoUrl =>
      buildRepoUrl (platform (target p)) (owner (target p)) (repo (target p))
        (path (target p)) = Return (Some repoUrl) /\
      exists stores nav, effects = stores ++ [nav] /\
        navigation_to repoUrl nav /\
        (truthyNumber (tabId p) = false ->
         exists active, nav = TabsCreate repoUrl active) /\
        (stores = [] \/
         exists tab source platformName,
           stores = [StoreRepoSource tab source platformName now] /\
           tabId p = Some tab /\ sourceUrl p = Some source /\
           searchRedirectMode p = Some ("autoJump" : jsstring) /\
           nav = TabsUpdate (Some tab) repoUrl)
  end.
Proof.
  intros H. split.
  - pose proof (DispatchFacts.openRepoUnified_full_url now p) as E.
    by rewrite H in E.
  - by apply DispatchFacts.openRepoUnified_effects.
Qed.

Lemma dispatcher_effects_witness :
  Some ("https://github.com/microsoft/vscode" : jsstring)
    = openRepoUnified vscode.
Proof.
  refine (proj1 (dispatcher_effects 1000
           {| target := vscode; tabId := Some 7; sourceUrl := None;
              disposition := Some ("newBackgroundTab" : jsstring);
              searchRedirectMode := None |}
           (Some ("https://github.com/microsoft/vscode" : jsstring))
           [TabsCreate "https://github.com/microsoft/vscode" false] _)).
  by vm_compute.
Defined.

(** X10. [extractSearchQuery] returns the value, as it stands, of the first
    of its parameter names, in the order of its list, whose value in the
    URL is not blank: the names before it are absent from the URL or have
    blank values. *)
Theorem search_query_extraction (urlObj : location) (value : jsstring) :
  extractSearchQuery (Some urlObj) = Some value <->
  exists skipped name rest, searchParams = skipped ++ name :: rest /\
    first_value (loc_searchParams urlObj) name value /\ ~ blank value /\
    Forall (fun n => forall w,
              first_value (loc_searchParams urlObj) n w -> blank w) skipped.
Proof. apply SearchFacts.extractSearchQuery_spec. Qed.

(** X11. A URL from which [extractSearchQuery] gets a query is one that
    [isPossibleSearchEngine] accepts, unless its host is excluded: the two
    functions agree on the names of the parameters.  The query is not
    blank, so the listener's test for an empty query never fires on it. *)
Theorem query_means_search_engine (loc : option location) (value : jsstring) :
  extractSearchQuery loc = Some value ->
  (exists urlObj, loc = Some urlObj /\ ~ excluded_host (loc_hostname urlObj)) ->
  isPossibleSearchEngine loc = true /\ ~ blank value /\ isEmpty value = false.
Proof.
  intros Hq Hex.
  destruct (SearchFacts.query_is_search loc value Hq Hex) as (H1 & H2 & H3).
  split; [done|]. split; [done|]. by destruct value.
Qed.

Lemma query_means_search_engine_witness :
  isPossibleSearchEngine (nav_location search_vscode) = true /\
  ~ blank ("microsoft/vscode" : jsstring) /\
  isEmpty ("microsoft/vscode" : jsstring) = false.
Proof.
  apply (query_means_search_engine (nav_location search_vscode)
           "microsoft/vscode"); [by vm_compute|].
  eexists. split; [reflexivity|].
  intros H. apply SearchFacts.excluded_host_spec in H. by vm_compute in H.
Defined.

(** X12. The listener for searches does nothing, and leaves the ledger as
    it is, in a frame that is not the main one, with the feature switched
    off, for a URL that does not parse and on an excluded host. *)
Theorem search_listener_stays_quiet d feature mode (now now' now'' : Z) nav st :
  nav_frameId nav <> 0 \/ feature = false \/ nav_location nav = None \/
  (exists urlObj, nav_location nav = Some urlObj /\
                  excluded_host (loc_hostname urlObj)) ->
  onBeforeNavigate d feature mode now now' now'' nav st = ([], st).
Proof. intros H. by apply ListenerFacts.onBeforeNavigate_quiet. Qed.

Lemma search_listener_stays_quiet_witness :
  onBeforeNavigate github true "autoJump" 1000 1001 1002
    {| nav_url := "https://gist.github.com/search?q=microsoft/vscode";
       nav_frameId := 0; nav_tabId := 7;
       nav_location :=
         Some {| loc_hostname := "gist.github.com";
                 loc_searchParams :=
                   [("q" : jsstring, "microsoft/vscode" : jsstring)] |} |}
    no_jumps
  = ([], no_jumps).
Proof.
  apply search_listener_stays_quiet. right. right. right.
  eexists. split; [reflexivity|].
  exists ("github.com" : jsstring). split; [by left|].
  by exists ("gist." : jsstring), ([] : jsstring).
Defined.

(** X13. In the tabJump mode the listener for searches opens no page and
    sets no timer, and the ledger gets no record: at most it stores the
    target for the tab, and only a target that the query resolves to. *)
Theorem search_listener_in_tabJump_mode d feature (now now' now'' : Z) nav st :
  let r := onBeforeNavigate d feature "tabJump" now now' now'' nav st in
  (fst r = [] \/
   exists t, search_target d nav t /\
     fst r = [StoreSearchJump (nav_tabId nav) t now']) /\
  timers (snd r) = timers st /\ recentJumps (snd r) ⊆ recentJumps st.
Proof. apply ListenerFacts.onBeforeNavigate_tabJump. Qed.

(** X14. When the listener for searches opens a page, the query resolves
    to a target, the page is the URL built from it, and the ledger holds
    the record of the target with the time of the jump.  When that time is
    not 0, neither listener acts on the target before 5000 ms have passed,
    whatever happens in between short of a new record of the target. *)
Theorem search_redirect_is_guarded d feature mode (now now' now'' : Z) nav st
    effects st' :
  onBeforeNavigate d feature mode now now' now'' nav st = (effects, st') ->
  navigations effects <> [] ->
  exists target repoUrl nav_effect,
    search_target d nav target /\
    buildRepoUrl (platform target) (owner target) (repo target) (path target)
      = Return (Some repoUrl) /\
    navigations effects = [nav_effect] /\ navigation_to repoUrl nav_effect /\
    kept (guard_key target) now' st' /\
    (now' <> 0 ->
     forall evs t, t < now' + 5000 -> undisturbed (guard_key target) t evs ->
       quiet_for d target t (run evs st')).
Proof.
  intros H Hnav.
  destruct (ListenerFacts.onBeforeNavigate_redirect _ _ _ _ _ _ _ _ _ _ H Hnav)
    as (target & repoUrl & e & Ht & Hb & He & Hn & Hk).
  exists target, repoUrl, e. repeat (split; [done|]).
  intros Hnow evs t Hlt Hevs.
  apply (ListenerFacts.recorded_target_quiet d now'); [|done..].
  by apply (GuardFacts.run_kept _ _ Hnow t).
Qed.

Lemma search_redirect_is_guarded_witness :
  exists target repoUrl nav_effect,
    search_target github search_vscode target /\
    buildRepoUrl (platform target) (owner target) (repo target) (path target)
      = Return (Some repoUrl) /\
    navigations (fst redirected) = [nav_effect] /\
    navigation_to repoUrl nav_effect /\
    kept (guard_key target) 1001 (snd redirected) /\
    (1001 <> 0 ->
     forall evs t, t < 1001 + 5000 -> undisturbed (guard_key target) t evs ->
       quiet_for github target t (run evs (snd redirected))).
Proof.
  apply (search_redirect_is_guarded github true "autoJump" 1000 1001 1002
           search_vscode no_jumps (fst redirected) (snd redirected));
    by vm_compute.
Defined.

(** X15. When the listener for failed lookups redirects, the address
    resolves to a target, the URL is the one built from it, and the ledger
    holds the record of the target with the time of the jump.  When that
    time is not 0, neither listener acts on the target before 5000 ms have
    passed, whatever happens in between short of a new record of the
    target. *)
Theorem failed_lookup_redirect_is_guarded d feature custom (now now' : Z) a st
    repoUrl st' :
  onErrorOccurred d feature custom now now' a st = (Some repoUrl, st') ->
  exists target,
    dns_target d a target /\
    buildRepoUrl (platform target) (owner target) (repo target) (path target)
      = Return (Some repoUrl) /\
    kept (guard_key target) now' st' /\
    (now' <> 0 ->
     forall evs t, t < now' + 5000 -> undisturbed (guard_key target) t evs ->
       quiet_for d target t (run evs st')).
Proof.
  intros H.
  destruct (ListenerFacts.onErrorOccurred_redirect _ _ _ _ _ _ _ _ _ H)
    as (target & Ht & Hb & Hk).
  exists target. repeat (split; [done|]).
  intros Hnow evs t Hlt Hevs.
  apply (ListenerFacts.recorded_target_quiet d now'); [|done..].
  by apply (GuardFacts.run_kept _ _ Hnow t).
Qed.

Lemma failed_lookup_redirect_is_guarded_witness :
  exists target,
    dns_target github failed_lookup target /\
    buildRepoUrl (platform target) (owner target) (repo target) (path target)
      = Return (Some ("https://github.com/microsoft/vscode" : jsstring)) /\
    kept (guard_key target) 1001 (snd lookup_redirected) /\
    (1001 <> 0 ->
     forall evs t, t < 1001 + 5000 -> undisturbed (guard_key target) t evs ->
       quiet_for github target t (run evs (snd lookup_redirected))).
Proof.
  apply (failed_lookup_redirect_is_guarded github true [] 1000 1001
           failed_lookup no_jumps). by vm_compute.
Defined.

(** X16. The [executeSearchJump] message records the target, at the time
    of its arrival, whatever becomes of the page; when that time is not 0,
    neither listener acts on the target before 5000 ms have passed. *)
Theorem executeSearchJump_is_guarded d (now now' : Z) data tab st :
  now <> 0 ->
  forall evs t, t < now + 5000 -> undisturbed (guard_key data) t evs ->
    quiet_for d data t (run evs (snd (executeSearchJump now now' data tab st))).
Proof. intros H evs t Hlt Hevs. by apply ListenerFacts.executeSearchJump_guard. Qed.

Lemma executeSearchJump_is_guarded_witness :
  quiet_for github vscode 4000
    (run [(2000, IsRecent "gitlab" "gnome" "gtk")]
       (snd (executeSearchJump 1000 1001 vscode (Some 7) no_jumps))).
Proof.
  apply (executeSearchJump_is_guarded github 1000 1001 vscode (Some 7) no_jumps);
    [lia | lia |].
  repeat constructor; simpl; [lia | tauto].
Defined.



(** X18. The record of a jump does not outlive its timer: once the timer
    that [recordJump] set has run, which is not before 10000 ms have
    passed, the record is gone, whatever happened in between short of a
    new record of the same key. *)
Theorem record_is_purged (T : Z) p o r st evs (now : Z) :
  T <> 0 ->
  Forall (fun e => ~ records (jumpKey p o r) (snd e)) evs ->
  T + 10000 <= now ->
  let st' := run evs (recordJump T p o r st) in
  recentJumps (step now (Timeout (jumpKey p o r) (T + 10000)) st')
    !! jumpKey p o r = None.
Proof. intros HT Hevs Hnow. by apply LedgerFacts.record_purged. Qed.

Lemma record_is_purged_witness :
  recentJumps
    (step 11500 (Timeout (jumpKey "github" "microsoft" "vscode") (1000 + 10000))
       (run [(3000, IsRecent "github" "microsoft" "vscode");
             (4000, Record_ "gitlab" "gnome" "gtk")]
          (recordJump 1000 "github" "microsoft" "vscode" no_jumps)))
    !! jumpKey "github" "microsoft" "vscode" = None.
Proof.
  apply (record_is_purged 1000 "github" "microsoft" "vscode" no_jumps
           [(3000, IsRecent "github" "microsoft" "vscode");
            (4000, Record_ "gitlab" "gnome" "gtk")] 11500); [lia | | lia].
  repeat constructor; simpl; [tauto | discriminate].
Defined.

(** X19. Two targets that the resolver gives share a record of the ledger
    only when they agree on platform, owner and repository, the default
    platforms being platforms of the table. *)
Theorem guard_key_is_injective d d' (query query' : jsstring) t t' :
  default_registered d -> default_registered d' ->
  parseSearchQuery d query = Some t -> parseSearchQuery d' query' = Some t' ->
  guard_key t = guard_key t' ->
  platform t = platform t' /\ owner t = owner t' /\ repo t = repo t'.
Proof.
  intros Hd Hd' Ht Ht' E.
  by apply (LedgerFacts.guard_key_injective d d' query query').
Qed.

Lemma guard_key_is_injective_witness :
  platform vscode = "github" /\ owner vscode = "microsoft" /\
  repo vscode = "vscode".
Proof.
  apply (guard_key_is_injective github None "microsoft/vscode"
           "gh  microsoft/vscode/issues" vscode
           {| platform := "github"; owner := "microsoft"; repo := "vscode";
              path := "/issues" |});
    [| done | by vm_compute | by vm_compute | reflexivity].
  exists (config_of "github").
  by apply (SubstFacts.registered_elem "github" (config_of "github")).
Defined.

(** X20. The listener of the address bar opens at most one page, and
    opens it the way the browser asks for: in the current tab, in a new tab
    in front, or in a new tab behind. *)
Theorem address_bar_opens_one_page D feature (text disposition : jsstring)
    effects :
  onInputEntered D feature text disposition = Return effects ->
  effects = [] \/ exists url, effects = [openUrl url disposition].
Proof. intros H. by eapply OmniboxFacts.onInputEntered_one_page. Qed.

Lemma address_bar_opens_one_page_witness :
  [TabsCreate "https://www.npmjs.com/package/react" false] = [] \/
  exists url,
    [TabsCreate "https://www.npmjs.com/package/react" false]
    = [openUrl url "newBackgroundTab"].
Proof.
  apply (address_bar_opens_one_page "github" true "npm react"
           "newBackgroundTab"). by vm_compute.
Defined.

(** X21. For a text without white space that the resolver understands,
    and that is no URL of an unknown host, the address bar opens the URL
    built from the target of the resolver, when the default platform is
    one with repositories. *)
Theorem address_bar_follows_resolver D config (text disposition : jsstring) t :
  (D, config) ∈ PLATFORMS -> singleName config = false ->
  Forall (fun c => isWhiteSpace c = false) (trim text) ->
  (forall m, exec 4 FULL_URL_PATTERN (trim text) = Some m ->
             is_Some (findPlatformByDomain (group m 1))) ->
  parseRepoInput (Some D) text = Some t ->
  exists url,
    buildRepoUrl (platform t) (owner t) (repo t) (path t) = Return (Some url) /\
    onInputEntered D true text disposition = Return [openUrl url disposition].
Proof.
  intros HD Hs Hw Hk Ht. by apply (OmniboxFacts.onInputEntered_resolved D config).
Qed.

Lemma address_bar_follows_resolver_witness :
  exists url,
    buildRepoUrl "gitlab" "gnome" "gtk" [] = Return (Some url) /\
    onInputEntered "github" true " gitlab.com/gnome/gtk" "currentTab"
    = Return [openUrl url "currentTab"].
Proof.
  apply (address_bar_follows_resolver "github" (config_of "github")
           " gitlab.com/gnome/gtk" "currentTab"
           {| platform := "gitlab"; owner := "gnome"; repo := "gtk";
              path := [] |}).
  - by apply (SubstFacts.registered_elem "github" (config_of "github")).
  - reflexivity.
  - vm_compute. by repeat constructor.
  - intros m Hm. vm_compute in Hm. injection Hm as <-.
    exists ("gitlab" : jsstring). by vm_compute.
  - by vm_compute.
Defined.

(** X22. A keyword of a platform with single names and a name, in either
    order, open the page of the package of that name; the name may hold one
    slash.  When both words are keywords, the first one is the platform. *)
Theorem address_bar_opens_package D (kw sep name disposition : jsstring)
    p config :
  findPlatformByKeyword kw = Some p ->
  (p, config) ∈ PLATFORMS -> singleName config = true ->
  word kw -> separator sep -> word name -> plain name ->
  (slashes name < 2)%nat ->
  onInputEntered D true (kw ++ sep ++ name) disposition
    = Return [openUrl (url_prefix config ++ name) disposition] /\
  (findPlatformByKeyword name = None ->
   onInputEntered D true (name ++ sep ++ kw) disposition
     = Return [openUrl (url_prefix config ++ name) disposition]).
Proof.
  intros Hk Hin Hs Hkw Hsep Hname Hplain Hsl.
  by apply (OmniboxFacts.onInputEntered_package D kw sep name disposition p).
Qed.

Lemma address_bar_opens_package_witness :
  onInputEntered "github" true ("NPM" ++ " " ++ "@babel/core") "currentTab"
    = Return [openUrl (url_prefix (config_of "npm") ++ "@babel/core")
                "currentTab"] /\
  (findPlatformByKeyword "@babel/core" = None ->
   onInputEntered "github" true ("@babel/core" ++ " " ++ "NPM") "currentTab"
     = Return [openUrl (url_prefix (config_of "npm") ++ "@babel/core")
                 "currentTab"]).
Proof.
  apply (address_bar_opens_package "github" "NPM" " " "@babel/core"
           "currentTab" "npm" (config_of "npm")).
  - by vm_compute.
  - by apply (SubstFacts.registered_elem "npm" (config_of "npm")).
  - reflexivity.
  - split; [done | by repeat constructor].
  - split; [done | by repeat constructor].
  - split; [done | by repeat constructor].
  - split; ResolverFacts.absent.
  - vm_compute. lia.
Defined.

(** X23. A single word, without slash, opens a home page when it begins a
    keyword: the one of the default platform if that is among the
    platforms with such a keyword, else the one of the first such platform
    of the table.  A word that begins no keyword opens the page of the user
    of that name on the default platform. *)
Theorem address_bar_single_word D config (text disposition : jsstring) :
  word (trim text) -> "/"%char ∉ trim text ->
  (D, config) ∈ PLATFORMS ->
  let lower := toLowerCase (trim text) in
  (keyword_prefix lower config ->
   onInputEntered D true text disposition
   = Return [openUrl (home config) disposition]) /\
  (forall key first,
     ~ keyword_prefix lower config -> first_match lower key first ->
     onInputEntered D true text disposition
     = Return [openUrl (home first) disposition]) /\
  ((forall key other, (key, other) ∈ PLATFORMS -> ~ keyword_prefix lower other) ->
   onInputEntered D true text disposition
   = Return [openUrl (user_page config (trim text)) disposition]).
Proof.
  intros Hw Hs HD. by apply OmniboxFacts.onInputEntered_single_word.
Qed.

Lemma address_bar_single_word_witness :
  onInputEntered "gitlab" true " Git " "currentTab"
  = Return [openUrl "https://gitlab.com/" "currentTab"].
Proof.
  refine (proj1 (address_bar_single_word "gitlab" (config_of "gitlab")
                   " Git " "currentTab" _ _ _) _).
  - split; [done | vm_compute; by repeat constructor].
  - change (trim " Git ") with ("Git" : jsstring). ResolverFacts.absent.
  - by apply (SubstFacts.registered_elem "gitlab" (config_of "gitlab")).
  - exists ("gitlab" : jsstring), ("lab" : jsstring). split; [|reflexivity].
    vm_compute. by left.
Defined.

(** X24. A text of the form of a URL whose host belongs to no platform
    opens the template of the default platform with empty fields, also
    where the resolver reads the text as owner, repository and path. *)
Theorem address_bar_unknown_host D config (text disposition : jsstring) m :
  (D, config) ∈ PLATFORMS ->
  exec 4 FULL_URL_PATTERN (trim text) = Some m ->
  findPlatformByDomain (group m 1) = None ->
  onInputEntered D true text disposition
  = Return [openUrl (target_url config [] [] []) disposition].
Proof.
  intros HD Hm Hp. by apply (OmniboxFacts.onInputEntered_unknown_host D config _ _ m).
Qed.

Lemma address_bar_unknown_host_witness :
  parseRepoInput github "zzz/vscode/issues"
    = Some {| platform := "github"; owner := "zzz"; repo := "vscode";
              path := "/issues" |} /\
  onInputEntered "github" true "zzz/vscode/issues" "currentTab"
    = Return [openUrl "https://github.com//" "currentTab"].
Proof.
  split; [by vm_compute|].
  apply (address_bar_unknown_host "github" (config_of "github")
           "zzz/vscode/issues" "currentTab"
           [Some ("zzz/vscode/issues" : jsstring); Some ("zzz" : jsstring);
            Some ("vscode" : jsstring); Some ("issues" : jsstring); None]).
  - by apply (SubstFacts.registered_elem "github" (config_of "github")).
  - by vm_compute.
  - by vm_compute.
Defined.

(** X25. Whatever the user does on the options page, the list of rules
    holds no rule twice, and every rule is what [trim] leaves of an input
    and not empty, if the list was so before, as the empty list is. *)
Theorem rules_stay_well_formed (actions : list action) patterns :
  NoDup patterns -> Forall well_formed_rule patterns ->
  NoDup (fold_left perform actions patterns) /\
  Forall well_formed_rule (fold_left perform actions patterns).
Proof. intros Hnd Hwf. by apply OptionsFacts.rules_invariant. Qed.

Lemma rules_stay_well_formed_witness :
  NoDup (fold_left perform
           [Add " intranet "; Add "intranet"; Add "   "; Add "10.1."; Delete 0]
           []) /\
  Forall well_formed_rule
    (fold_left perform
       [Add " intranet "; Add "intranet"; Add "   "; Add "10.1."; Delete 0]
       []).
Proof.
  apply (rules_stay_well_formed
           [Add " intranet "; Add "intranet"; Add "   "; Add "10.1."; Delete 0]
           []); constructor.
Defined.

(** X26. Once the user has entered a rule, the listener for failed lookups
    leaves alone every address in which the rule, trimmed, occurs up to
    case; and it goes on leaving alone the addresses that a rule of the
    list covered before. *)
Theorem added_rule_is_obeyed d feature (inputValue : jsstring) patterns
    (now now' : Z) a st :
  (trim inputValue <> [] /\ occurs_in_nocase (trim inputValue) (url a)) \/
  shouldBypass (url a) (getBypassPatterns patterns) = true ->
  onErrorOccurred d feature (fst (addPattern inputValue patterns)) now now' a st
  = (None, st).
Proof. intros H. by apply OptionsFacts.added_rule_bypasses. Qed.

Lemma added_rule_is_obeyed_witness :
  fst lookup_redirected = Some ("https://github.com/microsoft/vscode" : jsstring) /\
  onErrorOccurred github true (fst (addPattern " Microsoft/ " [])) 1000 1001
    failed_lookup no_jumps
  = (None, no_jumps).
Proof.
  split; [by vm_compute|].
  apply (added_rule_is_obeyed github true " Microsoft/ " [] 1000 1001
           failed_lookup no_jumps).
  left. split; [by vm_compute|].
  exists ("microsoft/" : jsstring). split; [|by vm_compute].
  by exists ("http://" : jsstring), ("vscode" : jsstring).
Defined.

(** X27. The default platform of the background page is [github] or the
    last stored value that names a property of the table, so the table
    always has a property of that name.  The platform that the options
    page shows as selected, whatever is stored, is a platform of the table
    with repositories, and the background page takes it when it is
    saved. *)
Theorem default_platform_is_known (values : list jsstring) (value D0 : jsstring) :
  let D := fold_left updateDefaultPlatform values "github" in
  truthy (PLATFORMS_get D) = true /\
  D = default ("github" : jsstring)
        (last (List.filter (fun v => truthy (PLATFORMS_get v)) values)) /\
  (exists config, (selectedDefaultPlatform value, config) ∈ PLATFORMS /\
                  singleName config = false /\ hosting_template config) /\
  updateDefaultPlatform D0 (selectedDefaultPlatform value)
  = selectedDefaultPlatform value.
Proof.
  cbv zeta.
  destruct (OptionsFacts.default_platform_invariant values) as [H1 H2].
  destruct (OptionsFacts.selected_platform_registered value D0) as [H3 H4].
  done.
Qed.

(** X28. In the tabJump mode, a search that resolves to a target leaves
    the target for the tab; the script of the search page shows it within
    3000 ms; the Tab key then sends the target to the background page,
    once, and the background page takes the tab to the URL built from the
    target. *)
Theorem tab_jump_round_trip d feature (now now' now'' : Z) nav st effects st' :
  default_registered d -> nav_tabId nav <> 0 ->
  onBeforeNavigate d feature "tabJump" now now' now'' nav st = (effects, st') ->
  effects <> [] ->
  exists target url,
    search_target d nav target /\
    buildRepoUrl (platform target) (owner target) (repo target) (path target)
      = Return (Some url) /\
    forall s t t1 t2,
      let s1 := fold_left store effects s in
      let s2 := remove_search_jump (nav_tabId nav) s1 in
      t <= now' + 3000 ->
      tabJumpHint (Some (nav_tabId nav)) t s1 = (Some target, s1) /\
      onTabKey (nav_tabId nav) s1 = (Some target, s2) /\
      onTabKey (nav_tabId nav) s2 = (None, s2) /\
      fst (executeSearchJump t1 t2 target (Some (nav_tabId nav)) st')
        = [TabsUpdate (Some (nav_tabId nav)) url].
Proof.
  intros Hd Htab H Hne.
  by apply (HintFacts.tab_jump_round d feature now now' now'' nav st).
Qed.

Lemma tab_jump_round_trip_witness :
  exists target url,
    search_target github search_vscode target /\
    buildRepoUrl (platform target) (owner target) (repo target) (path target)
      = Return (Some url) /\
    forall s t t1 t2,
      let s1 := fold_left store (fst held_for_tab) s in
      let s2 := remove_search_jump 7 s1 in
      t <= 1001 + 3000 ->
      tabJumpHint (Some 7) t s1 = (Some target, s1) /\
      onTabKey 7 s1 = (Some target, s2) /\
      onTabKey 7 s2 = (None, s2) /\
      fst (executeSearchJump t1 t2 target (Some 7) (snd held_for_tab))
        = [TabsUpdate (Some 7) url].
Proof.
  apply (tab_jump_round_trip github true 1000 1001 1002 search_vscode no_jumps
           (fst held_for_tab) (snd held_for_tab)).
  - exists (config_of "github").
    by apply (SubstFacts.registered_elem "github" (config_of "github")).
  - by vm_compute.
  - by vm_compute.
  - by vm_compute.
Defined.

(** X29. In the autoJump mode, a search that the listener redirects in its
    own tab leaves the way back for the tab: within 5000 ms the script of
    the repository page shows the URL of the search and the name of the
    platform of the target, and removes the record, so that the hint is
    shown once. *)
Theorem auto_jump_leaves_way_back d feature (now now' now'' : Z) nav st
    effects st' :
  nav_tabId nav <> 0 -> nav_url nav <> [] ->
  onBeforeNavigate d feature "autoJump" now now' now'' nav st = (effects, st') ->
  navigations effects <> [] ->
  exists target config,
    search_target d nav target /\ PLATFORMS_get (platform target) = Own config /\
    forall s t mode t',
      let s1 := fold_left store effects s in
      let s2 := remove_repo_source (nav_tabId nav) s1 in
      t <= now'' + 5000 ->
      backToSearch "autoJump" (Some (nav_tabId nav)) t s1
        = (Some (nav_url nav, name config), s2) /\
      backToSearch mode (Some (nav_tabId nav)) t' s2 = (None, s2).
Proof.
  intros Htab Hurl H Hnav.
  by apply (HintFacts.auto_jump_way_back d feature now now' now'' nav st
              effects st').
Qed.

Lemma auto_jump_leaves_way_back_witness :
  exists target config,
    search_target github search_vscode target /\
    PLATFORMS_get (platform target) = Own config /\
    forall s t mode t',
      let s1 := fold_left store (fst redirected) s in
      let s2 := remove_repo_source 7 s1 in
      t <= 1002 + 5000 ->
      backToSearch "autoJump" (Some 7) t s1
        = (Some (nav_url search_vscode, name config), s2) /\
      backToSearch mode (Some 7) t' s2 = (None, s2).
Proof.
  apply (auto_jump_leaves_way_back github true 1000 1001 1002 search_vscode
           no_jumps (fst redirected) (snd redirected)); by vm_compute.
Defined.

(** X30. When the listener of requests redirects, the address is a bare
    owner and repository, the URL is the one of that repository on GitHub,
    whatever the default platform, and the listener for failed lookups,
    with GitHub as the default platform, sends the same address to the same
    URL unless it takes the host for one of a platform or has just jumped
    there. *)
Theorem request_listener_redirect (type : jsstring) custom a repoUrl :
  onBeforeRequest type custom a = Some repoUrl ->
  exists o r,
    owner_word o /\ repo_word r /\
    dns_target github a
      {| platform := "github"; owner := o; repo := r; path := [] |} /\
    repoUrl = ("https://github.com/" : jsstring) ++ o ++ "/"%char :: r /\
    buildRepoUrl "github" o r [] = Return (Some repoUrl) /\
    forall now now' st,
      findPlatformByDomain (hostname a) = None ->
      fst (isRecentJump now "github" o r st) = false ->
      fst (onErrorOccurred github true custom now now' a st) = Some repoUrl.
Proof. intros H. by apply (WebRequestFacts.onBeforeRequest_redirect type). Qed.

Lemma request_listener_redirect_witness :
  exists o r,
    owner_word o /\ repo_word r /\
    dns_target github failed_lookup
      {| platform := "github"; owner := o; repo := r; path := [] |} /\
    ("https://github.com/microsoft/vscode" : jsstring)
      = ("https://github.com/" : jsstring) ++ o ++ "/"%char :: r /\
    buildRepoUrl "github" o r []
      = Return (Some ("https://github.com/microsoft/vscode" : jsstring)) /\
    forall now now' st,
      findPlatformByDomain (hostname failed_lookup) = None ->
      fst (isRecentJump now "github" o r st) = false ->
      fst (onErrorOccurred github true [] now now' failed_lookup st)
        = Some ("https://github.com/microsoft/vscode" : jsstring).
Proof.
  apply (request_listener_redirect "main_frame" [] failed_lookup).
  by vm_compute.
Defined.

End Further.
